(** * ConferenceData: the data provider of the conference app

    A shallow embedding of [src/providers/conference-data.ts]: the class
    [ConferenceData] with its methods [load], [processData],
    [processSession], [getTimeline], [filterSession], [getSpeakers],
    [getTracks] and [getMap], followed by the properties of the
    specification that hold of it.

    Conventions of the embedding.
    - JavaScript strings are [string]s of 8-bit code units, read as
      the characters U+0000 to U+00FF (Latin-1).  On these [toLowerCase]
      works character by character and [trim] strips seven code units;
      both are written out for the whole range.  Text with characters
      beyond U+00FF is outside the embedding.
    - A JavaScript array is a [list]; [a.indexOf(x)] is [arrayIndexOf]
      with the result [-1] written out.
    - A field that the dynamically typed document may lack ([undefined])
      is an [option]; dereferencing [None] throws [TypeError].  The
      optional fields are those the code tests or the properties vary:
      the three top-level fields, [speakerNames] and [tracks] of a
      session, and the derived fields.
    - Objects shared by reference (a speaker is reachable from
      [data.speakers] and from every [session.speakers]) carry an object
      identity: a speaker by [Speaker.oid], a session by its path
      (day, group, session index) in the schedule, which no method
      changes.
    - [forEach] threads the mutable state through the callback and keeps
      every mutation done before an exception.
    - A promise is its [Outcome], and the methods are called one after
      the other: each promise has come to its outcome before the next
      call.  [Http] answers in a later turn of the event loop, so an
      exception in the subscriber of [load] does not reach the promise.
      Calls of [load] that overlap are followed with its two halves,
      [loadCall] and [loadResponse].
    - [groups] of a day and [sessions] of a group are arrays in every
      [Json.Document]: a fetched document that lacks one of them, on
      which [processData] throws as it does without [schedule], is not
      among the documents of the embedding.
    - [Array.prototype.sort] is the stable sort of ECMAScript 2019;
      [localeCompare], [hasFavorite] and the answers of [Http] are
      parameters. *)

From Stdlib Require Import ZArith Ascii String List Bool Lia Sorted Permutation.
From stdpp Require Import base list strings.

(** ** JavaScript values *)

Inductive JsError := TypeError | RangeError.

(** What a promise comes to.  [NotResolved thrown]: [resolve] is never
    called; [thrown] is the exception raised inside the subscriber
    callback, if it ran at all. *)
Inductive Outcome (A : Type) :=
| Resolved (a : A)
| Rejected (e : JsError)
| NotResolved (thrown : option JsError).
Arguments Resolved {A} a.
Arguments Rejected {A} e.
Arguments NotResolved {A} thrown.

Inductive Result (A : Type) :=
| Ok (a : A)
| Throw (e : JsError).
Arguments Ok {A} a.
Arguments Throw {A} e.

(** ** Strings *)

Module Str.

(** [c.toLowerCase()] on one code unit of the Latin-1 range: the
    letters A to Z and the capitals U+00C0 to U+00DE, without the
    multiplication sign U+00D7, have their small letter 32 places
    further; every other code unit stays. *)
Definition lower (c : ascii) : ascii :=
  let n := N_of_ascii c in
  if ((65 <=? n) && (n <=? 90) || (192 <=? n) && (n <=? 222) && negb (n =? 215))%N
  then ascii_of_N (n + 32)
  else c.

Fixpoint toLowerCase (s : string) : string :=
  match s with
  | EmptyString => EmptyString
  | String c s' => String (lower c) (toLowerCase s')
  end.

(** [s.replace(/,|\.|-/g, ' ')] *)
Definition isPunct (c : ascii) : bool :=
  (Ascii.eqb c "," || Ascii.eqb c "." || Ascii.eqb c "-")%bool.

Fixpoint replacePunct (s : string) : string :=
  match s with
  | EmptyString => EmptyString
  | String c s' => String (if isPunct c then " "%char else c) (replacePunct s')
  end.

(** White space and line terminators as [trim] sees them, in the
    Latin-1 range: TAB, LF, VT, FF, CR, the space and the no-break
    space U+00A0. *)
Definition isWhite (c : ascii) : bool :=
  let n := N_of_ascii c in
  ((9 <=? n) && (n <=? 13) || (n =? 32) || (n =? 160))%N.

Definition isSpace (c : ascii) : bool := Ascii.eqb c " ".

Fixpoint trimStart (s : string) : string :=
  match s with
  | EmptyString => EmptyString
  | String c s' => if isWhite c then trimStart s' else s
  end.

Fixpoint trimEnd (s : string) : string :=
  match s with
  | EmptyString => EmptyString
  | String c s' =>
      match trimEnd s' with
      | EmptyString => if isWhite c then EmptyString else String c EmptyString
      | t => String c t
      end
  end.

Definition trim (s : string) : string := trimEnd (trimStart s).

(** [s.split(sep)] for a separator given as a test on code units: the
    pieces between separators, empty pieces included, never [[]]. *)
Fixpoint splitBy (sep : ascii -> bool) (s : string) : list string :=
  match s with
  | EmptyString => [EmptyString]
  | String c s' =>
      if sep c then EmptyString :: splitBy sep s'
      else match splitBy sep s' with
           | [] => [String c EmptyString]
           | w :: ws => String c w :: ws
           end
  end.

(** [s.split(' ')] *)
Definition split (s : string) : list string := splitBy isSpace s.

(** [s.indexOf(w)] *)
Definition indexOf (s w : string) : Z :=
  match String.index 0 w s with
  | Some i => Z.of_nat i
  | None => (-1)%Z
  end.

(** [a.indexOf(x)] on an array of strings. *)
Fixpoint arrayIndexOfFrom (i : Z) (a : list string) (x : string) : Z :=
  match a with
  | [] => (-1)%Z
  | y :: a' => if String.eqb y x then i else arrayIndexOfFrom (i + 1) a' x
  end.

Definition arrayIndexOf (a : list string) (x : string) : Z :=
  arrayIndexOfFrom 0 a x.

(** [a.pop()] right after [split]: the last piece. *)
Definition pop (a : list string) : string := List.last a EmptyString.

End Str.

(** ** The data model *)

(** The document as it is in [assets/data/data.json].  Each of the
    three top-level fields, and [speakerNames] and [tracks] of a
    session, may be missing; every day has its [groups] and every
    group its [sessions]. *)
Module Json.

Record Session := mkSession {
  s_name : string;
  s_description : string;
  s_speakerNames : option (list string);
  s_timeStart : string;
  s_timeEnd : string;
  s_location : string;
  s_tracks : option (list string) }.

Record Group := mkGroup {
  g_time : string;
  g_sessions : list Session }.

Record Day := mkDay {
  d_date : string;
  d_groups : list Group }.

Record Speaker := mkSpeaker {
  p_name : string;
  p_profilePic : string;
  p_twitter : string;
  p_about : string;
  p_location : string;
  p_email : string;
  p_phone : string }.

(** [lat] and [long] are JSON numbers that no method reads: kept as
    their literals. *)
Record MapPin := mkMapPin {
  m_name : string;
  m_lat : string;
  m_long : string;
  m_centre : bool }.

Record Document := mkDocument {
  schedule : option (list Day);
  speakers : option (list Speaker);
  map : option (list MapPin) }.

End Json.

(** A session object is named by its place in the schedule. *)
Definition SessionRef : Type := nat * nat * nat.

Module Speaker.
Record t := mk {
  oid : nat;
  json : Json.Speaker;
  sessions : option (list SessionRef) }.

Definition name (s : t) : string := Json.p_name (json s).

(** [speaker.sessions = speaker.sessions || []; speaker.sessions.push(session)] *)
Definition push_session (p : SessionRef) (s : t) : t :=
  mk (oid s) (json s) (Some (default [] (sessions s) ++ [p])).
End Speaker.

Module Session.
Record t := mk {
  json : Json.Session;
  speakers : option (list nat);
  hide : option bool }.

Definition name (s : t) : string := Json.s_name (json s).
Definition speakerNames (s : t) : option (list string) := Json.s_speakerNames (json s).
Definition tracks (s : t) : option (list string) := Json.s_tracks (json s).

Definition set_speakers (l : list nat) (s : t) : t := mk (json s) (Some l) (hide s).
Definition set_hide (b : bool) (s : t) : t := mk (json s) (speakers s) (Some b).
End Session.

Module Group.
Record t := mk {
  time : string;
  sessions : list Session.t;
  hide : option bool }.

Definition set_sessions (l : list Session.t) (g : t) : t := mk (time g) l (hide g).
End Group.

Module Day.
Record t := mk {
  date : string;
  groups : list Group.t;
  shownSessions : option nat }.

Definition set_groups (l : list Group.t) (d : t) : t := mk (date d) l (shownSessions d).
End Day.

Module Document.
Record t := mk {
  schedule : option (list Day.t);
  speakers : option (list Speaker.t);
  tracks : option (list string);
  map : option (list Json.MapPin) }.

Definition set_schedule (l : list Day.t) (d : t) : t :=
  mk (Some l) (speakers d) (tracks d) (map d).
Definition set_speakers (l : list Speaker.t) (d : t) : t :=
  mk (schedule d) (Some l) (tracks d) (map d).
Definition set_tracks (l : list string) (d : t) : t :=
  mk (schedule d) (speakers d) (Some l) (map d).
End Document.

(** [res.json()]: one fresh object per JSON object; the speakers are
    numbered in the order of the array. *)
Definition json_session (s : Json.Session) : Session.t := Session.mk s None None.

Definition json_group (g : Json.Group) : Group.t :=
  Group.mk (Json.g_time g) (List.map json_session (Json.g_sessions g)) None.

Definition json_day (d : Json.Day) : Day.t :=
  Day.mk (Json.d_date d) (List.map json_group (Json.d_groups d)) None.

Definition json_speakers (l : list Json.Speaker) : list Speaker.t :=
  imap (fun i p => Speaker.mk i p None) l.

Definition json (raw : Json.Document) : Document.t :=
  Document.mk (List.map json_day <$> Json.schedule raw)
              (json_speakers <$> Json.speakers raw)
              None
              (Json.map raw).

(** ** [Array.prototype.forEach] over objects mutated in place *)

Section ForEach.
Context {X St : Type}.

(** The callback gets the index and the element, reads and writes the
    shared state, and may throw; what it had mutated by then stays. *)
Variable body : nat -> X -> St -> X * St * option JsError.

Fixpoint forEachFrom (i : nat) (l : list X) (σ : St) : list X * St * option JsError :=
  match l with
  | [] => ([], σ, None)
  | x :: l' =>
      let '(x', σ', e) := body i x σ in
      match e with
      | Some err => (x' :: l', σ', Some err)
      | None =>
          let '(l'', σ'', e') := forEachFrom (S i) l' σ' in
          (x' :: l'', σ'', e')
      end
  end.

Definition forEach (l : list X) (σ : St) : list X * St * option JsError :=
  forEachFrom 0 l σ.
End ForEach.

(** ** [Array.prototype.sort]

    The result of [sort] with a consistent comparator is the stable
    sorted arrangement, whatever algorithm the engine runs; it is
    computed here by insertion from the right. *)
Section Sort.
Context {A : Type}.
Variable cmp : A -> A -> Z.

Fixpoint sortInsert (x : A) (l : list A) : list A :=
  match l with
  | [] => [x]
  | y :: l' => if (cmp x y <=? 0)%Z then x :: y :: l' else y :: sortInsert x l'
  end.

Fixpoint sort (l : list A) : list A :=
  match l with
  | [] => []
  | x :: l' => sortInsert x (sort l')
  end.
End Sort.

(** [a.sort()] without a comparator orders strings by code units. *)
Definition defaultCompare (a b : string) : Z :=
  match String.compare a b with
  | Lt => (-1)%Z
  | Eq => 0%Z
  | Gt => 1%Z
  end.

(** ** The provider *)

(** The fields of [data] that [processSession] reaches through [data]
    while the schedule is being walked. *)
Record Shared := mkShared {
  sh_speakers : option (list Speaker.t);
  sh_tracks : list string }.

(** The state of one [ConferenceData] instance: the cache [this.data],
    and the number of [http.get] requests issued so far. *)
Record Service := mkService {
  data : option Document.t;
  fetches : nat }.

Definition set_data (d : Document.t) (st : Service) : Service :=
  mkService (Some d) (fetches st).

Section ConferenceData.

(** [this.http]: the answer to the n-th [get('assets/data/data.json')],
    [None] when the request fails (the subscriber is not called). *)
Variable httpGet : nat -> option Json.Document.

(** [this.user.hasFavorite] *)
Variable hasFavorite : string -> bool.

(** [String.prototype.localeCompare] *)
Variable localeCompare : string -> string -> Z.

(** *** processSession *)

Definition linkSpeaker (p : SessionRef) (_ : nat) (speakerName : string)
    (σ : list nat * option (list Speaker.t))
    : string * (list nat * option (list Speaker.t)) * option JsError :=
  let '(sessionSpeakers, dataSpeakers) := σ in
  match dataSpeakers with
  | None => (speakerName, σ, Some TypeError)
  | Some l =>
      match list_find (fun s => Speaker.name s = speakerName) l with
      | Some (k, speaker) =>
          (speakerName,
           (sessionSpeakers ++ [Speaker.oid speaker],
            Some (<[k := Speaker.push_session p speaker]> l)),
           None)
      | None => (speakerName, σ, None)
      end
  end.

Definition addTrack (_ : nat) (track : string) (dataTracks : list string)
    : string * list string * option JsError :=
  if (Str.arrayIndexOf dataTracks track <? 0)%Z
  then (track, dataTracks ++ [track], None)
  else (track, dataTracks, None).

Definition processSession (p : SessionRef) (session : Session.t) (σ : Shared)
    : Session.t * Shared * option JsError :=
  let '(_, (sessionSpeakers, dataSpeakers), e) :=
    match Session.speakerNames session with
    | Some names => forEach (linkSpeaker p) names ([], sh_speakers σ)
    | None => ([], ([], sh_speakers σ), None)
    end in
  let session' := Session.set_speakers sessionSpeakers session in
  match e with
  | Some err => (session', mkShared dataSpeakers (sh_tracks σ), Some err)
  | None =>
      let '(_, dataTracks, e') :=
        match Session.tracks session with
        | Some tracks => forEach addTrack tracks (sh_tracks σ)
        | None => ([], sh_tracks σ, None)
        end in
      (session', mkShared dataSpeakers dataTracks, e')
  end.

(** *** processData *)

Definition processGroup (d g : nat) (group : Group.t) (σ : Shared)
    : Group.t * Shared * option JsError :=
  let '(sessions, σ', e) :=
    forEach (fun i session => processSession (d, g, i) session) (Group.sessions group) σ in
  (Group.set_sessions sessions group, σ', e).

Definition processDay (d : nat) (day : Day.t) (σ : Shared)
    : Day.t * Shared * option JsError :=
  let '(groups, σ', e) := forEach (processGroup d) (Day.groups day) σ in
  (Day.set_groups groups day, σ', e).

Definition processData (data : Document.t) : Result Document.t :=
  match Document.schedule data with
  | None => Throw TypeError
  | Some schedule =>
      let '(schedule', σ, e) :=
        forEach processDay schedule (mkShared (Document.speakers data) []) in
      match e with
      | Some err => Throw err
      | None =>
          Ok (Document.mk (Some schedule') (sh_speakers σ) (Some (sh_tracks σ))
                          (Document.map data))
      end
  end.

(** *** load *)

Definition load (st : Service) : Outcome Document.t * Service :=
  match data st with
  | Some d => (Resolved d, st)
  | None =>
      let st' := mkService None (S (fetches st)) in
      match httpGet (fetches st) with
      | None => (NotResolved None, st')
      | Some res =>
          match processData (json res) with
          | Ok d => (Resolved d, set_data d st')
          | Throw e => (NotResolved (Some e), st')
          end
      end
  end.

(** [load] taken apart, for a call made before the answer to an earlier
    one has come.  [loadCall] is the call up to its [return]: with a
    cache the promise is resolved with it; without one the request
    number [fetches st] is issued and the promise is pending. *)
Definition loadCall (st : Service) : (Document.t + nat) * Service :=
  match data st with
  | Some d => (inl d, st)
  | None => (inr (fetches st), mkService None (S (fetches st)))
  end.

(** The subscriber callback, run on the answer to request [n]:
    [this.data = this.processData(res.json()); resolve(this.data)]. *)
Definition loadResponse (n : nat) (st : Service) : Outcome Document.t * Service :=
  match httpGet n with
  | None => (NotResolved None, st)
  | Some res =>
      match processData (json res) with
      | Ok d => (Resolved d, set_data d st)
      | Throw e => (NotResolved (Some e), st)
      end
  end.

(** *** filterSession *)

Definition filterSession (session : Session.t) (queryWords excludeTracks : list string)
    (segment : string) : Result Session.t :=
  let matchesQueryText :=
    if (0 <? length queryWords)%nat
    then fold_left
           (fun m queryWord =>
              if (-1 <? Str.indexOf (Str.toLowerCase (Session.name session)) queryWord)%Z
              then true else m)
           queryWords false
    else true in
  match Session.tracks session with
  | None => Throw TypeError
  | Some tracks =>
      let matchesTracks :=
        fold_left
          (fun m trackName =>
             if (Str.arrayIndexOf excludeTracks trackName =? -1)%Z then true else m)
          tracks false in
      let matchesSegment :=
        if String.eqb segment "favorites"
        then (if hasFavorite (Session.name session) then true else false)
        else true in
      Ok (Session.set_hide (negb (matchesQueryText && matchesTracks && matchesSegment))
                           session)
  end.

(** *** getTimeline *)

Definition queryWordsOf (queryText : string) : list string :=
  List.filter (fun w => (0 <? String.length (Str.trim w))%nat)
              (Str.split (Str.replacePunct (Str.toLowerCase queryText))).

(** The callback of [group.sessions.forEach]; its state is
    [group.hide] and [day.shownSessions]. *)
Definition timelineSession (queryWords excludeTracks : list string) (segment : string)
    (_ : nat) (session : Session.t) (σ : bool * nat)
    : Session.t * (bool * nat) * option JsError :=
  match filterSession session queryWords excludeTracks segment with
  | Throw e => (session, σ, Some e)
  | Ok session' =>
      if negb (default false (Session.hide session'))
      then (session', (false, S (snd σ)), None)
      else (session', σ, None)
  end.

(** The callback of [day.groups.forEach]; its state is
    [day.shownSessions]. *)
Definition timelineGroup (queryWords excludeTracks : list string) (segment : string)
    (_ : nat) (group : Group.t) (shown : nat) : Group.t * nat * option JsError :=
  let '(sessions, (hide, shown'), e) :=
    forEach (timelineSession queryWords excludeTracks segment)
            (Group.sessions group) (true, shown) in
  (Group.mk (Group.time group) sessions (Some hide), shown', e).

(** [data.schedule[dayIndex]] *)
Definition at_index {A} (l : list A) (i : Z) : option A :=
  if (i <? 0)%Z then None else l !! Z.to_nat i.

Definition getTimeline (st : Service) (dayIndex : Z) (queryText : string)
    (excludeTracks : list string) (segment : string) : Outcome Day.t * Service :=
  let '(o, st1) := load st in
  match o with
  | Resolved d =>
      match Document.schedule d with
      | None => (Rejected TypeError, st1)
      | Some schedule =>
          match at_index schedule dayIndex with
          | None => (Rejected TypeError, st1)
          | Some day =>
              let queryWords := queryWordsOf queryText in
              let '(groups, shown, e) :=
                forEach (timelineGroup queryWords excludeTracks segment)
                        (Day.groups day) 0 in
              let day' := Day.mk (Day.date day) groups (Some shown) in
              let st2 :=
                set_data (Document.set_schedule (<[Z.to_nat dayIndex := day']> schedule) d)
                         st1 in
              match e with
              | Some err => (Rejected err, st2)
              | None => (Resolved day', st2)
              end
          end
      end
  | Rejected e => (Rejected e, st1)
  | NotResolved e => (NotResolved e, st1)
  end.

(** *** The accessors *)

Definition lastName (s : Speaker.t) : string := Str.pop (Str.split (Speaker.name s)).

Definition bySurname (a b : Speaker.t) : Z := localeCompare (lastName a) (lastName b).

Definition getSpeakers (st : Service) : Outcome (list Speaker.t) * Service :=
  let '(o, st1) := load st in
  match o with
  | Resolved d =>
      match Document.speakers d with
      | None => (Rejected TypeError, st1)
      | Some speakers =>
          let sorted := sort bySurname speakers in
          (Resolved sorted, set_data (Document.set_speakers sorted d) st1)
      end
  | Rejected e => (Rejected e, st1)
  | NotResolved e => (NotResolved e, st1)
  end.

Definition getTracks (st : Service) : Outcome (list string) * Service :=
  let '(o, st1) := load st in
  match o with
  | Resolved d =>
      match Document.tracks d with
      | None => (Rejected TypeError, st1)
      | Some tracks =>
          let sorted := sort defaultCompare tracks in
          (Resolved sorted, set_data (Document.set_tracks sorted d) st1)
      end
  | Rejected e => (Rejected e, st1)
  | NotResolved e => (NotResolved e, st1)
  end.

Definition getMap (st : Service) : Outcome (option (list Json.MapPin)) * Service :=
  let '(o, st1) := load st in
  match o with
  | Resolved d => (Resolved (Document.map d), st1)
  | Rejected e => (Rejected e, st1)
  | NotResolved e => (NotResolved e, st1)
  end.

End ConferenceData.

(** ** Notions used to state the properties *)

(** The entries that a traversal with [forEach] has gone through, when
    the element at index [i] stands for the entries [ent i x]. *)
Fixpoint flatFrom {X E : Type} (ent : nat -> X -> list E) (i : nat) (l : list X) : list E :=
  match l with
  | [] => []
  | x :: l' => ent i x ++ flatFrom ent (S i) l'
  end.

(** The derived annotations taken away again. *)
Definition eraseSession (s : Session.t) : Session.t :=
  Session.mk (Session.json s) (Session.speakers s) None.

Definition eraseGroup (g : Group.t) : Group.t :=
  Group.mk (Group.time g) (List.map eraseSession (Group.sessions g)) None.

Definition eraseDay (d : Day.t) : Day.t :=
  Day.mk (Day.date d) (List.map eraseGroup (Day.groups d)) None.

(** The JSON that an object graph was parsed from. *)
Definition group_to_json (g : Group.t) : Json.Group :=
  Json.mkGroup (Group.time g) (List.map Session.json (Group.sessions g)).

Definition day_to_json (d : Day.t) : Json.Day :=
  Json.mkDay (Day.date d) (List.map group_to_json (Day.groups d)).

(** A session that is shown: [session.hide] is [false]. *)
Definition visible (s : Session.t) : bool :=
  match Session.hide s with
  | Some false => true
  | _ => false
  end.

Definition sessionsOf (d : Day.t) : list Session.t :=
  concat (List.map Group.sessions (Day.groups d)).

Definition tracksOf (s : Session.t) : list string := default [] (Session.tracks s).

(** Every session of the day carries a [tracks] array. *)
Definition tracked (d : Day.t) : Prop :=
  Forall (fun g => Forall (fun s => is_Some (Session.tracks s)) (Group.sessions g))
         (Day.groups d).

(** The three tests of the timeline filter, as the specification words
    them. *)
Module Spec.

(** [w] occurs in [s]. *)
Definition substring (w s : string) : Prop :=
  exists pre post, s = pre +:+ w +:+ post.

Definition queryPredicate (queryWords : list string) (s : Session.t) : Prop :=
  queryWords = [] \/
  exists w, w ∈ queryWords /\ substring w (Str.toLowerCase (Session.name s)).

Definition trackPredicate (excludeTracks : list string) (s : Session.t) : Prop :=
  exists t, t ∈ tracksOf s /\ t ∉ excludeTracks.

Definition segmentPredicate (hasFavorite : string -> bool) (segment : string)
    (s : Session.t) : Prop :=
  segment <> "favorites" \/ hasFavorite (Session.name s) = true.

(** Lowercase, punctuation to spaces, split on white space, empty
    tokens dropped. *)
Definition words (queryText : string) : list string :=
  List.filter (fun w => negb (String.eqb w ""))
              (Str.splitBy Str.isWhite (Str.replacePunct (Str.toLowerCase queryText))).

(** The last white-space-separated token of a name. *)
Definition lastToken (name : string) : string :=
  Str.pop (Str.splitBy Str.isWhite name).

End Spec.

Fixpoint allChars (P : ascii -> bool) (s : string) : bool :=
  match s with
  | EmptyString => true
  | String c s' => P c && allChars P s'
  end.

(** No white space other than the space itself. *)
Definition plainSpaces (s : string) : bool :=
  allChars (fun c => negb (Str.isWhite c) || Str.isSpace c) s.

Definition allWhite (s : string) : bool := allChars Str.isWhite s.

Definition eraseDocument (d : Document.t) : Document.t :=
  Document.mk (List.map eraseDay <$> Document.schedule d)
              (Document.speakers d) (Document.tracks d) (Document.map d).

(** [this.data.schedule[j]] *)
Definition cachedDay (st : Service) (j : nat) : option Day.t :=
  d ← data st; schedule ← Document.schedule d; schedule !! j.

(** What one pass of the timeline filter makes of a session and of a
    group whose sessions all carry tracks. *)
Definition filtered (hasFavorite : string -> bool) (queryWords excludeTracks : list string)
    (segment : string) (s : Session.t) : Session.t :=
  match filterSession hasFavorite s queryWords excludeTracks segment with
  | Ok s' => s'
  | Throw _ => s
  end.

Definition filteredGroup (hasFavorite : string -> bool) (queryWords excludeTracks : list string)
    (segment : string) (g : Group.t) : Group.t :=
  let sessions := List.map (filtered hasFavorite queryWords excludeTracks segment)
                           (Group.sessions g) in
  Group.mk (Group.time g) sessions (Some (negb (existsb visible sessions))).

(** ** A small conference *)

Module Example.

Definition intro : Json.Session :=
  Json.mkSession "Intro to X" "" (Some ["Alice"]) "9:00" "9:30" "Room 1" (Some ["design"]).

Definition deepDive : Json.Session :=
  Json.mkSession "Deep Dive Y" "" (Some []) "10:00" "11:00" "Room 2" (Some ["dev"]).

(** A session whose JSON has neither [speakerNames] nor [tracks]. *)
Definition lunch : Json.Session :=
  Json.mkSession "Lunch" "" None "12:00" "13:00" "Hall" None.

Definition alice : Json.Speaker := Json.mkSpeaker "Alice Zed" "" "" "" "" "" "".
Definition bob : Json.Speaker := Json.mkSpeaker "Bob Abe" "" "" "" "" "" "".
Definition speaker (name : string) : Json.Speaker := Json.mkSpeaker name "" "" "" "" "" "".

Definition day (groups : list Json.Group) : Json.Day := Json.mkDay "2047-05-17" groups.

Definition conference : Json.Document :=
  Json.mkDocument
    (Some [day [Json.mkGroup "9:00 am" [intro]; Json.mkGroup "10:00 am" [deepDive]]])
    (Some [speaker "Alice"])
    (Some [Json.mkMapPin "Venue" "43.07" "-89.38" true]).

(** The same conference with a lunch break after the talks. *)
Definition withLunch : Json.Document :=
  Json.mkDocument
    (Some [day [Json.mkGroup "9:00 am" [intro]; Json.mkGroup "12:00 pm" [lunch]]])
    (Some [speaker "Alice"])
    (Some []).

(** A document without the [map] field. *)
Definition withoutMap : Json.Document :=
  Json.mkDocument (Some [day [Json.mkGroup "9:00 am" [intro]]]) (Some [speaker "Alice"]) None.

(** Two speakers, listed against the order of their last names. *)
Definition twoSpeakers : Json.Document :=
  Json.mkDocument (Some [day [Json.mkGroup "9:00 am" [intro]]]) (Some [alice; bob]) (Some []).

(** A speaker whose first and last name are separated by a TAB. *)
Definition tabbed : Json.Document :=
  Json.mkDocument (Some [])
    (Some [speaker ("Zoe" +:+ String "009"%char "Abe"); speaker "Bob Bee"]) (Some []).

(** Two sessions that name the two speakers [alice] and [bob], and
    one name that nobody bears. *)
Definition panel : Json.Document :=
  Json.mkDocument
    (Some [day [Json.mkGroup "9:00 am"
                  [Json.mkSession "Panel" "" (Some ["Alice Zed"; "Bob Abe"]) "9:00" "9:30"
                                  "Room 1" (Some ["design"])];
                Json.mkGroup "10:00 am"
                  [Json.mkSession "Keynote" "" (Some ["Bob Abe"; "Nobody"]) "10:00" "11:00"
                                  "Room 2" (Some ["dev"])]]])
    (Some [alice; bob])
    (Some []).

(** A day whose second group has a lunch break, without [tracks],
    between two talks. *)
Definition mixed : Json.Document :=
  Json.mkDocument
    (Some [day [Json.mkGroup "9:00 am" [intro];
                Json.mkGroup "10:00 am" [deepDive; lunch; intro]]])
    (Some [speaker "Alice"])
    (Some []).

Definition fresh : Service := mkService None 0.
Definition serve (doc : Json.Document) (n : nat) : option Json.Document := Some doc.
Definition offline (n : nat) : option Json.Document := None.
Definition noFavorites (name : string) : bool := false.

Definition tab : string := String "009"%char EmptyString.

(** Latin-1 text: [Eacute] is the capital E with acute accent
    (U+00C9), [eacute] the small one (U+00E9), [nbsp] the no-break
    space (U+00A0). *)
Definition Eacute : ascii := "201"%char.
Definition eacute : ascii := "233"%char.
Definition nbsp : string := String "160"%char EmptyString.

(** A session whose name begins with [Eacute]. *)
Definition ecole : Json.Session :=
  Json.mkSession (String Eacute "cole Ionic") "" (Some ["Alice"]) "9:00" "9:30" "Room 1"
                 (Some ["design"]).

Definition school : Json.Document :=
  Json.mkDocument (Some [day [Json.mkGroup "9:00 am" [ecole]]]) (Some [speaker "Alice"])
                  (Some []).

End Example.

(** ** Normalization, stated functionally *)

Definition namesOf (s : Session.t) : list string := default [] (Session.speakerNames s).

(** What a speaker object is, apart from its links. *)
Definition key (s : Speaker.t) : nat * Json.Speaker := (Speaker.oid s, Speaker.json s).

Definition linksOf (s : Speaker.t) : list SessionRef := default [] (Speaker.sessions s).

(** The speaker that a name resolves to: the first one of that name. *)
Definition speakerNamed (speakers : list Speaker.t) (n : string) : option (nat * Speaker.t) :=
  list_find (fun s => Speaker.name s = n) speakers.

(** The identities of the speakers named by [names], in the order of
    [names], the names that nobody bears left out. *)
Definition resolve (speakers : list Speaker.t) (names : list string) : list nat :=
  omap (fun n => (fun f => Speaker.oid f.2) <$> speakerNamed speakers n) names.

(** One name of the session at [p] linked, and all of them. *)
Definition link1 (p : SessionRef) (speakers : list Speaker.t) (n : string) : list Speaker.t :=
  match speakerNamed speakers n with
  | Some (k, speaker) => <[k := Speaker.push_session p speaker]> speakers
  | None => speakers
  end.

Definition linkAll (p : SessionRef) (names : list string) (speakers : list Speaker.t)
    : list Speaker.t :=
  fold_left (link1 p) names speakers.

(** The tracks of [tracks] added to [acc], each one once. *)
Definition collect (acc tracks : list string) : list string :=
  fold_left (fun acc t => if (Str.arrayIndexOf acc t <? 0)%Z then acc ++ [t] else acc)
            tracks acc.

(** The sessions of a schedule in document order, each with its path. *)
Definition entriesOfGroup (d g : nat) (group : Group.t) : list (SessionRef * Session.t) :=
  flatFrom (fun i s => [((d, g, i), s)]) 0 (Group.sessions group).

Definition entriesOfDay (d : nat) (day : Day.t) : list (SessionRef * Session.t) :=
  flatFrom (entriesOfGroup d) 0 (Day.groups day).

Definition entries (schedule : list Day.t) : list (SessionRef * Session.t) :=
  flatFrom entriesOfDay 0 schedule.

Definition linkEntries (a : list (SessionRef * Session.t)) (speakers : list Speaker.t)
    : list Speaker.t :=
  fold_left (fun sps e => linkAll e.1 (namesOf e.2) sps) a speakers.

Definition tracksOfEntries (a : list (SessionRef * Session.t)) : list string :=
  flat_map (fun e => tracksOf e.2) a.

(** The session objects after normalization against [speakers]. *)
Definition linkedSession (speakers : list Speaker.t) (s : Session.t) : Session.t :=
  Session.set_speakers (resolve speakers (namesOf s)) s.

Definition linkedGroup (speakers : list Speaker.t) (g : Group.t) : Group.t :=
  Group.set_sessions (List.map (linkedSession speakers) (Group.sessions g)) g.

Definition linkedDay (speakers : list Speaker.t) (d : Day.t) : Day.t :=
  Day.set_groups (List.map (linkedGroup speakers) (Day.groups d)) d.

(** [schedule[d].groups[g].sessions[i]] *)
Definition sessionAt (schedule : list Day.t) (p : SessionRef) : option Session.t :=
  day ← schedule !! p.1.1; group ← Day.groups day !! p.1.2; Group.sessions group !! p.2.

(** The track names of a list in the order of their first occurrence. *)
Fixpoint firstSeen (l : list string) : list string :=
  match l with
  | [] => []
  | x :: l' => x :: List.filter (fun y => negb (String.eqb y x)) (firstSeen l')
  end.

(** All track names of the JSON document, in document order. *)
Definition allTracks (schedule : list Json.Day) : list string :=
  flat_map (fun d => flat_map (fun g => flat_map (fun s => default [] (Json.s_tracks s))
                                                 (Json.g_sessions g))
                              (Json.d_groups d))
           schedule.

(** The shared state after the walk went through the entries [a], from
    the speakers [sps0] and the tracks [ts0]. *)
Definition walked (sps0 : list Speaker.t) (ts0 : list string)
    (a : list (SessionRef * Session.t)) (σ : Shared) : Prop :=
  σ = mkShared (Some (linkEntries a sps0)) (collect ts0 (tracksOfEntries a)).

(** A speaker after the links of one name, and of all the entries [a];
    with unique names [linkEntries] does this to each speaker. *)
Definition pushIfNamed (p : SessionRef) (n : string) (s : Speaker.t) : Speaker.t :=
  if decide (Speaker.name s = n) then Speaker.push_session p s else s.

Definition linkedSpeaker (a : list (SessionRef * Session.t)) (s : Speaker.t) : Speaker.t :=
  fold_left (fun s e => fold_left (fun s n => pushIfNamed e.1 n s) (namesOf e.2) s) a s.

(** [t] is not among [acc]. *)
Definition absent (acc : list string) (t : string) : bool :=
  negb (existsb (String.eqb t) acc).

(** ** Sorting, stated *)

(** A consistent comparator, as [Array.prototype.sort] wants it. *)
Record Consistent {A : Type} (cmp : A -> A -> Z) : Prop := mkConsistent {
  cmp_flip : forall a b, (0 < cmp a b)%Z -> (cmp b a < 0)%Z;
  cmp_flip0 : forall a b, cmp a b = 0%Z -> cmp b a = 0%Z;
  cmp_trans : forall a b c, (cmp a b <= 0)%Z -> (cmp b c <= 0)%Z -> (cmp a c <= 0)%Z }.

(** [a] may stand before [b]. *)
Definition ascending {A : Type} (cmp : A -> A -> Z) (a b : A) : Prop := (cmp a b <= 0)%Z.

(** The elements that compare equal to [z], in the order of the list. *)
Definition equalTo {A : Type} (cmp : A -> A -> Z) (z : A) (l : list A) : list A :=
  List.filter (fun y => (cmp z y =? 0)%Z) l.

(** Two states of an optional array that hold the same elements. *)
Definition sameElements {A : Type} (o o' : option (list A)) : Prop :=
  match o, o' with
  | Some l, Some l' => Permutation l l'
  | None, None => True
  | _, _ => False
  end.

(** ** Further notions *)

(** [getTimeline(dayIndex, queryText = '', excludeTracks = [], segment = 'all')]
    as it is called: an argument left out is [None]. *)
Definition getTimelineWith (httpGet : nat -> option Json.Document)
    (hasFavorite : string -> bool) (st : Service) (dayIndex : Z)
    (queryText : option string) (excludeTracks : option (list string))
    (segment : option string) : Outcome Day.t * Service :=
  getTimeline httpGet hasFavorite st dayIndex
              (default EmptyString queryText) (default [] excludeTracks)
              (default "all" segment).

(** An upper-case ASCII letter. *)
Definition isUpper (c : ascii) : bool := (("A" <=? c) && (c <=? "Z"))%char.

(** A code unit of the ASCII range. *)
Definition isAscii (c : ascii) : bool := (N_of_ascii c <? 128)%N.

(** A code unit that can stand in a query word. *)
Definition wordChar (c : ascii) : bool :=
  negb (Str.isSpace c) && negb (Str.isPunct c) && negb (isUpper c).

(** A code unit that separates query words. *)
Definition separator (c : ascii) : bool := Str.isSpace c || Str.isPunct c.

(** The speakers of a session object, [[]] before normalization. *)
Definition speakersOf (s : Session.t) : list nat := default [] (Session.speakers s).

(** The cross-references of a document are in order: the speakers are
    told apart by their identities, every link of a speaker leads to a
    session of the schedule, every speaker of a session is a speaker of
    the document, and a session lists a speaker exactly when the speaker
    lists the session. *)
Definition linked (d : Document.t) : Prop :=
  exists schedule speakers,
    Document.schedule d = Some schedule /\
    Document.speakers d = Some speakers /\
    NoDup (List.map Speaker.oid speakers) /\
    (forall sp p, sp ∈ speakers -> p ∈ linksOf sp -> is_Some (sessionAt schedule p)) /\
    (forall p s o, sessionAt schedule p = Some s -> o ∈ speakersOf s ->
       exists sp, sp ∈ speakers /\ Speaker.oid sp = o) /\
    (forall p s sp, sessionAt schedule p = Some s -> sp ∈ speakers ->
       (Speaker.oid sp ∈ speakersOf s <-> p ∈ linksOf sp)).

(** The shown sessions of a day, by position. *)
Definition shownAt (d : Day.t) (g k : nat) : bool :=
  match Day.groups d !! g with
  | Some group =>
      match Group.sessions group !! k with
      | Some s => visible s
      | None => false
      end
  | None => false
  end.

(** Some session of the schedule names a speaker. *)
Definition namesSomeone (schedule : list Json.Day) : Prop :=
  exists day group s,
    day ∈ schedule /\ group ∈ Json.d_groups day /\ s ∈ Json.g_sessions group /\
    default [] (Json.s_speakerNames s) <> [].

(** No session of the day names a speaker. *)
Definition anonymous (d : Day.t) : Prop :=
  Forall (fun g => Forall (fun s => namesOf s = []) (Group.sessions g)) (Day.groups d).

(** The walk over a document without [speakers]. *)
Definition speakerless (σ : Shared) : Prop := sh_speakers σ = None.

(** ** Sequences of calls *)

(** A call of a public method by the pages of the app. *)
Inductive Call :=
| CallLoad
| CallTimeline (dayIndex : Z) (queryText : string) (excludeTracks : list string)
               (segment : string)
| CallSpeakers
| CallTracks
| CallMap.

(** The service after a call, and after a sequence of calls. *)
Definition call (httpGet : nat -> option Json.Document) (hasFavorite : string -> bool)
    (localeCompare : string -> string -> Z) (st : Service) (c : Call) : Service :=
  match c with
  | CallLoad => (load httpGet st).2
  | CallTimeline i q ex seg => (getTimeline httpGet hasFavorite st i q ex seg).2
  | CallSpeakers => (getSpeakers httpGet localeCompare st).2
  | CallTracks => (getTracks httpGet st).2
  | CallMap => (getMap httpGet st).2
  end.

Definition calls (httpGet : nat -> option Json.Document) (hasFavorite : string -> bool)
    (localeCompare : string -> string -> Z) (st : Service) (cs : list Call) : Service :=
  fold_left (call httpGet hasFavorite localeCompare) cs st.

(** A document as the specification describes it: a schedule, and
    speakers of unique names. *)
Definition wellFormed (raw : Json.Document) : Prop :=
  is_Some (Json.schedule raw) /\
  exists speakers, Json.speakers raw = Some speakers /\
                   NoDup (List.map Json.p_name speakers).

(** * Properties *)

(** ** [forEach] *)

Section ForEachFacts.
Context {X St : Type}.
Variable body : nat -> X -> St -> X * St * option JsError.

(** A traversal whose callback never throws on the elements it meets:
    an invariant of the shared state, indexed by the entries gone
    through, and a relation between each element before and after. *)
Lemma forEachFrom_run {E : Type} (ent : nat -> X -> list E)
    (Inv : list E -> St -> Prop) (Post : nat -> X -> X -> Prop) (l : list X) :
  forall i acc σ,
    (forall k x a τ, l !! k = Some x -> Inv a τ ->
       exists x' τ', body (i + k) x τ = (x', τ', None) /\
                     Inv (a ++ ent (i + k) x) τ' /\ Post (i + k) x x') ->
    Inv acc σ ->
    exists l' σ', forEachFrom body i l σ = (l', σ', None) /\
                  Inv (acc ++ flatFrom ent i l) σ' /\
                  length l' = length l /\
                  forall k x x', l !! k = Some x -> l' !! k = Some x' -> Post (i + k) x x'.
Proof.
  induction l as [|x l IH]; intros i acc σ Hstep Hinv.
  - exists [], σ. simpl. rewrite app_nil_r. repeat split; auto.
    intros k y y' Hk. discriminate.
  - destruct (Hstep 0 x acc σ eq_refl Hinv) as (x' & σ1 & Hb & Hinv1 & Hpost).
    rewrite Nat.add_0_r in Hb, Hinv1, Hpost.
    destruct (IH (S i) (acc ++ ent i x) σ1) as (l' & σ' & Hrun & Hinv' & Hlen & Hall).
    + intros k y a τ Hk Ha.
      destruct (Hstep (S k) y a τ Hk Ha) as (y' & τ' & H1 & H2 & H3).
      replace (S i + k) with (i + S k) by lia. eauto.
    + exact Hinv1.
    + exists (x' :: l'), σ'. simpl. rewrite Hb, Hrun.
      rewrite <- app_assoc in Hinv'. split; [done|]. split; [done|]. split.
      * simpl. congruence.
      * intros [|k] y y' Hk Hk'; simpl in *.
        -- rewrite Nat.add_0_r. congruence.
        -- replace (i + S k) with (S i + k) by lia. eauto.
Qed.

(** Whatever happens, a projection that the callback leaves alone is
    left alone on the whole array. *)
Lemma forEachFrom_frame {Y : Type} (h : X -> Y) (l : list X) :
  (forall j x τ, h (body j x τ).1.1 = h x) ->
  forall i σ, List.map h (forEachFrom body i l σ).1.1 = List.map h l.
Proof.
  intros Hh. induction l as [|x l IH]; intros i σ; simpl; [done|].
  specialize (Hh i x σ). destruct (body i x σ) as [[x' σ'] e]. simpl in Hh.
  destruct e as [err|].
  - simpl. by rewrite Hh.
  - specialize (IH (S i) σ').
    destruct (forEachFrom body (S i) l σ') as [[l' σ''] e']. simpl in *.
    by rewrite Hh, IH.
Qed.

(** A traversal that meets an element on which the callback always
    throws [err] throws, when [err] is all the callback can throw. *)
Lemma forEachFrom_throws (err : JsError) (x0 : X) (l : list X) :
  (forall j x τ e, (body j x τ).2 = Some e -> e = err) ->
  (forall j τ, (body j x0 τ).2 = Some err) ->
  x0 ∈ l ->
  forall i σ, (forEachFrom body i l σ).2 = Some err.
Proof.
  intros Honly Hx0. induction l as [|x l IH]; intros Hin i σ.
  - by apply elem_of_nil in Hin.
  - simpl. pose proof (Honly i x σ) as Ho. pose proof (Hx0 i σ) as Hx.
    apply elem_of_cons in Hin.
    destruct (body i x σ) as [[x' σ'] e] eqn:Hb. simpl in Ho.
    destruct e as [e|].
    + simpl. f_equal. by apply Ho.
    + destruct Hin as [->|Hin].
      * rewrite Hb in Hx. discriminate.
      * specialize (IH Hin (S i) σ').
        destruct (forEachFrom body (S i) l σ') as [[l' σ''] e']. exact IH.
Qed.

Lemma elem_of_flatFrom {E : Type} (ent : nat -> X -> list E) (e : E) (l : list X) :
  forall i, e ∈ flatFrom ent i l <-> exists k x, l !! k = Some x /\ e ∈ ent (i + k) x.
Proof.
  induction l as [|x l IH]; intros i; simpl.
  - split; [intros H; by apply elem_of_nil in H | intros (k & y & Hk & _); discriminate].
  - rewrite elem_of_app, IH. split.
    + intros [H|(k & y & Hk & H)].
      * exists 0, x. rewrite Nat.add_0_r. done.
      * exists (S k), y. replace (i + S k) with (S i + k) by lia. done.
    + intros ([|k] & y & Hk & H); simpl in Hk.
      * left. rewrite Nat.add_0_r in H. congruence.
      * right. exists k, y. replace (S i + k) with (i + S k) by lia. done.
Qed.
End ForEachFacts.


(** ** Strings *)

#[local] Arguments String.append : simpl nomatch.

Lemma prefix_app (w s : string) :
  String.prefix w s = true <-> exists post, s = w +:+ post.
Proof.
  revert s. induction w as [|a w IH]; intros s.
  - split; [intros _; by exists s | by destruct s].
  - destruct s as [|b s]; simpl.
    + split; [done | intros [post H]; discriminate].
    + destruct (ascii_dec a b) as [->|Hne].
      * rewrite IH. split; intros [post H]; exists post; simpl in *; congruence.
      * split; [done | intros [post H]; simpl in H; congruence].
Qed.

Lemma index_substring (w s : string) :
  is_Some (String.index 0 w s) <-> Spec.substring w s.
Proof.
  unfold Spec.substring. induction s as [|b s IH].
  - simpl. destruct w as [|a w].
    + split; [intros _; by exists "", "" | by eauto].
    + split; [intros [? ?]; discriminate|].
      intros (pre & post & H). destruct pre; discriminate.
  - cbn [String.index]. destruct (String.prefix w (String b s)) eqn:Hp.
    + split; [intros _ | by eauto].
      apply prefix_app in Hp as [post Hp]. by exists "", post.
    + split.
      * destruct (String.index 0 w s) as [n|]; [|intros [? ?]; discriminate].
        intros _. destruct IH as [IH _].
        destruct (IH (mk_is_Some _ _ eq_refl)) as (pre & post & ->).
        by exists (String b pre), post.
      * intros (pre & post & H). destruct pre as [|c pre]; simpl in H.
        -- assert (String.prefix w (String b s) = true) by (apply prefix_app; eauto).
           congruence.
        -- injection H as -> ->. destruct IH as [_ IH].
           destruct IH as [n Hn]; [by eauto|]. rewrite Hn. by eauto.
Qed.

Lemma indexOf_substring (s w : string) :
  Z.ltb (-1) (Str.indexOf s w) = true <-> Spec.substring w s.
Proof.
  rewrite <- index_substring. unfold Str.indexOf.
  destruct (String.index 0 w s) as [n|].
  - split; [by eauto | intros _; apply Z.ltb_lt; lia].
  - split; [intros H; apply Z.ltb_lt in H; lia | intros [? ?]; discriminate].
Qed.

Lemma arrayIndexOfFrom_range (a : list string) (x : string) :
  forall i, (0 <= i)%Z ->
    ((x ∉ a) /\ Str.arrayIndexOfFrom i a x = (-1)%Z) \/
    ((x ∈ a) /\ (i <= Str.arrayIndexOfFrom i a x)%Z).
Proof.
  induction a as [|y a IH]; intros i Hi; simpl.
  - left. split; [apply not_elem_of_nil | done].
  - destruct (String.eqb_spec y x) as [->|Hne].
    + right. split; [apply elem_of_cons; by left | lia].
    + destruct (IH (i + 1)%Z ltac:(lia)) as [[Hn ->]|[Hin Hle]].
      * left. split; [|done]. rewrite elem_of_cons. intros [?|?]; congruence.
      * right. split; [apply elem_of_cons; by right | lia].
Qed.

Lemma arrayIndexOf_absent (a : list string) (x : string) :
  (Str.arrayIndexOf a x =? -1)%Z = true <-> x ∉ a.
Proof.
  unfold Str.arrayIndexOf. rewrite Z.eqb_eq.
  destruct (arrayIndexOfFrom_range a x 0 ltac:(lia)) as [[Hn ->]|[Hin Hle]]; [done|].
  split; [lia | done].
Qed.

Lemma arrayIndexOf_negative (a : list string) (x : string) :
  (Str.arrayIndexOf a x <? 0)%Z = true <-> x ∉ a.
Proof.
  unfold Str.arrayIndexOf. rewrite Z.ltb_lt.
  destruct (arrayIndexOfFrom_range a x 0 ltac:(lia)) as [[Hn ->]|[Hin Hle]]; [done|].
  split; [lia | done].
Qed.

(** A flag raised inside [forEach]. *)
Lemma fold_flag {A : Type} (P : A -> bool) (l : list A) (b : bool) :
  fold_left (fun m x => if P x then true else m) l b = b || existsb P l.
Proof.
  revert b. induction l as [|x l IH]; intros b; simpl.
  - by rewrite orb_false_r.
  - rewrite IH. destruct (P x), b; simpl; auto.
Qed.

Lemma existsb_elem_of {A : Type} (P : A -> bool) (l : list A) :
  existsb P l = true <-> exists x, x ∈ l /\ P x = true.
Proof.
  rewrite existsb_exists. by setoid_rewrite list_elem_of_In.
Qed.

(** ** filterSession *)

Section FilterSession.
Variable hasFavorite : string -> bool.

Lemma filterSession_throws (s : Session.t) (queryWords excludeTracks : list string)
    (segment : string) :
  Session.tracks s = None ->
  filterSession hasFavorite s queryWords excludeTracks segment = Throw TypeError.
Proof. intros H. unfold filterSession. by rewrite H. Qed.

Lemma filterSession_only_TypeError (s : Session.t) (queryWords excludeTracks : list string)
    (segment : string) (e : JsError) :
  filterSession hasFavorite s queryWords excludeTracks segment = Throw e -> e = TypeError.
Proof. unfold filterSession. destruct (Session.tracks s); congruence. Qed.

(** The hide decision of [filterSession] on a session with tracks. *)
Lemma filterSession_decides (s : Session.t) (queryWords excludeTracks : list string)
    (segment : string) :
  is_Some (Session.tracks s) ->
  exists b,
    filterSession hasFavorite s queryWords excludeTracks segment
      = Ok (Session.set_hide b s) /\
    (b = false <->
     Spec.queryPredicate queryWords s /\
     Spec.trackPredicate excludeTracks s /\
     Spec.segmentPredicate hasFavorite segment s).
Proof.
  intros [ts Hts]. unfold filterSession. rewrite Hts.
  eexists. split; [reflexivity|].
  rewrite negb_false_iff, !andb_true_iff, !fold_flag. simpl.
  unfold Spec.queryPredicate, Spec.trackPredicate, Spec.segmentPredicate, tracksOf.
  rewrite Hts. simpl.
  assert (Hq : (if (0 <? length queryWords)%nat
                then existsb (fun w => (-1 <? Str.indexOf (Str.toLowerCase (Session.name s)) w)%Z)
                       queryWords
                else true) = true <->
               queryWords = [] \/
               exists w, w ∈ queryWords /\ Spec.substring w (Str.toLowerCase (Session.name s))).
  { destruct queryWords as [|w ws].
    - simpl. split; auto.
    - change (0 <? length (w :: ws))%nat with true. cbv iota.
      rewrite existsb_elem_of. setoid_rewrite indexOf_substring.
      split; [auto | intros [?|?]; [discriminate | done]]. }
  assert (Ht : existsb (fun t => (Str.arrayIndexOf excludeTracks t =? -1)%Z) ts = true <->
               exists t, t ∈ ts /\ t ∉ excludeTracks).
  { rewrite existsb_elem_of. by setoid_rewrite arrayIndexOf_absent. }
  assert (Hs : (if String.eqb segment "favorites"
                then if hasFavorite (Session.name s) then true else false
                else true) = true <->
               segment <> "favorites" \/ hasFavorite (Session.name s) = true).
  { destruct (String.eqb_spec segment "favorites") as [->|Hne].
    - destruct (hasFavorite (Session.name s)).
      + split; auto.
      + split; [done | intros [?|?]; done].
    - split; auto. }
  rewrite Hq, Ht, Hs. tauto.
Qed.
End FilterSession.


(** ** The query words *)

Section QueryWords.

Lemma trimEnd_empty (s : string) : Str.trimEnd s = "" <-> allWhite s = true.
Proof.
  unfold allWhite. induction s as [|c s IH]; simpl; [done|].
  destruct (Str.trimEnd s) as [|c' t] eqn:Ht.
  - destruct (Str.isWhite c); simpl; [|done]. rewrite <- IH. done.
  - split; [done|]. intros H. apply andb_true_iff in H as [_ H].
    apply IH in H. discriminate.
Qed.

Lemma allWhite_trimStart (s : string) : allWhite (Str.trimStart s) = allWhite s.
Proof.
  unfold allWhite. induction s as [|c s IH]; simpl; [done|].
  destruct (Str.isWhite c) eqn:Hc; simpl; [done|]. by rewrite Hc.
Qed.

Lemma trim_length (w : string) :
  (0 <? String.length (Str.trim w))%nat = negb (allWhite w).
Proof.
  unfold Str.trim. rewrite <- allWhite_trimStart.
  pose proof (trimEnd_empty (Str.trimStart w)) as H.
  destruct (Str.trimEnd (Str.trimStart w)) as [|c t]; simpl.
  - destruct H as [H _]. by rewrite H.
  - destruct (allWhite (Str.trimStart w)); [|done]. destruct H as [_ H]. by discriminate H.
Qed.

(** The query words: the pieces between spaces that are not all white
    space, untrimmed. *)
Lemma queryWordsOf_pieces (queryText : string) :
  queryWordsOf queryText
  = List.filter (fun w => negb (allWhite w))
                (Str.split (Str.replacePunct (Str.toLowerCase queryText))).
Proof. unfold queryWordsOf. apply List.filter_ext. intros w. apply trim_length. Qed.

Lemma splitBy_ext (p q : ascii -> bool) (s : string) :
  allChars (fun c => Bool.eqb (p c) (q c)) s = true ->
  Str.splitBy p s = Str.splitBy q s.
Proof.
  induction s as [|c s IH]; simpl; [done|]. intros H.
  apply andb_true_iff in H as [Hc H]. apply Bool.eqb_prop in Hc.
  by rewrite Hc, IH.
Qed.

Lemma splitBy_pieces (P sep : ascii -> bool) (s : string) :
  allChars P s = true ->
  Forall (fun w => allChars (fun c => P c && negb (sep c)) w = true) (Str.splitBy sep s).
Proof.
  induction s as [|c s IH]; simpl; [by repeat constructor|]. intros H.
  apply andb_true_iff in H as [Hc H]. specialize (IH H).
  destruct (sep c) eqn:Hs.
  - by constructor.
  - destruct (Str.splitBy sep s) as [|w ws]; [by repeat constructor; simpl; rewrite Hc, Hs|].
    apply Forall_cons in IH as [Hw Hws]. constructor; [|done].
    simpl. by rewrite Hc, Hs, Hw.
Qed.

Lemma allChars_impl (P Q : ascii -> bool) (s : string) :
  (forall c, P c = true -> Q c = true) -> allChars P s = true -> allChars Q s = true.
Proof.
  intros HPQ. induction s as [|c s IH]; simpl; [done|]. intros H.
  apply andb_true_iff in H as [Hc H]. by rewrite (HPQ c Hc), IH.
Qed.

Lemma isWhite_lower (c : ascii) : Str.isWhite (Str.lower c) = Str.isWhite c.
Proof. destruct c as [[] [] [] [] [] [] [] []]; reflexivity. Qed.

Lemma isSpace_lower (c : ascii) : Str.isSpace (Str.lower c) = Str.isSpace c.
Proof. destruct c as [[] [] [] [] [] [] [] []]; reflexivity. Qed.

Lemma plainSpaces_normalized (s : string) :
  plainSpaces s = true -> plainSpaces (Str.replacePunct (Str.toLowerCase s)) = true.
Proof.
  unfold plainSpaces. induction s as [|c s IH]; simpl; [done|]. intros H.
  apply andb_true_iff in H as [Hc H]. rewrite (IH H), andb_true_r.
  destruct (Str.isPunct (Str.lower c)); [done|].
  by rewrite isWhite_lower, isSpace_lower.
Qed.

Lemma allWhite_inked (w : string) :
  allChars (fun c => negb (Str.isWhite c)) w = true ->
  negb (allWhite w) = negb (String.eqb w "").
Proof.
  unfold allWhite. destruct w as [|c w]; simpl; [done|].
  by destruct (Str.isWhite c).
Qed.

(** On a text whose only white space is spaces, the query words are
    the white-space separated words of the text. *)
Lemma queryWordsOf_plain (queryText : string) :
  plainSpaces queryText = true -> queryWordsOf queryText = Spec.words queryText.
Proof.
  intros Hplain. apply plainSpaces_normalized in Hplain.
  rewrite queryWordsOf_pieces. unfold Spec.words, Str.split.
  set (t := Str.replacePunct (Str.toLowerCase queryText)) in *.
  assert (Hsplit : Str.splitBy Str.isWhite t = Str.splitBy Str.isSpace t).
  { apply splitBy_ext. revert Hplain. unfold plainSpaces. apply allChars_impl.
    intros c. destruct c as [[] [] [] [] [] [] [] []]; by vm_compute. }
  rewrite Hsplit.
  pose proof (splitBy_pieces _ Str.isSpace t Hplain) as Hpieces.
  rewrite Forall_forall in Hpieces.
  apply List.filter_ext_in. intros w Hw. apply allWhite_inked.
  specialize (Hpieces w ltac:(by apply list_elem_of_In)).
  revert Hpieces. apply allChars_impl. intros c.
  destruct (Str.isWhite c), (Str.isSpace c); by simpl.
Qed.
End QueryWords.

Section ForEachErrors.
Context {X St : Type}.
Variable body : nat -> X -> St -> X * St * option JsError.

Lemma forEachFrom_error_from_body (err : JsError) (l : list X) :
  (forall j x τ e, (body j x τ).2 = Some e -> e = err) ->
  forall i σ e, (forEachFrom body i l σ).2 = Some e -> e = err.
Proof.
  intros Honly. induction l as [|x l IH]; intros i σ e; simpl; [done|].
  pose proof (Honly i x σ) as Ho.
  destruct (body i x σ) as [[x' σ'] [e1|]]; simpl in *.
  - intros [= <-]. by apply Ho.
  - specialize (IH (S i) σ' e).
    by destruct (forEachFrom body (S i) l σ') as [[l' σ''] e'].
Qed.
End ForEachErrors.

(** ** getTimeline *)

Section Timeline.
Variable httpGet : nat -> option Json.Document.
Variable hasFavorite : string -> bool.
Variables (queryWords excludeTracks : list string) (segment : string).

#[local] Abbreviation tlSession := (timelineSession hasFavorite queryWords excludeTracks segment).
#[local] Abbreviation tlGroup := (timelineGroup hasFavorite queryWords excludeTracks segment).
#[local] Abbreviation F := (filtered hasFavorite queryWords excludeTracks segment).
#[local] Abbreviation FG := (filteredGroup hasFavorite queryWords excludeTracks segment).

Lemma filtered_tracked (s : Session.t) :
  is_Some (Session.tracks s) ->
  filterSession hasFavorite s queryWords excludeTracks segment = Ok (F s) /\
  exists b, F s = Session.set_hide b s /\
    (b = false <->
     Spec.queryPredicate queryWords s /\
     Spec.trackPredicate excludeTracks s /\
     Spec.segmentPredicate hasFavorite segment s).
Proof.
  intros Hs. destruct (filterSession_decides hasFavorite s queryWords excludeTracks segment Hs)
    as (b & Hb & Hiff).
  unfold filtered. rewrite Hb. eauto.
Qed.

Lemma visible_set_hide (b : bool) (s : Session.t) :
  visible (Session.set_hide b s) = negb b.
Proof. by destruct b. Qed.

Lemma timelineSessions_run (l : list Session.t) :
  Forall (fun s => is_Some (Session.tracks s)) l ->
  forall i hide shown,
    forEachFrom tlSession i l (hide, shown)
    = (List.map F l,
       (hide && negb (existsb visible (List.map F l)),
        shown + length (List.filter visible (List.map F l))),
       None).
Proof.
  induction 1 as [|s l Hs _ IH]; intros i hide shown; simpl.
  - by rewrite andb_true_r, Nat.add_0_r.
  - destruct (filtered_tracked s Hs) as (Hok & b & Hb & _).
    unfold timelineSession at 1. rewrite Hok, Hb. simpl.
    rewrite visible_set_hide.
    destruct b; simpl; rewrite IH; simpl.
    + done.
    + rewrite andb_false_r. do 2 f_equal. f_equal. lia.
Qed.

Lemma timelineGroups_run (gs : list Group.t) :
  Forall (fun g => Forall (fun s => is_Some (Session.tracks s)) (Group.sessions g)) gs ->
  forall i shown,
    forEachFrom tlGroup i gs shown
    = (List.map FG gs,
       shown + length (List.filter visible (concat (List.map Group.sessions (List.map FG gs)))),
       None).
Proof.
  induction 1 as [|g gs Hg _ IH]; intros i shown; simpl.
  - by rewrite Nat.add_0_r.
  - unfold timelineGroup at 1, forEach. rewrite (timelineSessions_run _ Hg). simpl.
    rewrite IH. unfold filteredGroup at 1 3. simpl.
    rewrite List.filter_app, length_app. do 2 f_equal. lia.
Qed.

(** A session without tracks stops the pass. *)
Lemma timelineSession_only_TypeError j s σ e :
  (tlSession j s σ).2 = Some e -> e = TypeError.
Proof.
  unfold timelineSession.
  destruct (filterSession hasFavorite s queryWords excludeTracks segment) as [s'|e'] eqn:Hf.
  - by destruct (negb _).
  - simpl. intros [= <-]. eapply filterSession_only_TypeError, Hf.
Qed.

Lemma timelineGroup_only_TypeError j g σ e :
  (tlGroup j g σ).2 = Some e -> e = TypeError.
Proof.
  unfold timelineGroup, forEach.
  pose proof (forEachFrom_error_from_body tlSession TypeError (Group.sessions g)
                timelineSession_only_TypeError 0 (true, σ) e) as H.
  destruct (forEachFrom tlSession 0 (Group.sessions g) (true, σ)) as [[l' [h n]] e'].
  exact H.
Qed.

Lemma timelineGroup_throws (g : Group.t) (s : Session.t) j σ :
  s ∈ Group.sessions g -> Session.tracks s = None ->
  (tlGroup j g σ).2 = Some TypeError.
Proof.
  intros Hin Hs. unfold timelineGroup, forEach.
  pose proof (forEachFrom_throws tlSession TypeError s (Group.sessions g)
                timelineSession_only_TypeError) as H.
  specialize (H ltac:(intros; unfold timelineSession;
                      by rewrite (filterSession_throws _ _ _ _ _ Hs)) Hin 0 (true, σ)).
  by destruct (forEachFrom tlSession 0 (Group.sessions g) (true, σ)) as [[l' [h n]] e'].
Qed.

Lemma timelineGroups_throw (gs : list Group.t) (g : Group.t) (s : Session.t) i σ :
  g ∈ gs -> s ∈ Group.sessions g -> Session.tracks s = None ->
  (forEachFrom tlGroup i gs σ).2 = Some TypeError.
Proof.
  intros Hg Hs Hn.
  apply (forEachFrom_throws tlGroup TypeError g gs); auto.
  - apply timelineGroup_only_TypeError.
  - intros. by eapply timelineGroup_throws.
Qed.

Lemma timelineGroups_tracked (gs : list Group.t) i σ :
  (forEachFrom tlGroup i gs σ).2 = None ->
  Forall (fun g => Forall (fun s => is_Some (Session.tracks s)) (Group.sessions g)) gs.
Proof.
  intros Hnone. apply Forall_forall. intros g Hg. apply Forall_forall. intros s Hs.
  destruct (Session.tracks s) eqn:Ht; [by eauto|].
  rewrite (timelineGroups_throw gs g s i σ Hg Hs Ht) in Hnone. discriminate.
Qed.

(** Whatever the pass does, it only writes annotations. *)
Lemma timelineSession_erase j s σ : eraseSession (tlSession j s σ).1.1 = eraseSession s.
Proof.
  unfold timelineSession, filterSession.
  destruct (Session.tracks s); [|done].
  by destruct (negb _).
Qed.

Lemma timelineGroup_erase j g σ : eraseGroup (tlGroup j g σ).1.1 = eraseGroup g.
Proof.
  unfold timelineGroup, forEach.
  pose proof (forEachFrom_frame tlSession eraseSession (Group.sessions g)
                timelineSession_erase 0 (true, σ)) as H.
  destruct (forEachFrom tlSession 0 (Group.sessions g) (true, σ)) as [[l' [h n]] e'].
  simpl in *. unfold eraseGroup. simpl. by rewrite H.
Qed.

Lemma timelineGroups_erase (gs : list Group.t) i σ :
  List.map eraseGroup (forEachFrom tlGroup i gs σ).1.1 = List.map eraseGroup gs.
Proof. apply forEachFrom_frame, timelineGroup_erase. Qed.
End Timeline.


Section TimelineTheorems.
Variable httpGet : nat -> option Json.Document.
Variable hasFavorite : string -> bool.

Lemma load_cached st d st1 :
  load httpGet st = (Resolved d, st1) -> data st1 = Some d.
Proof.
  unfold load. destruct (data st) as [d0|] eqn:Hd.
  - intros [= <- <-]. done.
  - destruct (httpGet (fetches st)) as [res|]; [|discriminate].
    destruct (processData (json res)); [|discriminate].
    by intros [= <- <-].
Qed.

Lemma load_never_rejects st e st1 : load httpGet st <> (Rejected e, st1).
Proof.
  unfold load. destruct (data st); [discriminate|].
  destruct (httpGet (fetches st)) as [res|]; [|discriminate].
  destruct (processData (json res)); discriminate.
Qed.

Lemma at_index_Some {A} (l : list A) (i : Z) (x : A) :
  at_index l i = Some x -> (0 <= i < Z.of_nat (length l))%Z /\ l !! Z.to_nat i = Some x.
Proof.
  unfold at_index. destruct (Z.ltb_spec i 0) as [Hlt|Hge]; [discriminate|].
  intros Hx. split; [|done]. apply lookup_lt_Some in Hx. lia.
Qed.

Lemma at_index_None {A} (l : list A) (i : Z) :
  at_index l i = None <-> ~ (0 <= i < Z.of_nat (length l))%Z.
Proof.
  unfold at_index. destruct (Z.ltb_spec i 0) as [Hlt|Hge]; [split; [lia|done]|].
  rewrite lookup_ge_None. lia.
Qed.

Section Pass.
Variables (st st1 : Service) (d : Document.t) (schedule : list Day.t).
Variables (i : Z) (queryText : string) (excludeTracks : list string) (segment : string).
Hypothesis Hload : load httpGet st = (Resolved d, st1).
Hypothesis Hsch : Document.schedule d = Some schedule.

Lemma getTimeline_no_day :
  at_index schedule i = None ->
  getTimeline httpGet hasFavorite st i queryText excludeTracks segment
  = (Rejected TypeError, st1).
Proof. intros Hi. unfold getTimeline. by rewrite Hload, Hsch, Hi. Qed.

Lemma getTimeline_run (day : Day.t) :
  at_index schedule i = Some day ->
  exists groups shown e,
    forEach (timelineGroup hasFavorite (queryWordsOf queryText) excludeTracks segment)
            (Day.groups day) 0 = (groups, shown, e) /\
    getTimeline httpGet hasFavorite st i queryText excludeTracks segment
    = (match e with
       | Some err => Rejected err
       | None => Resolved (Day.mk (Day.date day) groups (Some shown))
       end,
       set_data (Document.set_schedule
                   (<[Z.to_nat i := Day.mk (Day.date day) groups (Some shown)]> schedule) d)
                st1).
Proof.
  intros Hi. unfold getTimeline. rewrite Hload, Hsch, Hi.
  destruct (forEach _ (Day.groups day) 0) as [[groups shown] e].
  exists groups, shown, e. split; [done|]. by destruct e.
Qed.
End Pass.

(** What a resolved [getTimeline] went through. *)
Lemma getTimeline_resolved st i queryText excludeTracks segment day' st' :
  getTimeline httpGet hasFavorite st i queryText excludeTracks segment = (Resolved day', st') ->
  exists d st1 schedule day,
    load httpGet st = (Resolved d, st1) /\
    Document.schedule d = Some schedule /\
    at_index schedule i = Some day /\
    tracked day /\
    day' = Day.mk (Day.date day)
             (List.map (filteredGroup hasFavorite (queryWordsOf queryText) excludeTracks segment)
                       (Day.groups day))
             (Some (length (List.filter visible (sessionsOf day')))) /\
    st' = set_data (Document.set_schedule (<[Z.to_nat i := day']> schedule) d) st1.
Proof.
  intros H.
  destruct (load httpGet st) as [o st1] eqn:Hload.
  destruct o as [d|e|e]; try (unfold getTimeline in H; rewrite Hload in H; discriminate).
  destruct (Document.schedule d) as [schedule|] eqn:Hsch;
    [|unfold getTimeline in H; rewrite Hload, Hsch in H; discriminate].
  destruct (at_index schedule i) as [day|] eqn:Hi;
    [|unfold getTimeline in H; rewrite Hload, Hsch, Hi in H; discriminate].
  destruct (getTimeline_run st st1 d schedule i queryText excludeTracks segment Hload Hsch day Hi)
    as (groups & shown & e & Hpass & Hget).
  rewrite Hget in H. destruct e as [err|]; [discriminate|].
  injection H as <- <-.
  assert (Ht : tracked day).
  { eapply timelineGroups_tracked with (i := 0) (σ := 0).
    unfold forEach in Hpass. by rewrite Hpass. }
  unfold forEach in Hpass. rewrite (timelineGroups_run _ _ _ _ _ Ht) in Hpass.
  injection Hpass as <- <-.
  exists d, st1, schedule, day. repeat split; auto.
Qed.

(** On a day of the schedule whose sessions all carry tracks the pass
    goes through. *)
Lemma getTimeline_resolves st d st1 schedule day i queryText excludeTracks segment :
  load httpGet st = (Resolved d, st1) ->
  Document.schedule d = Some schedule ->
  at_index schedule i = Some day ->
  tracked day ->
  exists day' st',
    getTimeline httpGet hasFavorite st i queryText excludeTracks segment = (Resolved day', st').
Proof.
  intros Hload Hsch Hi Ht.
  destruct (getTimeline_run st st1 d schedule i queryText excludeTracks segment Hload Hsch day Hi)
    as (groups & shown & e & Hpass & ->).
  unfold forEach in Hpass. rewrite (timelineGroups_run _ _ _ _ _ Ht) in Hpass.
  injection Hpass as _ _ <-. eauto.
Qed.

Lemma elem_of_sessionsOf (day : Day.t) (s : Session.t) :
  s ∈ sessionsOf day <-> exists g, g ∈ Day.groups day /\ s ∈ Group.sessions g.
Proof.
  unfold sessionsOf. rewrite list_elem_of_In, in_concat. split.
  - intros (l & Hl & Hs). apply in_map_iff in Hl as (g & <- & Hg).
    exists g. by rewrite !list_elem_of_In.
  - intros (g & Hg & Hs). exists (Group.sessions g).
    split; [apply in_map | ]; by apply list_elem_of_In.
Qed.

(** C1 (as amended): on a day of the schedule whose sessions all carry
    tracks [getTimeline] resolves; and whenever it resolves, the
    selected day holds the same sessions as before, and each of them is
    hidden unless it passes the query test, the track test and the
    segment test; the query words are the pieces of the lowercased text
    between single spaces, after commas, periods and hyphens became
    spaces, without the pieces that are empty or all white space. *)
Theorem getTimeline_hide st i queryText excludeTracks segment :
  (forall d st1 schedule day,
     load httpGet st = (Resolved d, st1) ->
     Document.schedule d = Some schedule ->
     at_index schedule i = Some day ->
     tracked day ->
     exists day' st',
       getTimeline httpGet hasFavorite st i queryText excludeTracks segment
       = (Resolved day', st')) /\
  (forall day' st',
     getTimeline httpGet hasFavorite st i queryText excludeTracks segment
     = (Resolved day', st') ->
     exists d st1 schedule day,
       load httpGet st = (Resolved d, st1) /\
       Document.schedule d = Some schedule /\
       at_index schedule i = Some day /\
       eraseDay day' = eraseDay day /\
       queryWordsOf queryText
         = List.filter (fun w => negb (allWhite w))
                       (Str.split (Str.replacePunct (Str.toLowerCase queryText))) /\
       forall s', s' ∈ sessionsOf day' ->
         exists b, Session.hide s' = Some b /\
           (b = false <->
            Spec.queryPredicate (queryWordsOf queryText) s' /\
            Spec.trackPredicate excludeTracks s' /\
            Spec.segmentPredicate hasFavorite segment s')).
Proof.
  split; [intros; by eapply getTimeline_resolves|].
  intros day' st' H. destruct (getTimeline_resolved _ _ _ _ _ _ _ H)
    as (d & st1 & schedule & day & Hload & Hsch & Hi & Ht & Hday & Hst).
  exists d, st1, schedule, day.
  split; [done|]. split; [done|]. split; [done|]. split; [|split].
  2: apply queryWordsOf_pieces.
  - pose proof (timelineGroups_erase hasFavorite (queryWordsOf queryText)
                  excludeTracks segment (Day.groups day) 0 0) as He.
    rewrite (timelineGroups_run _ _ _ _ _ Ht) in He. simpl in He.
    rewrite Hday. unfold eraseDay. simpl. by rewrite He.
  - intros s' Hs'. apply elem_of_sessionsOf in Hs' as (g' & Hg' & Hs').
    rewrite Hday in Hg'. simpl in Hg'.
    apply list_elem_of_In, in_map_iff in Hg' as (g & <- & Hg).
    simpl in Hs'. apply list_elem_of_In, in_map_iff in Hs' as (s & <- & Hs).
    unfold tracked in Ht. rewrite Forall_forall in Ht.
    specialize (Ht g ltac:(by apply list_elem_of_In)). rewrite Forall_forall in Ht.
    specialize (Ht s ltac:(by apply list_elem_of_In)).
    destruct (filtered_tracked hasFavorite (queryWordsOf queryText) excludeTracks segment s Ht)
      as (_ & b & -> & Hiff).
    exists b. split; [done|]. exact Hiff.
Qed.

Lemma visible_hide (s : Session.t) : visible s = true <-> Session.hide s = Some false.
Proof. unfold visible. destruct (Session.hide s) as [[]|]; split; congruence. Qed.

(** C2: on a day of the schedule whose sessions all carry tracks
    [getTimeline] resolves; and whenever it resolves, the day's
    [shownSessions] is the number of its sessions whose [hide] is
    [false], and a group's [hide] is [false] exactly when one of its
    sessions has [hide] [false]. *)
Theorem getTimeline_shown st i queryText excludeTracks segment :
  (forall d st1 schedule day,
     load httpGet st = (Resolved d, st1) ->
     Document.schedule d = Some schedule ->
     at_index schedule i = Some day ->
     tracked day ->
     exists day' st',
       getTimeline httpGet hasFavorite st i queryText excludeTracks segment
       = (Resolved day', st')) /\
  (forall day' st',
     getTimeline httpGet hasFavorite st i queryText excludeTracks segment
     = (Resolved day', st') ->
     Day.shownSessions day' = Some (length (List.filter visible (sessionsOf day'))) /\
     forall g', g' ∈ Day.groups day' ->
       exists b, Group.hide g' = Some b /\
         (b = false <-> exists s', s' ∈ Group.sessions g' /\ Session.hide s' = Some false)).
Proof.
  split; [intros; by eapply getTimeline_resolves|].
  intros day' st' H. destruct (getTimeline_resolved _ _ _ _ _ _ _ H)
    as (d & st1 & schedule & day & Hload & Hsch & Hi & Ht & Hday & Hst).
  split.
  - apply (f_equal Day.shownSessions) in Hday. exact Hday.
  - intros g' Hg'. apply (f_equal Day.groups) in Hday. simpl in Hday.
    rewrite Hday in Hg'. apply list_elem_of_In, in_map_iff in Hg' as (g & <- & Hg).
    eexists. split; [reflexivity|].
    rewrite negb_false_iff, existsb_elem_of. by setoid_rewrite visible_hide.
Qed.

(** C5 (as amended): with a day index outside the schedule the promise
    of [getTimeline] is rejected with the [TypeError] of the access to
    the missing day, and the cache is as [load] left it. *)
Theorem getTimeline_bad_index st d st1 schedule i queryText excludeTracks segment :
  load httpGet st = (Resolved d, st1) ->
  Document.schedule d = Some schedule ->
  ~ (0 <= i < Z.of_nat (length schedule))%Z ->
  getTimeline httpGet hasFavorite st i queryText excludeTracks segment
  = (Rejected TypeError, st1).
Proof.
  intros Hload Hsch Hi. eapply getTimeline_no_day; eauto. by apply at_index_None.
Qed.

(** The pass of [getTimeline] writes annotations only, and only on the
    selected day; it does so also when it is rejected half way. *)
Lemma getTimeline_frame st i queryText excludeTracks segment :
  let st1 := (load httpGet st).2 in
  let st' := (getTimeline httpGet hasFavorite st i queryText excludeTracks segment).2 in
  fetches st' = fetches st1 /\
  eraseDocument <$> data st' = eraseDocument <$> data st1 /\
  forall j, j <> Z.to_nat i -> cachedDay st' j = cachedDay st1 j.
Proof.
  destruct (load httpGet st) as [o st1] eqn:Hload. simpl.
  destruct o as [d|e|e]; try (unfold getTimeline; rewrite Hload; by simpl).
  pose proof (load_cached _ _ _ Hload) as Hd.
  destruct (Document.schedule d) as [schedule|] eqn:Hsch;
    [|unfold getTimeline; rewrite Hload, Hsch; by simpl].
  destruct (at_index schedule i) as [day|] eqn:Hi;
    [|unfold getTimeline; rewrite Hload, Hsch, Hi; by simpl].
  destruct (getTimeline_run st st1 d schedule i queryText excludeTracks segment Hload Hsch day Hi)
    as (groups & shown & e & Hpass & ->).
  simpl. apply at_index_Some in Hi as [_ Hi]. split; [done|]. split.
  - assert (Hins : forall day', eraseDay day' = eraseDay day ->
              List.map eraseDay (<[Z.to_nat i:=day']> schedule) = List.map eraseDay schedule).
    { intros day' Hday'. change (eraseDay <$> <[Z.to_nat i:=day']> schedule = eraseDay <$> schedule).
      rewrite list_fmap_insert. apply list_insert_id.
      by rewrite list_lookup_fmap, Hi, Hday'. }
    rewrite Hd. simpl. unfold eraseDocument. simpl. rewrite Hsch. simpl.
    rewrite Hins; [done|].
    unfold eraseDay. simpl. f_equal.
    pose proof (timelineGroups_erase hasFavorite (queryWordsOf queryText) excludeTracks
                  segment (Day.groups day) 0 0) as He.
    unfold forEach in Hpass. by rewrite Hpass in He.
  - intros j Hj. unfold cachedDay. rewrite Hd. simpl. rewrite Hsch. simpl.
    by rewrite list_lookup_insert_ne.
Qed.
End TimelineTheorems.

(** C2, on the scenario of the specification: one shown session, the
    first group shown and the second hidden. *)
Lemma getTimeline_shown_witness :
  exists day' st',
    getTimeline (Example.serve Example.conference) Example.noFavorites Example.fresh
                0 "intro" [] "all" = (Resolved day', st') /\
    List.map Group.hide (Day.groups day') = [Some false; Some true] /\
    Day.shownSessions day' = Some 1 /\
    Day.shownSessions day' = Some (length (List.filter visible (sessionsOf day'))) /\
    forall g', g' ∈ Day.groups day' ->
      exists b, Group.hide g' = Some b /\
        (b = false <-> exists s', s' ∈ Group.sessions g' /\ Session.hide s' = Some false).
Proof.
  destruct (getTimeline_shown (Example.serve Example.conference) Example.noFavorites
              Example.fresh 0 "intro" [] "all") as [Hruns Hshown].
  eexists _, _. split; [vm_compute; reflexivity|].
  split; [reflexivity|]. split; [reflexivity|].
  eapply Hshown. vm_compute. reflexivity.
Defined.

(** C1, on the same scenario. *)
Lemma getTimeline_hide_witness :
  exists day' st',
    getTimeline (Example.serve Example.conference) Example.noFavorites Example.fresh
                0 "intro" [] "all" = (Resolved day', st') /\
    List.map Session.hide (sessionsOf day') = [Some false; Some true] /\
    forall s', s' ∈ sessionsOf day' ->
      exists b, Session.hide s' = Some b /\
        (b = false <->
         Spec.queryPredicate (queryWordsOf "intro") s' /\
         Spec.trackPredicate [] s' /\
         Spec.segmentPredicate Example.noFavorites "all" s').
Proof.
  destruct (getTimeline_hide (Example.serve Example.conference) Example.noFavorites
              Example.fresh 0 "intro" [] "all") as [Hruns Hhide].
  eexists _, _. split; [vm_compute; reflexivity|]. split; [reflexivity|].
  edestruct Hhide as (d & st1 & sch & day & _ & _ & _ & _ & _ & H);
    [vm_compute; reflexivity|].
  exact H.
Defined.

(** C1 as stated fails on a query with a TAB: the code keeps
    [intro<TAB>x] as one word, which is not in the name, and hides the
    session; split on white space, the word [intro] is in the name and
    the three tests of the claim pass. *)
Lemma getTimeline_hide_tab_counterexample :
  let queryText := "intro" +:+ Example.tab +:+ "x" in
  exists day' st' s',
    getTimeline (Example.serve Example.conference) Example.noFavorites Example.fresh
                0 queryText [] "all" = (Resolved day', st') /\
    s' ∈ sessionsOf day' /\
    Session.name s' = "Intro to X" /\
    Session.hide s' = Some true /\
    Spec.words queryText = ["intro"; "x"] /\
    Spec.queryPredicate (Spec.words queryText) s' /\
    Spec.trackPredicate [] s' /\
    Spec.segmentPredicate Example.noFavorites "all" s'.
Proof.
  eexists _, _, _. split; [vm_compute; reflexivity|].
  split; [apply elem_of_cons; left; reflexivity|].
  split; [reflexivity|]. split; [reflexivity|]. split; [reflexivity|].
  split; [|split].
  - right. exists "intro". split; [apply elem_of_cons; by left|].
    by exists "", " to x".
  - exists "design". split; [apply elem_of_cons; by left | apply not_elem_of_nil].
  - by left.
Qed.

(** The query on Latin-1 text: [toLowerCase] reaches the accented
    capitals, and a piece that is a no-break space is dropped like any
    white space, so the query of [Eacute], [COLE], a space and a
    no-break space has one word, which is found in the name of the
    session [ecole]. *)
Lemma getTimeline_latin1 :
  let queryText := String Example.Eacute "COLE " +:+ Example.nbsp in
  queryWordsOf queryText = [String Example.eacute "cole"] /\
  exists day' st',
    getTimeline (Example.serve Example.school) Example.noFavorites Example.fresh
                0 queryText [] "all" = (Resolved day', st') /\
    List.map Session.name (sessionsOf day') = [String Example.Eacute "cole Ionic"] /\
    List.map Session.hide (sessionsOf day') = [Some false].
Proof.
  split; [reflexivity|]. eexists _, _. split; [vm_compute; reflexivity|]. done.
Qed.

(** C5, on the boundary case of the specification: 99 on a schedule of
    one day. *)
Lemma getTimeline_bad_index_witness :
  exists d st1,
    load (Example.serve Example.conference) Example.fresh = (Resolved d, st1) /\
    getTimeline (Example.serve Example.conference) Example.noFavorites Example.fresh
                99 "" [] "all" = (Rejected TypeError, st1).
Proof.
  eexists _, _. split; [vm_compute; reflexivity|].
  eapply (getTimeline_bad_index (Example.serve Example.conference) Example.noFavorites
            Example.fresh _ _ _ 99 "" [] "all").
  - vm_compute. reflexivity.
  - reflexivity.
  - simpl. lia.
Defined.

(** C5 as stated fails: the error is not a [RangeError]. *)
Lemma getTimeline_bad_index_counterexample :
  (getTimeline (Example.serve Example.conference) Example.noFavorites Example.fresh
               99 "" [] "all").1 = Rejected TypeError /\
  (getTimeline (Example.serve Example.conference) Example.noFavorites Example.fresh
               99 "" [] "all").1 <> Rejected RangeError.
Proof. split; [vm_compute; reflexivity | vm_compute; discriminate]. Qed.


(** ** processData *)

Lemma pointwise_map {A : Type} (f : A -> A) (l l' : list A) :
  length l' = length l ->
  (forall k x x', l !! k = Some x -> l' !! k = Some x' -> x' = f x) ->
  l' = List.map f l.
Proof.
  intros Hlen Hall. apply list_eq. intros k.
  change (List.map f l) with (f <$> l). rewrite list_lookup_fmap.
  destruct (l !! k) as [x|] eqn:Hx; destruct (l' !! k) as [x'|] eqn:Hx'; simpl.
  - f_equal. eauto.
  - apply lookup_lt_Some in Hx. apply lookup_ge_None in Hx'. lia.
  - apply lookup_lt_Some in Hx'. apply lookup_ge_None in Hx. lia.
  - done.
Qed.

Section Linking.

Lemma speakerNamed_key (sps sps' : list Speaker.t) (n : string) :
  List.map key sps = List.map key sps' ->
  (fun f => (f.1, key f.2)) <$> speakerNamed sps n
  = (fun f => (f.1, key f.2)) <$> speakerNamed sps' n.
Proof.
  unfold speakerNamed. revert sps'.
  induction sps as [|s sps IH]; intros [|s' sps'] Hk; try discriminate; [done|].
  assert (Hs : key s = key s').
  { apply (f_equal head) in Hk. simpl in Hk. congruence. }
  apply (f_equal tail) in Hk. simpl in Hk. cbn [list_find].
  assert (Hn : Speaker.name s = Speaker.name s').
  { unfold Speaker.name. unfold key in Hs. congruence. }
  rewrite Hn. destruct (decide (Speaker.name s' = n)); simpl.
  - by rewrite Hs.
  - specialize (IH sps' Hk).
    destruct (list_find _ sps) as [[k x]|], (list_find _ sps') as [[k' x']|];
      simpl in *; congruence.
Qed.

Lemma speakerNamed_Some (sps : list Speaker.t) (n : string) k s :
  speakerNamed sps n = Some (k, s) -> sps !! k = Some s /\ Speaker.name s = n.
Proof. intros H. apply list_find_Some in H. tauto. Qed.

Lemma link1_key p sps n : List.map key (link1 p sps n) = List.map key sps.
Proof.
  unfold link1. destruct (speakerNamed sps n) as [[k s]|] eqn:Hf; [|done].
  apply speakerNamed_Some in Hf as [Hk _].
  change (key <$> <[k:=Speaker.push_session p s]> sps = key <$> sps).
  rewrite list_fmap_insert. apply list_insert_id.
  by rewrite list_lookup_fmap, Hk.
Qed.

Lemma linkAll_key p names sps : List.map key (linkAll p names sps) = List.map key sps.
Proof.
  unfold linkAll. revert sps. induction names as [|n names IH]; intros sps; simpl; [done|].
  by rewrite IH, link1_key.
Qed.

Lemma linkEntries_key a sps : List.map key (linkEntries a sps) = List.map key sps.
Proof.
  unfold linkEntries. revert sps. induction a as [|e a IH]; intros sps; simpl; [done|].
  by rewrite IH, linkAll_key.
Qed.

Lemma resolve_key (sps sps' : list Speaker.t) (names : list string) :
  List.map key sps = List.map key sps' -> resolve sps names = resolve sps' names.
Proof.
  intros Hk. unfold resolve. induction names as [|n names IH]; [done|].
  cbn [omap list_omap]. rewrite IH.
  pose proof (speakerNamed_key sps sps' n Hk) as Hn.
  destruct (speakerNamed sps n) as [[k x]|], (speakerNamed sps' n) as [[k' x']|];
    simpl in *; try discriminate; [|done].
  assert (Speaker.oid x = Speaker.oid x') by (unfold key in Hn; congruence).
  congruence.
Qed.

Lemma linkSpeakers_run (p : SessionRef) (names : list string) :
  forall i acc sps,
    forEachFrom (linkSpeaker p) i names (acc, Some sps)
    = (names, (acc ++ resolve sps names, Some (linkAll p names sps)), None).
Proof.
  induction names as [|n names IH]; intros i acc sps.
  - simpl. by rewrite app_nil_r.
  - cbn [forEachFrom]. unfold linkSpeaker at 1. fold (speakerNamed sps n).
    unfold resolve. cbn [omap list_omap]. fold (resolve sps names).
    unfold linkAll. cbn [fold_left]. fold (linkAll p names (link1 p sps n)).
    unfold link1.
    destruct (speakerNamed sps n) as [[k s]|] eqn:Hf; simpl.
    + rewrite IH. rewrite <- app_assoc. simpl.
      assert (Hk : List.map key (<[k:=Speaker.push_session p s]> sps) = List.map key sps).
      { pose proof (link1_key p sps n) as H. unfold link1 in H. by rewrite Hf in H. }
      by rewrite (resolve_key _ _ names Hk).
    + by rewrite IH.
Qed.

Lemma addTracks_run (tracks : list string) :
  forall i acc, forEachFrom addTrack i tracks acc = (tracks, collect acc tracks, None).
Proof.
  unfold collect. induction tracks as [|t tracks IH]; intros i acc; simpl; [done|].
  unfold addTrack at 1.
  destruct (Str.arrayIndexOf acc t <? 0)%Z; by rewrite IH.
Qed.

Lemma processSession_run (p : SessionRef) (s : Session.t) sps ts :
  processSession p s (mkShared (Some sps) ts)
  = (linkedSession sps s,
     mkShared (Some (linkAll p (namesOf s) sps)) (collect ts (tracksOf s)),
     None).
Proof.
  unfold processSession, linkedSession, namesOf, tracksOf, forEach. simpl.
  destruct (Session.speakerNames s) as [names|]; simpl.
  - rewrite linkSpeakers_run. simpl.
    destruct (Session.tracks s) as [tracks|]; simpl; [|done].
    by rewrite addTracks_run.
  - destruct (Session.tracks s) as [tracks|]; simpl; [|done].
    by rewrite addTracks_run.
Qed.

Lemma collect_app acc l1 l2 : collect acc (l1 ++ l2) = collect (collect acc l1) l2.
Proof. unfold collect. by rewrite fold_left_app. Qed.

Lemma linkEntries_app a1 a2 sps :
  linkEntries (a1 ++ a2) sps = linkEntries a2 (linkEntries a1 sps).
Proof. unfold linkEntries. by rewrite fold_left_app. Qed.

Lemma tracksOfEntries_app a1 a2 :
  tracksOfEntries (a1 ++ a2) = tracksOfEntries a1 ++ tracksOfEntries a2.
Proof. unfold tracksOfEntries. by rewrite flat_map_app. Qed.

(** The walk over the schedule, from speakers [sps0] and tracks [ts0]. *)
Section Walk.
Variables (sps0 : list Speaker.t) (ts0 : list string).

#[local] Abbreviation walked := (walked sps0 ts0).

Lemma processSession_walk p s a σ :
  walked a σ ->
  exists s' σ', processSession p s σ = (s', σ', None) /\
                walked (a ++ [(p, s)]) σ' /\ s' = linkedSession sps0 s.
Proof.
  unfold walked. intros ->. rewrite processSession_run.
  eexists _, _. split; [reflexivity|]. split.
  - rewrite linkEntries_app, tracksOfEntries_app, collect_app. simpl.
    by rewrite app_nil_r.
  - unfold linkedSession. f_equal. apply resolve_key, linkEntries_key.
Qed.

Lemma processGroup_walk d g group a σ :
  walked a σ ->
  exists group' σ', processGroup d g group σ = (group', σ', None) /\
                    walked (a ++ entriesOfGroup d g group) σ' /\
                    group' = linkedGroup sps0 group.
Proof.
  intros Hw. unfold processGroup, forEach.
  destruct (forEachFrom_run (fun i s => processSession (d, g, i) s)
              (fun i s => [((d, g, i), s)]) walked
              (fun _ s s' => s' = linkedSession sps0 s)
              (Group.sessions group) 0 a σ) as (l' & σ' & Hrun & Hw' & Hlen & Hall).
  - intros k s b τ _ Hb. by apply processSession_walk.
  - exact Hw.
  - rewrite Hrun. exists (Group.set_sessions l' group), σ'.
    split; [done|]. split; [done|].
    unfold linkedGroup. f_equal. by apply pointwise_map.
Qed.

Lemma processDay_walk d day a σ :
  walked a σ ->
  exists day' σ', processDay d day σ = (day', σ', None) /\
                  walked (a ++ entriesOfDay d day) σ' /\
                  day' = linkedDay sps0 day.
Proof.
  intros Hw. unfold processDay, forEach.
  destruct (forEachFrom_run (processGroup d) (entriesOfGroup d) walked
              (fun _ g g' => g' = linkedGroup sps0 g)
              (Day.groups day) 0 a σ) as (l' & σ' & Hrun & Hw' & Hlen & Hall).
  - intros k g b τ _ Hb. by apply processGroup_walk.
  - exact Hw.
  - rewrite Hrun. exists (Day.set_groups l' day), σ'.
    split; [done|]. split; [done|].
    unfold linkedDay. f_equal. by apply pointwise_map.
Qed.

Lemma schedule_walk schedule :
  forEach processDay schedule (mkShared (Some sps0) ts0)
  = (List.map (linkedDay sps0) schedule,
     mkShared (Some (linkEntries (entries schedule) sps0))
              (collect ts0 (tracksOfEntries (entries schedule))),
     None).
Proof.
  unfold forEach.
  destruct (forEachFrom_run processDay entriesOfDay walked
              (fun _ d d' => d' = linkedDay sps0 d)
              schedule 0 [] (mkShared (Some sps0) ts0))
    as (l' & σ' & Hrun & Hw' & Hlen & Hall).
  - intros k day b τ _ Hb. by apply processDay_walk.
  - done.
  - rewrite Hrun. simpl in Hw'. unfold walked in Hw'. rewrite Hw'.
    f_equal. f_equal. by apply pointwise_map.
Qed.
End Walk.

(** Normalization in closed form. *)
Lemma processData_run (data : Document.t) schedule speakers :
  Document.schedule data = Some schedule ->
  Document.speakers data = Some speakers ->
  processData data
  = Ok (Document.mk (Some (List.map (linkedDay speakers) schedule))
                    (Some (linkEntries (entries schedule) speakers))
                    (Some (collect [] (tracksOfEntries (entries schedule))))
                    (Document.map data)).
Proof.
  intros Hsch Hsps. unfold processData. rewrite Hsch, Hsps.
  by rewrite schedule_walk.
Qed.

Lemma processData_no_schedule (data : Document.t) :
  Document.schedule data = None -> processData data = Throw TypeError.
Proof. intros H. unfold processData. by rewrite H. Qed.
End Linking.


(** ** The derived track list *)

Section ForEachFold.
Context {X St T B : Type}.
Variable body : nat -> X -> St -> X * St * option JsError.
Variables (proj : St -> T) (act : T -> list B -> T) (h : X -> list B).
Hypothesis act_nil : forall t, act t [] = t.
Hypothesis act_app : forall t l1 l2, act t (l1 ++ l2) = act (act t l1) l2.
Hypothesis body_act : forall j x τ x' τ',
  body j x τ = (x', τ', None) -> proj τ' = act (proj τ) (h x).

(** A component of the state that each call folds its element into. *)
Lemma forEachFrom_fold (l : list X) :
  forall i σ l' σ', forEachFrom body i l σ = (l', σ', None) ->
    proj σ' = act (proj σ) (flat_map h l).
Proof.
  induction l as [|x l IH]; intros i σ l' σ'; simpl.
  - intros [= _ <-]. by rewrite act_nil.
  - destruct (body i x σ) as [[x1 σ1] [e|]] eqn:Hb; [discriminate|].
    destruct (forEachFrom body (S i) l σ1) as [[l1 σ2] e] eqn:Hrun.
    intros [= _ <- ->]. rewrite act_app, <- (body_act _ _ _ _ _ Hb). eauto.
Qed.
End ForEachFold.

Section Tracks.

Lemma processSession_tracks p s σ s' σ' :
  processSession p s σ = (s', σ', None) ->
  sh_tracks σ' = collect (sh_tracks σ) (tracksOf s).
Proof.
  unfold processSession, tracksOf.
  destruct (match Session.speakerNames s with
            | Some names => forEach (linkSpeaker p) names ([], sh_speakers σ)
            | None => ([], ([], sh_speakers σ), None)
            end) as [[names' [acc sps]] [e|]]; [discriminate|].
  destruct (Session.tracks s) as [tracks|]; simpl.
  - unfold forEach. rewrite addTracks_run. by intros [= _ <-].
  - by intros [= _ <-].
Qed.

Lemma processGroup_tracks d g group σ group' σ' :
  processGroup d g group σ = (group', σ', None) ->
  sh_tracks σ' = collect (sh_tracks σ) (flat_map tracksOf (Group.sessions group)).
Proof.
  unfold processGroup, forEach.
  destruct (forEachFrom _ 0 (Group.sessions group) σ) as [[l' σ1] e] eqn:Hrun.
  intros [= _ <- ->].
  eapply (forEachFrom_fold _ sh_tracks collect tracksOf); [done | apply collect_app | | exact Hrun].
  intros j x τ x' τ'. apply processSession_tracks.
Qed.

Lemma processDay_tracks d day σ day' σ' :
  processDay d day σ = (day', σ', None) ->
  sh_tracks σ' = collect (sh_tracks σ)
    (flat_map (fun g => flat_map tracksOf (Group.sessions g)) (Day.groups day)).
Proof.
  unfold processDay, forEach.
  destruct (forEachFrom _ 0 (Day.groups day) σ) as [[l' σ1] e] eqn:Hrun.
  intros [= _ <- ->].
  eapply (forEachFrom_fold _ sh_tracks collect); [done | apply collect_app | | exact Hrun].
  intros j x τ x' τ'. apply processGroup_tracks.
Qed.

Lemma flat_map_fmap {A B C} (f : B -> list C) (g : A -> B) (l : list A) :
  flat_map f (List.map g l) = flat_map (fun x => f (g x)) l.
Proof. induction l as [|x l IH]; simpl; [done|]. by rewrite IH. Qed.

Lemma allTracks_json (schedule : list Json.Day) :
  flat_map (fun d => flat_map (fun g => flat_map tracksOf (Group.sessions g)) (Day.groups d))
           (List.map json_day schedule)
  = allTracks schedule.
Proof.
  unfold allTracks. rewrite flat_map_fmap. apply flat_map_ext. intros d.
  simpl. rewrite flat_map_fmap. apply flat_map_ext. intros g.
  simpl. by rewrite flat_map_fmap.
Qed.

(** The tracks collected by normalization. *)
Lemma processData_collects (raw : Json.Document) (d : Document.t) :
  processData (json raw) = Ok d ->
  exists schedule, Json.schedule raw = Some schedule /\
    Document.tracks d = Some (collect [] (allTracks schedule)).
Proof.
  unfold processData. simpl.
  destruct (Json.schedule raw) as [schedule|]; [|discriminate]. simpl.
  destruct (forEach processDay _ _) as [[sch' σ'] [e|]] eqn:Hrun; [discriminate|].
  intros [= <-]. exists schedule. split; [done|]. simpl. f_equal.
  rewrite <- allTracks_json.
  apply (forEachFrom_fold processDay sh_tracks collect _ ltac:(done) collect_app
           processDay_tracks _ _ _ _ _ Hrun).
Qed.

Lemma arrayIndexOf_absent_b acc t : (Str.arrayIndexOf acc t <? 0)%Z = absent acc t.
Proof.
  unfold absent. apply eq_true_iff_eq.
  rewrite arrayIndexOf_negative, negb_true_iff, <- not_true_iff_false, existsb_elem_of.
  split.
  - intros Hn (x & Hx & Heq). apply String.eqb_eq in Heq. by subst.
  - intros Hn Hin. apply Hn. exists t. by rewrite String.eqb_refl.
Qed.

Lemma filter_filter_and {A} (p q : A -> bool) (l : list A) :
  List.filter p (List.filter q l) = List.filter (fun x => q x && p x) l.
Proof.
  induction l as [|x l IH]; simpl; [done|].
  destruct (q x); simpl; [destruct (p x)|]; by rewrite IH.
Qed.

Lemma collect_firstSeen (l : list string) :
  forall acc, collect acc l = acc ++ List.filter (absent acc) (firstSeen l).
Proof.
  induction l as [|x l IH]; intros acc.
  - simpl. by rewrite app_nil_r.
  - unfold collect. cbn [fold_left firstSeen List.filter].
    fold (collect (if (Str.arrayIndexOf acc x <? 0)%Z then acc ++ [x] else acc) l).
    rewrite arrayIndexOf_absent_b, filter_filter_and.
    destruct (absent acc x) eqn:Hx.
    + rewrite IH, <- app_assoc. simpl. do 2 f_equal.
      apply List.filter_ext. intros t. unfold absent.
      rewrite existsb_app. simpl. rewrite orb_false_r, negb_orb. apply andb_comm.
    + rewrite IH. f_equal. apply List.filter_ext. intros t.
      destruct (String.eqb_spec t x) as [->|Hne]; simpl; [by rewrite Hx | done].
Qed.

Lemma collect_nil_firstSeen (l : list string) : collect [] l = firstSeen l.
Proof.
  rewrite collect_firstSeen. simpl.
  induction (firstSeen l) as [|x l' IH]; simpl; [done|]. by rewrite IH.
Qed.

Lemma elem_of_firstSeen (l : list string) (t : string) : t ∈ firstSeen l <-> t ∈ l.
Proof.
  induction l as [|x l IH]; simpl; [done|].
  rewrite !elem_of_cons, list_elem_of_In, filter_In, <- list_elem_of_In, IH.
  destruct (String.eqb_spec t x) as [->|Hne]; simpl; [tauto|].
  split; [tauto|]. intros [?|?]; [done|]. tauto.
Qed.

Lemma NoDup_firstSeen (l : list string) : NoDup (firstSeen l).
Proof.
  induction l as [|x l IH]; simpl; [apply NoDup_nil_2|].
  apply NoDup_cons_2.
  - rewrite list_elem_of_In, filter_In. intros [_ H]. by rewrite String.eqb_refl in H.
  - by apply NoDup_ListNoDup, List.NoDup_filter, NoDup_ListNoDup.
Qed.

(** The tracks seen before the first occurrence of [t] come first. *)
Lemma firstSeen_app (l1 l2 : list string) :
  firstSeen (l1 ++ l2) = firstSeen l1 ++ List.filter (absent (firstSeen l1)) (firstSeen l2).
Proof.
  rewrite <- !collect_nil_firstSeen, collect_app, collect_firstSeen.
  by rewrite !collect_nil_firstSeen.
Qed.
End Tracks.


(** C7: after normalization [data.tracks] holds every track name of the
    sessions once, in the order in which the names are first seen in the
    document. *)
Theorem processData_tracks (raw : Json.Document) (d : Document.t) :
  processData (json raw) = Ok d ->
  exists schedule tracks,
    Json.schedule raw = Some schedule /\
    Document.tracks d = Some tracks /\
    NoDup tracks /\
    (forall t, t ∈ tracks <-> t ∈ allTracks schedule) /\
    tracks = firstSeen (allTracks schedule) /\
    (forall l1 t l2, allTracks schedule = l1 ++ t :: l2 -> t ∉ l1 ->
       exists rest, tracks = firstSeen l1 ++ t :: rest).
Proof.
  intros H. destruct (processData_collects raw d H) as (schedule & Hsch & Ht).
  rewrite collect_nil_firstSeen in Ht.
  exists schedule, (firstSeen (allTracks schedule)).
  split; [done|]. split; [done|]. split; [apply NoDup_firstSeen|].
  split; [intros t; apply elem_of_firstSeen|]. split; [done|].
  intros l1 t l2 -> Hn. rewrite firstSeen_app. simpl.
  assert (Ha : absent (firstSeen l1) t = true).
  { unfold absent. rewrite negb_true_iff, <- not_true_iff_false, existsb_elem_of.
    intros (x & Hx & Heq). apply String.eqb_eq in Heq. subst x.
    apply Hn. by apply elem_of_firstSeen. }
  rewrite Ha. eauto.
Qed.

Lemma processData_tracks_witness :
  exists d, processData (json Example.conference) = Ok d /\
    Document.tracks d = Some ["design"; "dev"] /\
    exists schedule tracks,
      Json.schedule Example.conference = Some schedule /\
      Document.tracks d = Some tracks /\
      NoDup tracks /\
      (forall t, t ∈ tracks <-> t ∈ allTracks schedule) /\
      tracks = firstSeen (allTracks schedule) /\
      (forall l1 t l2, allTracks schedule = l1 ++ t :: l2 -> t ∉ l1 ->
         exists rest, tracks = firstSeen l1 ++ t :: rest).
Proof.
  eexists. split; [vm_compute; reflexivity|]. split; [reflexivity|].
  apply (processData_tracks Example.conference). vm_compute. reflexivity.
Defined.

(** ** The shape of the normalized document *)

Section Shape.

Lemma processSession_json p s σ : Session.json (processSession p s σ).1.1 = Session.json s.
Proof.
  unfold processSession.
  destruct (match Session.speakerNames s with
            | Some names => forEach (linkSpeaker p) names ([], sh_speakers σ)
            | None => ([], ([], sh_speakers σ), None)
            end) as [[names' [acc sps]] [e|]]; [done|].
  by destruct (match Session.tracks s with
               | Some tracks => forEach addTrack tracks (sh_tracks σ)
               | None => ([], sh_tracks σ, None)
               end) as [[? ?] ?].
Qed.

Lemma processGroup_json d g group σ :
  group_to_json (processGroup d g group σ).1.1 = group_to_json group.
Proof.
  unfold processGroup, forEach.
  pose proof (forEachFrom_frame (fun i s => processSession (d, g, i) s) Session.json
                (Group.sessions group) (fun j x τ => processSession_json _ x τ) 0 σ) as H.
  destruct (forEachFrom _ 0 (Group.sessions group) σ) as [[l' σ'] e].
  simpl in *. unfold group_to_json. simpl. by rewrite H.
Qed.

Lemma processDay_json d day σ : day_to_json (processDay d day σ).1.1 = day_to_json day.
Proof.
  unfold processDay, forEach.
  pose proof (forEachFrom_frame (processGroup d) group_to_json
                (Day.groups day) (processGroup_json d) 0 σ) as H.
  destruct (forEachFrom _ 0 (Day.groups day) σ) as [[l' σ'] e].
  simpl in *. unfold day_to_json. simpl. by rewrite H.
Qed.

Lemma day_to_json_day (d : Json.Day) : day_to_json (json_day d) = d.
Proof.
  destruct d as [date groups]. unfold day_to_json, json_day. simpl. f_equal.
  rewrite List.map_map. rewrite <- (List.map_id groups) at 2.
  apply List.map_ext. intros [time sessions]. unfold group_to_json, json_group. simpl.
  f_equal. rewrite List.map_map. apply List.map_id.
Qed.

(** Normalization keeps the JSON content of the schedule and the map. *)
Lemma processData_shape (raw : Json.Document) (d : Document.t) :
  processData (json raw) = Ok d ->
  exists schedule schedule',
    Json.schedule raw = Some schedule /\
    Document.schedule d = Some schedule' /\
    List.map day_to_json schedule' = schedule /\
    Document.map d = Json.map raw.
Proof.
  unfold processData. simpl.
  destruct (Json.schedule raw) as [schedule|]; [|discriminate]. simpl.
  pose proof (forEachFrom_frame processDay day_to_json (List.map json_day schedule)
                processDay_json 0 (mkShared (json_speakers <$> Json.speakers raw) [])) as H.
  unfold forEach.
  destruct (forEachFrom processDay 0 _ _) as [[sch' σ'] [e|]]; [discriminate|].
  intros [= <-]. exists schedule, sch'. simpl in *.
  split; [done|]. split; [done|]. split; [|done].
  rewrite H, List.map_map. rewrite <- (List.map_id schedule) at 2.
  apply List.map_ext, day_to_json_day.
Qed.

(** A document with a schedule and speakers is normalized without
    error, whatever its sessions lack. *)
Lemma processData_total (raw : Json.Document) :
  is_Some (Json.schedule raw) -> is_Some (Json.speakers raw) ->
  exists d, processData (json raw) = Ok d.
Proof.
  intros [sch Hsch] [sps Hsps].
  eexists. apply processData_run with (schedule := List.map json_day sch)
                                       (speakers := json_speakers sps); simpl.
  - by rewrite Hsch.
  - by rewrite Hsps.
Qed.
End Shape.


(** ** The links between sessions and speakers *)

Section Links.

Lemma NoDup_fmap_elem {A B} (f : A -> B) (l : list A) (x y : A) :
  NoDup (List.map f l) -> x ∈ l -> y ∈ l -> f x = f y -> x = y.
Proof.
  intros Hnd Hx Hy Hf.
  apply list_elem_of_lookup in Hx as [i Hi]. apply list_elem_of_lookup in Hy as [j Hj].
  assert (i = j).
  { eapply (NoDup_lookup (f <$> l) i j (f x)); [exact Hnd| |].
    - by rewrite list_lookup_fmap, Hi.
    - by rewrite list_lookup_fmap, Hj, Hf. }
  congruence.
Qed.

Lemma name_key (s s' : Speaker.t) : key s = key s' -> Speaker.name s = Speaker.name s'.
Proof. unfold key, Speaker.name. congruence. Qed.

Lemma key_pushIfNamed p n s : key (pushIfNamed p n s) = key s.
Proof. unfold pushIfNamed. by destruct (decide _). Qed.

Lemma names_of_keys (sps sps' : list Speaker.t) :
  List.map key sps = List.map key sps' ->
  List.map Speaker.name sps = List.map Speaker.name sps'.
Proof.
  intros H. apply (f_equal (List.map (fun k => Json.p_name k.2))) in H.
  by rewrite !List.map_map in H.
Qed.

Lemma link1_map p sps n :
  NoDup (List.map Speaker.name sps) ->
  link1 p sps n = List.map (pushIfNamed p n) sps.
Proof.
  intros Hnd. unfold link1, speakerNamed.
  destruct (list_find _ sps) as [[k s]|] eqn:Hf.
  - apply list_find_Some in Hf as (Hk & Hn & _).
    apply list_eq. intros j. change (List.map (pushIfNamed p n) sps) with (pushIfNamed p n <$> sps).
    rewrite list_lookup_fmap. destruct (decide (k = j)) as [<-|Hne].
    + rewrite list_lookup_insert_eq by (by eapply lookup_lt_Some).
      rewrite Hk. simpl. unfold pushIfNamed. by rewrite decide_True.
    + rewrite list_lookup_insert_ne by done.
      destruct (sps !! j) as [s'|] eqn:Hj; [|done]. simpl. f_equal.
      unfold pushIfNamed. rewrite decide_False; [done|].
      intros Hn'. apply Hne.
      eapply (NoDup_lookup (Speaker.name <$> sps) k j n); [exact Hnd| |].
      * by rewrite list_lookup_fmap, Hk, <- Hn.
      * by rewrite list_lookup_fmap, Hj, <- Hn'.
  - apply list_find_None in Hf. induction sps as [|s sps IH]; [done|].
    apply Forall_cons in Hf as [Hs Hf]. simpl.
    unfold pushIfNamed at 1. rewrite decide_False by done. f_equal.
    apply IH; [|done]. by apply NoDup_cons in Hnd as [_ ?].
Qed.

Lemma linkAll_map p names sps :
  NoDup (List.map Speaker.name sps) ->
  linkAll p names sps
  = List.map (fun s => fold_left (fun s n => pushIfNamed p n s) names s) sps.
Proof.
  unfold linkAll. revert sps.
  induction names as [|n names IH]; intros sps Hnd; simpl.
  - by rewrite List.map_id.
  - rewrite link1_map by done. rewrite IH.
    + by rewrite List.map_map.
    + rewrite List.map_map.
      erewrite List.map_ext; [exact Hnd|].
      intros s. apply name_key, key_pushIfNamed.
Qed.

Lemma key_fold_push p names s :
  key (fold_left (fun s n => pushIfNamed p n s) names s) = key s.
Proof.
  revert s. induction names as [|n names IH]; intros s; simpl; [done|].
  by rewrite IH, key_pushIfNamed.
Qed.

Lemma key_linkedSpeaker a s : key (linkedSpeaker a s) = key s.
Proof.
  unfold linkedSpeaker. revert s. induction a as [|e a IH]; intros s; simpl; [done|].
  by rewrite IH, key_fold_push.
Qed.

Lemma linkEntries_map a sps :
  NoDup (List.map Speaker.name sps) ->
  linkEntries a sps = List.map (linkedSpeaker a) sps.
Proof.
  unfold linkEntries, linkedSpeaker. revert sps.
  induction a as [|e a IH]; intros sps Hnd; simpl.
  - by rewrite List.map_id.
  - rewrite linkAll_map by done. rewrite IH.
    + by rewrite List.map_map.
    + rewrite List.map_map.
      erewrite List.map_ext; [exact Hnd|].
      intros s. apply name_key, key_fold_push.
Qed.

Lemma linksOf_pushIfNamed p n s :
  linksOf (pushIfNamed p n s)
  = linksOf s ++ (if decide (Speaker.name s = n) then [p] else []).
Proof.
  unfold pushIfNamed. destruct (decide _); [done|]. by rewrite app_nil_r.
Qed.

Lemma linksOf_fold_push p names s :
  linksOf (fold_left (fun s n => pushIfNamed p n s) names s)
  = linksOf s ++ flat_map (fun n => if decide (Speaker.name s = n) then [p] else []) names.
Proof.
  revert s. induction names as [|n names IH]; intros s; simpl.
  - by rewrite app_nil_r.
  - rewrite IH, linksOf_pushIfNamed, <- app_assoc.
    by rewrite (name_key _ _ (key_pushIfNamed p n s)).
Qed.

Lemma linksOf_linkedSpeaker a s :
  linksOf (linkedSpeaker a s)
  = linksOf s ++
    flat_map (fun e => flat_map (fun n => if decide (Speaker.name s = n) then [e.1] else [])
                                (namesOf e.2)) a.
Proof.
  unfold linkedSpeaker. revert s. induction a as [|e a IH]; intros s; simpl.
  - by rewrite app_nil_r.
  - rewrite IH, linksOf_fold_push, <- app_assoc.
    by rewrite (name_key _ _ (key_fold_push e.1 (namesOf e.2) s)).
Qed.

Lemma elem_of_links a s p :
  p ∈ linksOf (linkedSpeaker a s) <->
  p ∈ linksOf s \/ exists e, e ∈ a /\ e.1 = p /\ Speaker.name s ∈ namesOf e.2.
Proof.
  rewrite linksOf_linkedSpeaker, elem_of_app.
  apply or_iff_compat_l. rewrite list_elem_of_In, in_flat_map. split.
  - intros (e & He & Hp). apply in_flat_map in Hp as (n & Hn & Hp).
    destruct (decide (Speaker.name s = n)) as [<-|]; [|by destruct Hp].
    destruct Hp as [<-|[]]. exists e. by rewrite !list_elem_of_In.
  - intros (e & He & <- & Hn). exists e. split; [by apply list_elem_of_In|].
    apply in_flat_map. exists (Speaker.name s). split; [by apply list_elem_of_In|].
    rewrite decide_True by done. by left.
Qed.

(** The entries are the sessions with their paths. *)
Lemma elem_of_entries (schedule : list Day.t) (e : SessionRef * Session.t) :
  e ∈ entries schedule <-> sessionAt schedule e.1 = Some e.2.
Proof.
  destruct e as [[[d g] i] s]. unfold entries, sessionAt. simpl.
  rewrite elem_of_flatFrom. split.
  - intros (d' & day & Hd & He). unfold entriesOfDay in He.
    apply elem_of_flatFrom in He as (g' & group & Hg & He). unfold entriesOfGroup in He.
    apply elem_of_flatFrom in He as (i' & s' & Hi & He).
    apply list_elem_of_singleton in He. injection He as -> -> -> ->. simpl in *.
    by rewrite Hd; simpl; rewrite Hg; simpl.
  - intros H. destruct (schedule !! d) as [day|] eqn:Hd; [|discriminate]. simpl in H.
    destruct (Day.groups day !! g) as [group|] eqn:Hg; [|discriminate]. simpl in H.
    exists d, day. split; [done|]. apply elem_of_flatFrom.
    exists g, group. split; [done|]. apply elem_of_flatFrom.
    exists i, s. split; [done|]. by apply list_elem_of_singleton.
Qed.

Lemma sessionAt_linked sps (schedule : list Day.t) (p : SessionRef) :
  sessionAt (List.map (linkedDay sps) schedule) p
  = linkedSession sps <$> sessionAt schedule p.
Proof.
  unfold sessionAt. change (List.map (linkedDay sps) schedule) with (linkedDay sps <$> schedule).
  rewrite list_lookup_fmap. destruct (schedule !! p.1.1) as [day|]; [|done]. simpl.
  change (List.map (linkedGroup sps) (Day.groups day)) with (linkedGroup sps <$> Day.groups day).
  rewrite list_lookup_fmap. destruct (Day.groups day !! p.1.2) as [group|]; [|done]. simpl.
  change (List.map (linkedSession sps) (Group.sessions group))
    with (linkedSession sps <$> Group.sessions group).
  by rewrite list_lookup_fmap.
Qed.

(** With unique names and identities, [resolve] lists a speaker exactly
    when its name is listed. *)
Lemma elem_of_resolve (sps : list Speaker.t) (names : list string) (s : Speaker.t) :
  NoDup (List.map Speaker.name sps) -> NoDup (List.map Speaker.oid sps) -> s ∈ sps ->
  Speaker.oid s ∈ resolve sps names <-> Speaker.name s ∈ names.
Proof.
  intros Hn Ho Hs. unfold resolve. rewrite list_elem_of_omap. split.
  - intros (n & Hin & Hf). destruct (speakerNamed sps n) as [[k s']|] eqn:Hk; [|discriminate].
    simpl in Hf. injection Hf as Hf. apply speakerNamed_Some in Hk as [Hk <-].
    apply list_elem_of_lookup_2 in Hk.
    by rewrite (NoDup_fmap_elem Speaker.oid sps s s' Ho Hs Hk (eq_sym Hf)).
  - intros Hin. exists (Speaker.name s). split; [done|].
    unfold speakerNamed.
    destruct (list_find (fun x => Speaker.name x = Speaker.name s) sps) as [[k s']|] eqn:Hk.
    + apply list_find_Some in Hk as (Hk & Hname & _). apply list_elem_of_lookup_2 in Hk.
      simpl. by rewrite (NoDup_fmap_elem Speaker.name sps s' s Hn Hk Hs Hname).
    + apply list_find_None in Hk. rewrite Forall_forall in Hk.
      by destruct (Hk s Hs).
Qed.

Lemma json_speakers_oid_from (l : list Json.Speaker) (k : nat) :
  List.map Speaker.oid (imap (fun i p => Speaker.mk (k + i) p None) l) = seq k (length l).
Proof.
  revert k. induction l as [|p l IH]; intros k; simpl; [done|].
  rewrite Nat.add_0_r. f_equal. rewrite <- (IH (S k)). f_equal.
  apply imap_ext. intros i x _. simpl. f_equal. lia.
Qed.

Lemma json_speakers_oid (l : list Json.Speaker) :
  List.map Speaker.oid (json_speakers l) = seq 0 (length l).
Proof. apply (json_speakers_oid_from l 0). Qed.

Lemma json_speakers_json (l : list Json.Speaker) :
  List.map Speaker.json (json_speakers l) = l.
Proof.
  unfold json_speakers.
  assert (H : forall f : nat -> nat,
            List.map Speaker.json (imap (fun i p => Speaker.mk (f i) p None) l) = l).
  { induction l as [|p l IH]; intros f; simpl; [done|]. f_equal. apply (IH (fun i => f (S i))). }
  apply (H (fun i => i)).
Qed.

Lemma json_speakers_links (l : list Json.Speaker) (s : Speaker.t) :
  s ∈ json_speakers l -> linksOf s = [].
Proof.
  unfold json_speakers. intros H. apply list_elem_of_lookup in H as [i Hi].
  rewrite list_lookup_imap in Hi. destruct (l !! i); [|discriminate].
  simpl in Hi. by injection Hi as <-.
Qed.
End Links.


(** C3: a document with a schedule and speakers of unique names is
    normalized so that every session's [speakers] are the speakers named
    by its [speakerNames], in that order and without the names nobody
    bears, and a speaker's [sessions] are the sessions that list its
    name; the two directions agree. *)
Theorem processData_links (raw : Json.Document) schedule speakers :
  Json.schedule raw = Some schedule ->
  Json.speakers raw = Some speakers ->
  NoDup (List.map Json.p_name speakers) ->
  exists d schedule' speakers',
    processData (json raw) = Ok d /\
    Document.schedule d = Some schedule' /\
    Document.speakers d = Some speakers' /\
    List.map day_to_json schedule' = schedule /\
    List.map Speaker.json speakers' = speakers /\
    NoDup (List.map Speaker.oid speakers') /\
    (forall p s, sessionAt schedule' p = Some s ->
       Session.speakers s = Some (resolve speakers' (namesOf s)) /\
       forall sp, sp ∈ speakers' ->
         (Speaker.oid sp ∈ resolve speakers' (namesOf s) <-> Speaker.name sp ∈ namesOf s) /\
         (p ∈ linksOf sp <-> Speaker.name sp ∈ namesOf s) /\
         (Speaker.oid sp ∈ resolve speakers' (namesOf s) <-> p ∈ linksOf sp)) /\
    (forall sp p, sp ∈ speakers' -> p ∈ linksOf sp -> is_Some (sessionAt schedule' p)).
Proof.
  intros Hsch Hsps Hnd.
  set (sch0 := List.map json_day schedule).
  set (sps0 := json_speakers speakers).
  assert (Hrun := processData_run (json raw) sch0 sps0).
  simpl in Hrun. rewrite Hsch, Hsps in Hrun. specialize (Hrun eq_refl eq_refl).
  destruct (processData_shape raw _ Hrun) as (sch & sch' & Hsch1 & Hsch' & Hjson & _).
  simpl in Hsch'. injection Hsch' as <-. rewrite Hsch in Hsch1. injection Hsch1 as <-.
  assert (Hnames0 : List.map Speaker.name sps0 = List.map Json.p_name speakers).
  { unfold Speaker.name. rewrite <- (List.map_map Speaker.json Json.p_name).
    unfold sps0. by rewrite json_speakers_json. }
  assert (Hnd0 : NoDup (List.map Speaker.name sps0)) by (by rewrite Hnames0).
  set (a := entries sch0) in *.
  assert (Hkey : List.map key (linkEntries a sps0) = List.map key sps0)
    by apply linkEntries_key.
  assert (Hoids : List.map Speaker.oid (linkEntries a sps0) = seq 0 (length speakers)).
  { rewrite <- json_speakers_oid. fold sps0.
    apply (f_equal (List.map fst)) in Hkey. by rewrite !List.map_map in Hkey. }
  assert (Hnd' : NoDup (List.map Speaker.name (linkEntries a sps0)))
    by (by rewrite (names_of_keys _ _ Hkey)).
  assert (Hod' : NoDup (List.map Speaker.oid (linkEntries a sps0)))
    by (rewrite Hoids; apply NoDup_ListNoDup, List.seq_NoDup).
  eexists _, _, _. split; [exact Hrun|]. simpl.
  split; [done|]. split; [done|]. split; [exact Hjson|]. split.
  { apply (f_equal (List.map snd)) in Hkey. rewrite !List.map_map in Hkey. simpl in Hkey.
    etrans; [exact Hkey|]. apply json_speakers_json. }
  split; [exact Hod'|].
  assert (Hlinks : forall sp p, sp ∈ linkEntries a sps0 ->
            (p ∈ linksOf sp <->
             exists s0, sessionAt sch0 p = Some s0 /\ Speaker.name sp ∈ namesOf s0)).
  { intros sp p Hsp. rewrite linkEntries_map in Hsp by done.
    apply list_elem_of_In, in_map_iff in Hsp as (sp0 & <- & Hsp0).
    apply list_elem_of_In in Hsp0.
    rewrite elem_of_links, (json_speakers_links _ _ Hsp0).
    rewrite (name_key _ _ (key_linkedSpeaker a sp0)). split.
    - intros [Hnil|(e & He & <- & Hn)]; [by apply elem_of_nil in Hnil|].
      apply elem_of_entries in He. eauto.
    - intros (s0 & Hat & Hn). right. exists (p, s0). split; [|done].
      by apply elem_of_entries. }
  split.
  - intros p s Hat. rewrite sessionAt_linked in Hat.
    destruct (sessionAt sch0 p) as [s0|] eqn:Hat0; [|discriminate].
    simpl in Hat. injection Hat as <-.
    change (namesOf (linkedSession sps0 s0)) with (namesOf s0).
    rewrite (resolve_key _ _ (namesOf s0) Hkey). split; [done|].
    intros sp Hsp.
    assert (H1 := elem_of_resolve _ (namesOf s0) sp Hnd' Hod' Hsp).
    rewrite (resolve_key _ _ (namesOf s0) Hkey) in H1.
    assert (H2 : p ∈ linksOf sp <-> Speaker.name sp ∈ namesOf s0).
    { rewrite (Hlinks sp p Hsp). split; [|by eauto].
      intros (s1 & Hs1 & Hn). congruence. }
    split; [exact H1|]. split; [exact H2|]. by rewrite H1, H2.
  - intros sp p Hsp Hp. apply (Hlinks sp p Hsp) in Hp as (s0 & Hat & _).
    rewrite sessionAt_linked, Hat. by eexists.
Qed.

Lemma processData_links_witness :
  exists d schedule' speakers',
    processData (json Example.conference) = Ok d /\
    Document.schedule d = Some schedule' /\
    Document.speakers d = Some speakers' /\
    List.map (fun s => (Speaker.name s, Speaker.sessions s)) speakers'
      = [("Alice", Some [(0, 0, 0)])] /\
    List.map (fun e => (Session.name e.2, Session.speakers e.2)) (entries schedule')
      = [("Intro to X", Some [0]); ("Deep Dive Y", Some [])] /\
    (forall p s, sessionAt schedule' p = Some s ->
       Session.speakers s = Some (resolve speakers' (namesOf s)) /\
       forall sp, sp ∈ speakers' ->
         (Speaker.oid sp ∈ resolve speakers' (namesOf s) <-> Speaker.name sp ∈ namesOf s) /\
         (p ∈ linksOf sp <-> Speaker.name sp ∈ namesOf s) /\
         (Speaker.oid sp ∈ resolve speakers' (namesOf s) <-> p ∈ linksOf sp)).
Proof.
  destruct (processData_links Example.conference _ _ eq_refl eq_refl)
    as (d & sch' & sps' & Hrun & Hsch & Hsps & _ & _ & _ & Hall & _).
  { simpl. apply NoDup_singleton. }
  exists d, sch', sps'.
  assert (Hd : processData (json Example.conference) = Ok d) by exact Hrun.
  vm_compute in Hrun. injection Hrun as <-.
  simpl in Hsch, Hsps. injection Hsch as <-. injection Hsps as <-.
  split; [exact Hd|]. split; [reflexivity|]. split; [reflexivity|].
  split; [reflexivity|]. split; [reflexivity|]. exact Hall.
Defined.


(** ** When normalization throws *)

Section ForEachInv.
Context {X St : Type}.
Variable body : nat -> X -> St -> X * St * option JsError.
Variable I : St -> Prop.
Hypothesis body_inv : forall j x τ, I τ -> I (body j x τ).1.2.

(** A traversal that meets an element on which the callback throws in
    every state of the invariant. *)
Lemma forEachFrom_throws_inv (err : JsError) (x0 : X) (l : list X) :
  (forall j x τ e, I τ -> (body j x τ).2 = Some e -> e = err) ->
  (forall j τ, I τ -> (body j x0 τ).2 = Some err) ->
  x0 ∈ l ->
  forall i σ, I σ -> (forEachFrom body i l σ).2 = Some err.
Proof.
  intros Honly Hx0. induction l as [|x l IH]; intros Hin i σ Hσ.
  - by apply elem_of_nil in Hin.
  - simpl. pose proof (Honly i x σ) as Ho. pose proof (Hx0 i σ Hσ) as Hx.
    pose proof (body_inv i x σ Hσ) as Hi.
    apply elem_of_cons in Hin.
    destruct (body i x σ) as [[x' σ'] e] eqn:Hb. simpl in Ho, Hi.
    destruct e as [e|].
    + simpl. f_equal. by apply Ho.
    + destruct Hin as [->|Hin].
      * rewrite Hb in Hx. discriminate.
      * specialize (IH Hin (S i) σ' Hi).
        destruct (forEachFrom body (S i) l σ') as [[l' σ''] e']. exact IH.
Qed.

Lemma forEachFrom_inv (l : list X) :
  forall i σ, I σ -> I (forEachFrom body i l σ).1.2.
Proof.
  induction l as [|x l IH]; intros i σ Hσ; simpl; [done|].
  pose proof (body_inv i x σ Hσ) as Hi.
  destruct (body i x σ) as [[x' σ'] [e|]]; simpl in *; [done|].
  specialize (IH (S i) σ' Hi).
  by destruct (forEachFrom body (S i) l σ') as [[l' σ''] e'].
Qed.

Lemma forEachFrom_quiet_inv (l : list X) :
  (forall j x τ, x ∈ l -> I τ -> (body j x τ).2 = None) ->
  forall i σ, I σ -> (forEachFrom body i l σ).2 = None.
Proof.
  induction l as [|x l IH]; intros Hq i σ Hσ; simpl; [done|].
  pose proof (Hq i x σ (list_elem_of_here _ _) Hσ) as Hx.
  pose proof (body_inv i x σ Hσ) as Hi.
  destruct (body i x σ) as [[x' σ'] e]. simpl in *. subst e.
  specialize (IH (fun j y τ Hy => Hq j y τ (list_elem_of_further _ _ _ Hy)) (S i) σ' Hi).
  by destruct (forEachFrom body (S i) l σ') as [[l' σ''] e'].
Qed.

Lemma forEachFrom_error_inv (err : JsError) (l : list X) :
  (forall j x τ e, I τ -> (body j x τ).2 = Some e -> e = err) ->
  forall i σ e, I σ -> (forEachFrom body i l σ).2 = Some e -> e = err.
Proof.
  intros Honly. induction l as [|x l IH]; intros i σ e Hσ; simpl; [done|].
  pose proof (Honly i x σ) as Ho. pose proof (body_inv i x σ Hσ) as Hi.
  destruct (body i x σ) as [[x' σ'] [e1|]]; simpl in *.
  - intros [= <-]. by apply Ho.
  - specialize (IH (S i) σ' e Hi).
    by destruct (forEachFrom body (S i) l σ') as [[l' σ''] e'].
Qed.
End ForEachInv.

Section Speakerless.

Lemma linkSpeaker_speakerless p j n acc :
  linkSpeaker p j n (acc, None) = (n, (acc, None), Some TypeError).
Proof. done. Qed.

Lemma processSession_speakerless p s σ :
  speakerless σ ->
  speakerless (processSession p s σ).1.2 /\
  (namesOf s = [] -> (processSession p s σ).2 = None) /\
  (namesOf s <> [] -> (processSession p s σ).2 = Some TypeError).
Proof.
  unfold speakerless, processSession, namesOf, forEach. intros Hσ. rewrite Hσ.
  destruct (Session.speakerNames s) as [[|n names]|]; simpl.
  - destruct (Session.tracks s) as [ts|]; simpl; [rewrite addTracks_run|]; simpl; by repeat split.
  - by repeat split.
  - destruct (Session.tracks s) as [ts|]; simpl; [rewrite addTracks_run|]; simpl; by repeat split.
Qed.

Lemma processSession_error p s σ e :
  (processSession p s σ).2 = Some e -> e = TypeError.
Proof.
  unfold processSession, forEach.
  destruct (Session.speakerNames s) as [names|]; simpl.
  - pose proof (forEachFrom_error_from_body (linkSpeaker p) TypeError names) as H.
    specialize (H ltac:(intros j x [acc [sps|]] e'; unfold linkSpeaker;
                        [destruct (list_find _ sps) as [[? ?]|]; discriminate
                        |by intros [= <-]]) 0 ([], sh_speakers σ) e).
    destruct (forEachFrom (linkSpeaker p) 0 names ([], sh_speakers σ)) as [[? [? ?]] [e1|]];
      simpl in *.
    + intros [= <-]. by apply H.
    + destruct (Session.tracks s) as [ts|]; simpl; [rewrite addTracks_run|]; discriminate.
  - destruct (Session.tracks s) as [ts|]; simpl; [rewrite addTracks_run|]; discriminate.
Qed.

Lemma processGroup_speakerless_inv d g group σ :
  speakerless σ -> speakerless (processGroup d g group σ).1.2.
Proof.
  intros Hσ. unfold processGroup, forEach.
  pose proof (forEachFrom_inv (fun i s => processSession (d, g, i) s) speakerless
                (fun j x τ Hτ => proj1 (processSession_speakerless _ x τ Hτ))
                (Group.sessions group) 0 σ Hσ) as H.
  by destruct (forEachFrom _ 0 (Group.sessions group) σ) as [[l' σ'] e].
Qed.

Lemma processGroup_error d g group σ e :
  (processGroup d g group σ).2 = Some e -> e = TypeError.
Proof.
  unfold processGroup, forEach.
  pose proof (forEachFrom_error_from_body (fun i s => processSession (d, g, i) s) TypeError
                (Group.sessions group)
                (fun j x τ e' => processSession_error _ x τ e') 0 σ e) as H.
  by destruct (forEachFrom _ 0 (Group.sessions group) σ) as [[l' σ'] e'].
Qed.

Lemma processGroup_speakerless d g group σ :
  speakerless σ ->
  (Forall (fun s => namesOf s = []) (Group.sessions group) ->
   (processGroup d g group σ).2 = None) /\
  (forall s, s ∈ Group.sessions group -> namesOf s <> [] ->
   (processGroup d g group σ).2 = Some TypeError).
Proof.
  intros Hσ. unfold processGroup, forEach. split.
  - intros Hall. rewrite Forall_forall in Hall.
    pose proof (forEachFrom_quiet_inv (fun i s => processSession (d, g, i) s) speakerless
                  (fun j x τ Hτ => proj1 (processSession_speakerless _ x τ Hτ))
                  (Group.sessions group)
                  (fun j x τ Hx Hτ =>
                     proj1 (proj2 (processSession_speakerless _ x τ Hτ)) (Hall x Hx))
                  0 σ Hσ) as H.
    by destruct (forEachFrom _ 0 (Group.sessions group) σ) as [[l' σ'] e].
  - intros s Hs Hn.
    pose proof (forEachFrom_throws_inv (fun i s => processSession (d, g, i) s) speakerless
                  (fun j x τ Hτ => proj1 (processSession_speakerless _ x τ Hτ))
                  TypeError s (Group.sessions group)
                  (fun j x τ e _ => processSession_error _ x τ e)
                  (fun j τ Hτ => proj2 (proj2 (processSession_speakerless _ s τ Hτ)) Hn)
                  Hs 0 σ Hσ) as H.
    by destruct (forEachFrom _ 0 (Group.sessions group) σ) as [[l' σ'] e].
Qed.

Lemma processDay_speakerless_inv d day σ :
  speakerless σ -> speakerless (processDay d day σ).1.2.
Proof.
  intros Hσ. unfold processDay, forEach.
  pose proof (forEachFrom_inv (processGroup d) speakerless
                (fun j x τ Hτ => processGroup_speakerless_inv d j x τ Hτ)
                (Day.groups day) 0 σ Hσ) as H.
  by destruct (forEachFrom _ 0 (Day.groups day) σ) as [[l' σ'] e].
Qed.

Lemma processDay_error d day σ e :
  (processDay d day σ).2 = Some e -> e = TypeError.
Proof.
  unfold processDay, forEach.
  pose proof (forEachFrom_error_from_body (processGroup d) TypeError (Day.groups day)
                (fun j x τ e' => processGroup_error d j x τ e') 0 σ e) as H.
  by destruct (forEachFrom _ 0 (Day.groups day) σ) as [[l' σ'] e'].
Qed.

Lemma processDay_speakerless d day σ :
  speakerless σ ->
  (anonymous day -> (processDay d day σ).2 = None) /\
  (forall g s, g ∈ Day.groups day -> s ∈ Group.sessions g -> namesOf s <> [] ->
   (processDay d day σ).2 = Some TypeError).
Proof.
  intros Hσ. unfold processDay, forEach. split.
  - intros Hall. unfold anonymous in Hall. rewrite Forall_forall in Hall.
    pose proof (forEachFrom_quiet_inv (processGroup d) speakerless
                  (fun j x τ Hτ => processGroup_speakerless_inv d j x τ Hτ)
                  (Day.groups day)
                  (fun j x τ Hx Hτ =>
                     proj1 (processGroup_speakerless d j x τ Hτ) (Hall x Hx))
                  0 σ Hσ) as H.
    by destruct (forEachFrom _ 0 (Day.groups day) σ) as [[l' σ'] e].
  - intros g s Hg Hs Hn.
    pose proof (forEachFrom_throws_inv (processGroup d) speakerless
                  (fun j x τ Hτ => processGroup_speakerless_inv d j x τ Hτ)
                  TypeError g (Day.groups day)
                  (fun j x τ e _ => processGroup_error d j x τ e)
                  (fun j τ Hτ => proj2 (processGroup_speakerless d j g τ Hτ) s Hs Hn)
                  Hg 0 σ Hσ) as H.
    by destruct (forEachFrom _ 0 (Day.groups day) σ) as [[l' σ'] e].
Qed.

Lemma processData_error (data : Document.t) e : processData data = Throw e -> e = TypeError.
Proof.
  unfold processData. destruct (Document.schedule data) as [sch|]; [|by intros [= <-]].
  unfold forEach.
  pose proof (forEachFrom_error_from_body processDay TypeError sch
                (fun j x τ e' => processDay_error j x τ e') 0
                (mkShared (Document.speakers data) []) e) as H.
  destruct (forEachFrom processDay 0 sch _) as [[l' σ'] [e'|]]; [|discriminate].
  intros [= <-]. by apply H.
Qed.

Lemma processData_speakerless (data : Document.t) schedule :
  Document.schedule data = Some schedule ->
  Document.speakers data = None ->
  (Forall anonymous schedule -> exists d, processData data = Ok d) /\
  (forall day g s, day ∈ schedule -> g ∈ Day.groups day -> s ∈ Group.sessions g ->
     namesOf s <> [] -> processData data = Throw TypeError).
Proof.
  intros Hsch Hsps. unfold processData, forEach. rewrite Hsch, Hsps. split.
  - intros Hall. rewrite Forall_forall in Hall.
    pose proof (forEachFrom_quiet_inv processDay speakerless
                  (fun j x τ Hτ => processDay_speakerless_inv j x τ Hτ) schedule
                  (fun j x τ Hx Hτ => proj1 (processDay_speakerless j x τ Hτ) (Hall x Hx))
                  0 (mkShared None []) eq_refl) as H.
    destruct (forEachFrom processDay 0 schedule _) as [[l' σ'] e]. simpl in H. subst e.
    by eexists.
  - intros day g s Hd Hg Hs Hn.
    pose proof (forEachFrom_throws_inv processDay speakerless
                  (fun j x τ Hτ => processDay_speakerless_inv j x τ Hτ)
                  TypeError day schedule
                  (fun j x τ e _ => processDay_error j x τ e)
                  (fun j τ Hτ => proj2 (processDay_speakerless j day τ Hτ) g s Hg Hs Hn)
                  Hd 0 (mkShared None []) eq_refl) as H.
    destruct (forEachFrom processDay 0 schedule _) as [[l' σ'] e]. simpl in H. by subst e.
Qed.

Lemma named_json (schedule : list Json.Day) :
  ~ Forall anonymous (List.map json_day schedule) -> namesSomeone schedule.
Proof.
  intros Hnot.
  apply not_Forall_Exists in Hnot; [|unfold anonymous, namesOf; apply _].
  apply Exists_exists in Hnot as (day' & Hd & Hday).
  apply list_elem_of_In, in_map_iff in Hd as (day & <- & Hd). simpl in Hday.
  apply not_Forall_Exists in Hday; [|unfold namesOf; apply _].
  apply Exists_exists in Hday as (g' & Hg & Hgroup).
  apply list_elem_of_In, in_map_iff in Hg as (g & <- & Hg). simpl in Hgroup.
  apply not_Forall_Exists in Hgroup; [|unfold namesOf; apply _].
  apply Exists_exists in Hgroup as (s' & Hs & Hnames).
  apply list_elem_of_In, in_map_iff in Hs as (s & <- & Hs).
  exists day, g, s. by rewrite !list_elem_of_In.
Qed.

Lemma processData_cases (raw : Json.Document) :
  match processData (json raw) with
  | Ok _ =>
      exists schedule, Json.schedule raw = Some schedule /\
        (is_Some (Json.speakers raw) \/ ~ namesSomeone schedule)
  | Throw e =>
      e = TypeError /\
      (Json.schedule raw = None \/
       exists schedule, Json.schedule raw = Some schedule /\
         Json.speakers raw = None /\ namesSomeone schedule)
  end.
Proof.
  destruct (Json.schedule raw) as [schedule|] eqn:Hsch.
  2: { rewrite processData_no_schedule by (simpl; by rewrite Hsch). by split; [|left]. }
  destruct (Json.speakers raw) as [speakers|] eqn:Hsps.
  { destruct (processData_total raw) as [d ->]; [by rewrite Hsch | by rewrite Hsps |].
    exists schedule. split; [done|]. left. by eexists. }
  destruct (processData_speakerless (json raw) (List.map json_day schedule)) as [Hok Hthrow].
  { simpl. by rewrite Hsch. }
  { simpl. by rewrite Hsps. }
  destruct (processData (json raw)) as [d|e] eqn:Hrun.
  - exists schedule. split; [done|]. right.
    intros (day & g & s & Hd & Hg & Hs & Hn).
    assert (Ok d = Throw TypeError); [|discriminate].
    apply (Hthrow (json_day day) (json_group g) (json_session s)).
    + by apply list_elem_of_In, in_map, list_elem_of_In.
    + simpl. by apply list_elem_of_In, in_map, list_elem_of_In.
    + simpl. by apply list_elem_of_In, in_map, list_elem_of_In.
    + exact Hn.
  - split; [by eapply processData_error|]. right.
    exists schedule. split; [done|]. split; [done|].
    apply named_json. intros Hall. destruct (Hok Hall) as [d Hd]. discriminate.
Qed.

(** ** load *)

Section Load.
Variable httpGet : nat -> option Json.Document.

Lemma load_hit st d : data st = Some d -> load httpGet st = (Resolved d, st).
Proof. intros H. unfold load. by rewrite H. Qed.

Lemma load_miss st :
  data st = None ->
  load httpGet st
  = match httpGet (fetches st) with
    | None => (NotResolved None, mkService None (S (fetches st)))
    | Some res =>
        match processData (json res) with
        | Ok d => (Resolved d, mkService (Some d) (S (fetches st)))
        | Throw e => (NotResolved (Some e), mkService None (S (fetches st)))
        end
    end.
Proof.
  intros H. unfold load. rewrite H.
  destruct (httpGet (fetches st)) as [res|]; [|done].
  by destruct (processData (json res)).
Qed.

Lemma load_steps st :
  load httpGet st
  = match loadCall st with
    | (inl d, st1) => (Resolved d, st1)
    | (inr n, st1) => loadResponse httpGet n st1
    end.
Proof.
  unfold load, loadCall, loadResponse. destruct (data st) as [d|]; [done|].
  destruct (httpGet (fetches st)) as [res|]; [|done].
  by destruct (processData (json res)).
Qed.

(** C4 (as amended): with a cached document [load] resolves with it at
    once and leaves the service as it is, so neither fetches nor
    normalizes again; a second [load] after a first one that resolved
    yields the same document, with one fetch for the two calls.  A
    [load] is a call and, without a cache, the answer to its request;
    a second call made before that answer finds no cache and issues a
    request of its own: two fetches, each answer normalized for
    itself, the later one left in the cache. *)
Theorem load_idempotent (st : Service) :
  (forall d, data st = Some d -> load httpGet st = (Resolved d, st)) /\
  (forall d st1, load httpGet st = (Resolved d, st1) ->
     load httpGet st1 = (Resolved d, st1) /\
     (data st = None -> fetches st1 = S (fetches st))) /\
  load httpGet st
  = match loadCall st with
    | (inl d, st1) => (Resolved d, st1)
    | (inr n, st1) => loadResponse httpGet n st1
    end /\
  (data st = None ->
   forall r1 st1 r2 st2,
     loadCall st = (r1, st1) ->
     loadCall st1 = (r2, st2) ->
     r1 = inr (fetches st) /\ r2 = inr (S (fetches st)) /\
     st2 = mkService None (S (S (fetches st))) /\
     forall raw1 raw2 d1 d2,
       httpGet (fetches st) = Some raw1 ->
       httpGet (S (fetches st)) = Some raw2 ->
       processData (json raw1) = Ok d1 ->
       processData (json raw2) = Ok d2 ->
       exists st3,
         loadResponse httpGet (fetches st) st2 = (Resolved d1, st3) /\
         loadResponse httpGet (S (fetches st)) st3
         = (Resolved d2, mkService (Some d2) (S (S (fetches st))))).
Proof.
  split; [apply load_hit|]. split; [|split; [apply load_steps|]].
  - intros d st1 H. split.
    + apply load_hit. eapply load_cached, H.
    + intros Hnone. rewrite load_miss in H by done.
      destruct (httpGet (fetches st)) as [res|]; [|discriminate].
      destruct (processData (json res)); [|discriminate].
      by injection H as _ <-.
  - intros Hnone r1 st1 r2 st2. unfold loadCall at 1. rewrite Hnone.
    intros [= <- <-]. unfold loadCall. simpl. intros [= <- <-].
    split; [done|]. split; [done|]. split; [done|].
    intros raw1 raw2 d1 d2 H1 H2 Hd1 Hd2. unfold loadResponse.
    rewrite H1, Hd1. eexists. split; [reflexivity|]. by rewrite H2, Hd2.
Qed.

(** [processData] does not read the field [map]. *)
Lemma processData_map (raw : Json.Document) (m : option (list Json.MapPin)) :
  processData (json (Json.mkDocument (Json.schedule raw) (Json.speakers raw) m))
  = match processData (json raw) with
    | Ok d => Ok (Document.mk (Document.schedule d) (Document.speakers d)
                              (Document.tracks d) m)
    | Throw e => Throw e
    end.
Proof.
  unfold processData, json. simpl.
  destruct (Json.schedule raw) as [schedule|]; simpl; [|done].
  destruct (forEach processDay (List.map json_day schedule)
              (mkShared (json_speakers <$> Json.speakers raw) [])) as [[sch' σ] [e|]]; done.
Qed.

(** C6 (as amended): [load] has no failure path of its own.  Without a
    cache it issues one request and never a second one; its promise is
    never rejected; when the request fails, or when [processData]
    throws, which is always a [TypeError], the promise is not resolved
    and nothing is cached; [processData] throws on a document without
    [schedule], and on one without [speakers] in which a session names
    a speaker; [load] resolves exactly when the request is answered
    and [processData] returns, with the document that it returned,
    which is then the cache; and whether [processData] returns does
    not depend on [map]. *)
Theorem load_failure (st : Service) :
  data st = None ->
  (forall o st', load httpGet st = (o, st') ->
     fetches st' = S (fetches st) /\
     (forall e, o <> Rejected e) /\
     ((forall d, o <> Resolved d) -> data st' = None)) /\
  (httpGet (fetches st) = None ->
     load httpGet st = (NotResolved None, mkService None (S (fetches st)))) /\
  (forall raw e, httpGet (fetches st) = Some raw -> processData (json raw) = Throw e ->
     e = TypeError /\
     load httpGet st = (NotResolved (Some TypeError), mkService None (S (fetches st)))) /\
  (forall raw, httpGet (fetches st) = Some raw -> Json.schedule raw = None ->
     load httpGet st = (NotResolved (Some TypeError), mkService None (S (fetches st)))) /\
  (forall raw schedule, httpGet (fetches st) = Some raw ->
     Json.schedule raw = Some schedule -> Json.speakers raw = None ->
     namesSomeone schedule ->
     load httpGet st = (NotResolved (Some TypeError), mkService None (S (fetches st)))) /\
  (forall raw d, httpGet (fetches st) = Some raw -> processData (json raw) = Ok d ->
     load httpGet st = (Resolved d, mkService (Some d) (S (fetches st))) /\
     Document.map d = Json.map raw) /\
  (forall d st', load httpGet st = (Resolved d, st') ->
     exists raw, httpGet (fetches st) = Some raw /\
                 processData (json raw) = Ok d /\
                 st' = mkService (Some d) (S (fetches st))) /\
  (forall raw m,
     (exists d, processData (json raw) = Ok d) <->
     (exists d, processData
                  (json (Json.mkDocument (Json.schedule raw) (Json.speakers raw) m))
                = Ok d)).
Proof.
  intros Hnone.
  assert (Hthrow : forall raw e, httpGet (fetches st) = Some raw ->
            processData (json raw) = Throw e ->
            e = TypeError /\
            load httpGet st
            = (NotResolved (Some TypeError), mkService None (S (fetches st)))).
  { intros raw e Hget Hrun. pose proof (processData_error _ _ Hrun) as ->.
    split; [done|]. rewrite (load_miss st Hnone). by rewrite Hget, Hrun. }
  split; [|split; [|split; [exact Hthrow|split; [|split; [|split; [|split]]]]]].
  - rewrite (load_miss st Hnone). intros o st'.
    destruct (httpGet (fetches st)) as [res|].
    + destruct (processData (json res)) as [d|e]; intros [= <- <-]; simpl.
      * split; [done|]. split; [done|]. intros Hres. by destruct (Hres d).
      * done.
    + by intros [= <- <-].
  - rewrite (load_miss st Hnone). by intros ->.
  - intros raw Hget Hsch. eapply Hthrow; [exact Hget|].
    apply processData_no_schedule. simpl. by rewrite Hsch.
  - intros raw schedule Hget Hsch Hsps Hn.
    pose proof (processData_cases raw) as Hcases.
    destruct (processData (json raw)) as [d|e] eqn:Hrun; [|by eapply Hthrow].
    destruct Hcases as (schedule' & Hsch' & Hok).
    rewrite Hsch in Hsch'. injection Hsch' as <-.
    destruct Hok as [[? Hs]|Hno]; [by rewrite Hsps in Hs | by destruct Hno].
  - intros raw d Hget Hrun. rewrite (load_miss st Hnone). rewrite Hget, Hrun.
    split; [done|].
    by destruct (processData_shape raw d Hrun) as (? & ? & _ & _ & _ & ?).
  - rewrite (load_miss st Hnone).
    intros d st'. destruct (httpGet (fetches st)) as [raw|]; [|discriminate].
    destruct (processData (json raw)) as [d0|e] eqn:Hd; [|discriminate].
    intros [= <- <-]. by exists raw.
  - intros raw m. rewrite processData_map. split.
    + intros [d ->]. eauto.
    + destruct (processData (json raw)) as [d|e]; [eauto | by intros [? ?]].
Qed.
End Load.

Lemma load_idempotent_witness :
  exists d st1,
    load (Example.serve Example.conference) Example.fresh = (Resolved d, st1) /\
    load (Example.serve Example.conference) st1 = (Resolved d, st1) /\
    fetches st1 = 1.
Proof.
  eexists _, _. split; [vm_compute; reflexivity|].
  destruct (load_idempotent (Example.serve Example.conference) Example.fresh) as (_ & H & _).
  edestruct H as [H1 H2]; [vm_compute; reflexivity|].
  split; [exact H1 | exact (H2 eq_refl)].
Defined.

(** C4 as stated fails for two calls of which the second is made
    before the answer to the first: each of them issues a request. *)
Lemma load_overlapping_counterexample :
  let get := Example.serve Example.conference in
  exists n1 st1 n2 st2 d st3 st4,
    loadCall Example.fresh = (inr n1, st1) /\
    loadCall st1 = (inr n2, st2) /\
    loadResponse get n1 st2 = (Resolved d, st3) /\
    loadResponse get n2 st3 = (Resolved d, st4) /\
    n1 <> n2 /\
    fetches st4 = 2.
Proof.
  eexists _, _, _, _, _, _, _. split; [reflexivity|]. split; [reflexivity|].
  split; [vm_compute; reflexivity|]. split; [vm_compute; reflexivity|]. done.
Qed.

Lemma load_failure_witness :
  load Example.offline Example.fresh = (NotResolved None, mkService None 1) /\
  load (Example.serve (Json.mkDocument None (Some []) (Some []))) Example.fresh
    = (NotResolved (Some TypeError), mkService None 1) /\
  load (Example.serve (Json.mkDocument (Json.schedule Example.conference) None None))
       Example.fresh
    = (NotResolved (Some TypeError), mkService None 1) /\
  exists d, load (Example.serve Example.withoutMap) Example.fresh
            = (Resolved d, mkService (Some d) 1) /\
            Document.map d = None.
Proof.
  split; [|split; [|split]].
  - by apply (load_failure Example.offline Example.fresh eq_refl).
  - destruct (load_failure (Example.serve (Json.mkDocument None (Some []) (Some [])))
                Example.fresh eq_refl) as (_ & _ & _ & H & _).
    by eapply H.
  - destruct (load_failure
                (Example.serve (Json.mkDocument (Json.schedule Example.conference) None None))
                Example.fresh eq_refl) as (_ & _ & _ & _ & H & _).
    eapply H; [reflexivity | reflexivity | reflexivity |].
    exists (Example.day [Json.mkGroup "9:00 am" [Example.intro];
                         Json.mkGroup "10:00 am" [Example.deepDive]]),
           (Json.mkGroup "9:00 am" [Example.intro]), Example.intro.
    split; [apply elem_of_cons; by left|]. split; [apply elem_of_cons; by left|].
    split; [apply elem_of_cons; by left|]. done.
  - destruct (load_failure (Example.serve Example.withoutMap) Example.fresh eq_refl)
      as (_ & _ & _ & _ & _ & H & _).
    eexists. eapply (H Example.withoutMap); [reflexivity|]. vm_compute. reflexivity.
Defined.

(** C6 as stated fails: a document that lacks the top-level field [map]
    is loaded and cached like any other. *)
Lemma load_without_map_counterexample :
  Json.map Example.withoutMap = None /\
  exists d st',
    load (Example.serve Example.withoutMap) Example.fresh = (Resolved d, st') /\
    data st' = Some d /\
    Document.map d = None.
Proof. split; [reflexivity|]. eexists _, _. split; [vm_compute; reflexivity|]. done. Qed.

(** ** Sessions without tracks *)

Section Untracked.
Variable httpGet : nat -> option Json.Document.
Variable hasFavorite : string -> bool.

(** A session without [tracks] is still one after any pass of the
    timeline filter. *)
Lemma untracked_erased (day day' : Day.t) (group : Group.t) (s : Session.t) :
  eraseDay day' = eraseDay day ->
  group ∈ Day.groups day -> s ∈ Group.sessions group -> Session.tracks s = None ->
  exists group' s',
    group' ∈ Day.groups day' /\ s' ∈ Group.sessions group' /\ Session.tracks s' = None.
Proof.
  intros He Hg Hs Ht.
  assert (Hgs : List.map eraseGroup (Day.groups day') = List.map eraseGroup (Day.groups day))
    by (unfold eraseDay in He; congruence).
  apply list_elem_of_In, (in_map eraseGroup) in Hg. rewrite <- Hgs in Hg.
  apply in_map_iff in Hg as (group' & Heg & Hg').
  assert (Hss : List.map eraseSession (Group.sessions group')
                = List.map eraseSession (Group.sessions group))
    by (unfold eraseGroup in Heg; congruence).
  apply list_elem_of_In, (in_map eraseSession) in Hs. rewrite <- Hss in Hs.
  apply in_map_iff in Hs as (s' & Hes & Hs').
  exists group', s'. split; [by apply list_elem_of_In|]. split; [by apply list_elem_of_In|].
  assert (Hj : Session.json s' = Session.json s) by (unfold eraseSession in Hes; congruence).
  unfold Session.tracks in *. by rewrite Hj.
Qed.

(** C10: [filterSession] throws on a session without [tracks] and
    decides on every other one; whenever the day asked for holds such
    a session, in whatever state the service is, [getTimeline] is
    rejected with the [TypeError] of the access, and the session is
    still there for the next call; normalization accepts the document
    all the same: the call that fetches it is already rejected. *)
Theorem untracked_session :
  (forall s queryWords excludeTracks segment,
     Session.tracks s = None ->
     filterSession hasFavorite s queryWords excludeTracks segment = Throw TypeError) /\
  (forall s queryWords excludeTracks segment,
     is_Some (Session.tracks s) ->
     exists s', filterSession hasFavorite s queryWords excludeTracks segment = Ok s') /\
  (forall st d st1 schedule i day group s queryText excludeTracks segment,
     load httpGet st = (Resolved d, st1) ->
     Document.schedule d = Some schedule ->
     at_index schedule i = Some day ->
     group ∈ Day.groups day ->
     s ∈ Group.sessions group ->
     Session.tracks s = None ->
     exists st2 d2 schedule2 day2 group2 s2,
       getTimeline httpGet hasFavorite st i queryText excludeTracks segment
       = (Rejected TypeError, st2) /\
       load httpGet st2 = (Resolved d2, st2) /\
       Document.schedule d2 = Some schedule2 /\
       at_index schedule2 i = Some day2 /\
       group2 ∈ Day.groups day2 /\
       s2 ∈ Group.sessions group2 /\
       Session.tracks s2 = None) /\
  (forall st raw schedule i day group s queryText excludeTracks segment,
     data st = None ->
     httpGet (fetches st) = Some raw ->
     Json.schedule raw = Some schedule ->
     is_Some (Json.speakers raw) ->
     at_index schedule i = Some day ->
     group ∈ Json.d_groups day ->
     s ∈ Json.g_sessions group ->
     Json.s_tracks s = None ->
     (exists d st1, load httpGet st = (Resolved d, st1)) /\
     (getTimeline httpGet hasFavorite st i queryText excludeTracks segment).1
     = Rejected TypeError).
Proof.
  assert (Hcall : forall st d st1 schedule i day group s queryText excludeTracks segment,
     load httpGet st = (Resolved d, st1) ->
     Document.schedule d = Some schedule ->
     at_index schedule i = Some day ->
     group ∈ Day.groups day ->
     s ∈ Group.sessions group ->
     Session.tracks s = None ->
     exists st2 d2 schedule2 day2 group2 s2,
       getTimeline httpGet hasFavorite st i queryText excludeTracks segment
       = (Rejected TypeError, st2) /\
       load httpGet st2 = (Resolved d2, st2) /\
       Document.schedule d2 = Some schedule2 /\
       at_index schedule2 i = Some day2 /\
       group2 ∈ Day.groups day2 /\
       s2 ∈ Group.sessions group2 /\
       Session.tracks s2 = None).
  { intros st d st1 schedule i day group s q ex seg Hload Hsch Hat Hg Hs Ht.
    destruct (getTimeline_run httpGet hasFavorite _ _ _ _ i q ex seg Hload Hsch day Hat)
      as (groups & shown & e & Hpass & Hget).
    pose proof (timelineGroups_throw hasFavorite (queryWordsOf q) ex seg
                  (Day.groups day) group s 0 0 Hg Hs Ht) as Hthrow.
    pose proof (timelineGroups_erase hasFavorite (queryWordsOf q) ex seg
                  (Day.groups day) 0 0) as Herase.
    unfold forEach in Hpass. rewrite Hpass in Hthrow, Herase. simpl in Hthrow, Herase.
    subst e. set (day' := Day.mk (Day.date day) groups (Some shown)) in *.
    assert (He : eraseDay day' = eraseDay day)
      by (unfold eraseDay; simpl; by rewrite Herase).
    destruct (untracked_erased day day' group s He Hg Hs Ht) as (group' & s' & Hg' & Hs' & Ht').
    apply at_index_Some in Hat as [Hrange Hat].
    eexists _, _, _, day', group', s'. split; [exact Hget|].
    split; [by apply load_hit|]. split; [reflexivity|].
    split; [|done].
    unfold at_index. destruct (Z.ltb_spec i 0); [lia|].
    apply list_lookup_insert_eq. by eapply lookup_lt_Some. }
  split; [apply filterSession_throws|]. split.
  { intros s qw ex seg Hs.
    destruct (filterSession_decides hasFavorite s qw ex seg Hs) as (b & Hb & _). eauto. }
  split; [exact Hcall|].
  intros st raw schedule i day group s q ex seg Hnone Hget Hsch Hsps Hi Hg Hs Ht.
  destruct (processData_total raw (mk_is_Some _ _ Hsch) Hsps) as [d Hd].
  assert (Hload : load httpGet st = (Resolved d, mkService (Some d) (S (fetches st)))).
  { rewrite load_miss by done. by rewrite Hget, Hd. }
  split; [by eauto|].
  destruct (processData_shape raw d Hd) as (sch & sch' & Hsch1 & Hsch' & Hjson & _).
  rewrite Hsch in Hsch1. injection Hsch1 as <-.
  apply at_index_Some in Hi as [Hrange Hi]. rewrite <- Hjson in Hi.
  change (List.map day_to_json sch') with (day_to_json <$> sch') in Hi.
  rewrite list_lookup_fmap in Hi.
  destruct (sch' !! Z.to_nat i) as [day'|] eqn:Hi'; [|discriminate].
  simpl in Hi. injection Hi as <-. simpl in Hg.
  apply list_elem_of_In, in_map_iff in Hg as (group' & <- & Hg'). simpl in Hs.
  apply list_elem_of_In, in_map_iff in Hs as (s' & <- & Hs').
  assert (Hat : at_index sch' i = Some day').
  { unfold at_index. destruct (Z.ltb_spec i 0); [lia | done]. }
  destruct (Hcall st d _ sch' i day' group' s' q ex seg Hload Hsch' Hat) as (st2 & ? & ? & ? & ? & ? & -> & _);
    [by apply list_elem_of_In | by apply list_elem_of_In | done | done].
Qed.
End Untracked.

Lemma untracked_session_witness :
  (exists d st1, load (Example.serve Example.withLunch) Example.fresh = (Resolved d, st1)) /\
  exists st2 st3,
    getTimeline (Example.serve Example.withLunch) Example.noFavorites Example.fresh
                0 "" [] "all" = (Rejected TypeError, st2) /\
    getTimeline (Example.serve Example.withLunch) Example.noFavorites st2
                0 "intro" [] "all" = (Rejected TypeError, st3).
Proof.
  destruct (untracked_session (Example.serve Example.withLunch) Example.noFavorites)
    as (_ & _ & H & _).
  split; [eexists _, _; vm_compute; reflexivity|].
  edestruct (H Example.fresh) with (i := 0%Z) (queryText := "") (excludeTracks := @nil string)
    (segment := "all")
    as (st2 & d2 & sch2 & day2 & g2 & s2 & Hget & Hload2 & Hsch2 & Hat2 & Hg2 & Hs2 & Ht2).
  - vm_compute. reflexivity.
  - reflexivity.
  - reflexivity.
  - apply elem_of_cons. right. apply elem_of_cons. left. reflexivity.
  - apply elem_of_cons. left. reflexivity.
  - reflexivity.
  - destruct (H st2 d2 st2 sch2 0%Z day2 g2 s2 "intro" [] "all" Hload2 Hsch2 Hat2 Hg2 Hs2 Ht2)
      as (st3 & _ & _ & _ & _ & _ & Hget3 & _).
    exists st2, st3. split; [exact Hget | exact Hget3].
Defined.


(** ** sort *)

Section SortFacts.
Context {A : Type}.
Variable cmp : A -> A -> Z.

Lemma sortInsert_perm (x : A) (l : list A) : Permutation (sortInsert cmp x l) (x :: l).
Proof.
  induction l as [|y l IH]; simpl; [done|].
  destruct (cmp x y <=? 0)%Z; [done|].
  rewrite IH. apply perm_swap.
Qed.

Lemma sort_perm (l : list A) : Permutation (sort cmp l) l.
Proof.
  induction l as [|x l IH]; simpl; [done|].
  by rewrite sortInsert_perm, IH.
Qed.

Hypothesis Hcmp : Consistent cmp.

Lemma sortInsert_sorted (x : A) (l : list A) :
  StronglySorted (ascending cmp) l -> StronglySorted (ascending cmp) (sortInsert cmp x l).
Proof.
  induction 1 as [|y l Hs IH Hy]; simpl.
  - repeat constructor.
  - destruct (Z.leb_spec (cmp x y) 0) as [Hle|Hgt].
    + constructor; [by constructor|]. constructor; [done|].
      eapply Forall_impl; [exact Hy|]. intros z Hz. unfold ascending in *.
      eapply cmp_trans; eauto.
    + constructor; [done|].
      rewrite sortInsert_perm.
      constructor; [|done]. unfold ascending.
      pose proof (cmp_flip cmp Hcmp x y Hgt). lia.
Qed.

Lemma sort_sorted (l : list A) : StronglySorted (ascending cmp) (sort cmp l).
Proof.
  induction l as [|x l IH]; simpl; [constructor|]. by apply sortInsert_sorted.
Qed.

Lemma sortInsert_stable (z x : A) (l : list A) :
  equalTo cmp z (sortInsert cmp x l) = equalTo cmp z (x :: l).
Proof.
  unfold equalTo. induction l as [|y l IH]; simpl; [done|].
  destruct (Z.leb_spec (cmp x y) 0) as [Hle|Hgt]; [done|].
  simpl. rewrite IH. simpl.
  destruct (Z.eqb_spec (cmp z x) 0) as [Hx|Hx];
    destruct (Z.eqb_spec (cmp z y) 0) as [Hy|Hy]; try done.
  exfalso. apply (cmp_flip0 cmp Hcmp) in Hx.
  pose proof (cmp_trans cmp Hcmp x z y). lia.
Qed.

Lemma sort_stable (z : A) (l : list A) : equalTo cmp z (sort cmp l) = equalTo cmp z l.
Proof.
  induction l as [|x l IH]; simpl; [done|].
  rewrite sortInsert_stable. unfold equalTo in *. simpl. by rewrite IH.
Qed.
End SortFacts.

Lemma Consistent_on {A B : Type} (cmp : B -> B -> Z) (f : A -> B) :
  Consistent cmp -> Consistent (fun a b => cmp (f a) (f b)).
Proof.
  intros [H1 H2 H3]. constructor; eauto.
Qed.

(** The code-unit order of [defaultCompare] is consistent. *)
Lemma ascii_compare_N (a b : ascii) :
  Ascii.compare a b = N.compare (N_of_ascii a) (N_of_ascii b).
Proof. reflexivity. Qed.

Lemma string_compare_trans (a : string) :
  forall b c, String.compare a b <> Gt -> String.compare b c <> Gt -> String.compare a c <> Gt.
Proof.
  induction a as [|x a IH]; intros [|y b] [|z c]; simpl; try done.
  rewrite !ascii_compare_N.
  destruct (N.compare_spec (N_of_ascii x) (N_of_ascii y)) as [Hxy|Hxy|Hxy];
    destruct (N.compare_spec (N_of_ascii y) (N_of_ascii z)) as [Hyz|Hyz|Hyz];
    destruct (N.compare_spec (N_of_ascii x) (N_of_ascii z)) as [Hxz|Hxz|Hxz];
    try done; try lia.
  apply IH.
Qed.

Lemma defaultCompare_consistent : Consistent defaultCompare.
Proof.
  unfold defaultCompare. constructor.
  - intros a b. rewrite (String.compare_antisym b a).
    destruct (String.compare a b); simpl; lia.
  - intros a b. rewrite (String.compare_antisym b a).
    destruct (String.compare a b); simpl; lia.
  - intros a b c Hab Hbc.
    pose proof (string_compare_trans a b c) as H.
    destruct (String.compare a b), (String.compare b c), (String.compare a c);
      try lia; exfalso; by apply H.
Qed.


(** ** The last piece of a split *)

Lemma splitBy_last (sep : ascii -> bool) (s : string) :
  exists w, Str.pop (Str.splitBy sep s) = w /\
    allChars (fun c => negb (sep c)) w = true /\
    ((s = w /\ Str.splitBy sep s = [w]) \/
     (exists pre c, sep c = true /\ s = pre +:+ String c w /\
                    2 <= length (Str.splitBy sep s))).
Proof.
  unfold Str.pop. induction s as [|c s IH].
  - exists "". simpl. split; [done|]. split; [done|]. by left.
  - destruct IH as (w & Hlast & Hw & IH). exists (if sep c then w else
      match Str.splitBy sep s with [_] => String c w | _ => w end).
    cbn [Str.splitBy]. destruct (sep c) eqn:Hc.
    + assert (Hne : exists x l, Str.splitBy sep s = x :: l).
      { destruct IH as [[_ ->]|(_ & _ & _ & _ & Hlen)]; [by eauto|].
        destruct (Str.splitBy sep s) as [|x l]; [simpl in Hlen; lia | by eauto]. }
      destruct Hne as (x & l & Hx). rewrite Hx in *. split; [done|]. split; [done|].
      right. destruct IH as [[-> _]|(pre & c' & Hc' & -> & _)].
      * exists "", c. simpl. repeat split; auto. lia.
      * exists (String c pre), c'. simpl. repeat split; auto. lia.
    + destruct IH as [[-> Hs]|(pre & c' & Hc' & -> & Hlen)].
      * rewrite Hs. simpl. rewrite Hc, Hw. split; [done|]. split; [done|]. by left.
      * destruct (Str.splitBy sep (pre +:+ String c' w)) as [|x [|y l]] eqn:Hx;
          try (simpl in Hlen; lia).
        split; [exact Hlast|]. split; [done|].
        right. exists (String c pre), c'. simpl. repeat split; auto.
Qed.

Lemma isSpace_eq (c : ascii) : Str.isSpace c = true -> c = " "%char.
Proof. unfold Str.isSpace. apply Ascii.eqb_eq. Qed.

(** The last name: what follows the last space of the name. *)
Lemma lastName_spec (s : Speaker.t) :
  allChars (fun c => negb (Str.isSpace c)) (lastName s) = true /\
  (Speaker.name s = lastName s \/
   exists pre, Speaker.name s = pre +:+ " " +:+ lastName s).
Proof.
  unfold lastName, Str.split.
  destruct (splitBy_last Str.isSpace (Speaker.name s)) as (w & -> & Hw & H).
  split; [done|]. destruct H as [[-> _]|(pre & c & Hc & -> & _)]; [by left|].
  right. exists pre. by rewrite (isSpace_eq c Hc).
Qed.

(** ** The accessors *)

Section Accessors.
Variable httpGet : nat -> option Json.Document.
Variable hasFavorite : string -> bool.
Variable localeCompare : string -> string -> Z.

(** C8 (as amended): [getSpeakers] resolves with all the speakers, in
    ascending order of their last names under [localeCompare], the
    speakers of equal last names in their former order; the last name
    is what follows the last space of the name. *)
Theorem getSpeakers_sorted st d st1 speakers :
  Consistent localeCompare ->
  load httpGet st = (Resolved d, st1) ->
  Document.speakers d = Some speakers ->
  exists sorted st',
    getSpeakers httpGet localeCompare st = (Resolved sorted, st') /\
    Permutation sorted speakers /\
    StronglySorted (fun a b => (localeCompare (lastName a) (lastName b) <= 0)%Z) sorted /\
    (forall z, equalTo (bySurname localeCompare) z sorted
               = equalTo (bySurname localeCompare) z speakers) /\
    (forall s, allChars (fun c => negb (Str.isSpace c)) (lastName s) = true /\
               (Speaker.name s = lastName s \/
                exists pre, Speaker.name s = pre +:+ " " +:+ lastName s)).
Proof.
  intros Hc Hload Hsps. unfold getSpeakers. rewrite Hload, Hsps.
  assert (Hc' : Consistent (bySurname localeCompare))
    by apply (Consistent_on localeCompare lastName Hc).
  eexists _, _. split; [reflexivity|].
  split; [apply sort_perm|]. split; [by apply (sort_sorted (bySurname localeCompare))|].
  split; [intros z; by apply sort_stable|]. apply lastName_spec.
Qed.

Lemma load_unresolved st o st1 :
  load httpGet st = (o, st1) -> (forall d, o <> Resolved d) -> data st1 = None.
Proof.
  intros H Ho. destruct (data st) as [d|] eqn:Hd.
  - rewrite (load_hit _ _ _ Hd) in H. injection H as <- <-. by destruct (Ho d).
  - rewrite load_miss in H by done.
    destruct (httpGet (fetches st)) as [res|]; [|by injection H as <- <-].
    destruct (processData (json res)) as [d|e]; injection H as <- <-; [|done].
    by destruct (Ho d).
Qed.

(** C9 (as amended): [getTimeline] writes only the annotations of the
    selected day; [getMap] leaves the service as [load] left it;
    [getSpeakers] and [getTracks] sort the cached [speakers] and
    [tracks] arrays in place: the cache then holds the array that was
    returned, the elements it had in sorted order, by last name under
    a consistent [localeCompare] and by code units, and nothing else
    is changed. *)
Theorem accessors_frame (st : Service) :
  let st1 := (load httpGet st).2 in
  (forall i queryText excludeTracks segment,
     let st' := (getTimeline httpGet hasFavorite st i queryText excludeTracks segment).2 in
     fetches st' = fetches st1 /\
     eraseDocument <$> data st' = eraseDocument <$> data st1 /\
     forall j, j <> Z.to_nat i -> cachedDay st' j = cachedDay st1 j) /\
  (getMap httpGet st).2 = st1 /\
  (let st' := (getSpeakers httpGet localeCompare st).2 in
   fetches st' = fetches st1 /\
   Document.schedule <$> data st' = Document.schedule <$> data st1 /\
   Document.tracks <$> data st' = Document.tracks <$> data st1 /\
   Document.map <$> data st' = Document.map <$> data st1 /\
   sameElements (data st1 ≫= Document.speakers) (data st' ≫= Document.speakers) /\
   (forall speakers, data st1 ≫= Document.speakers = Some speakers ->
      (getSpeakers httpGet localeCompare st).1
      = Resolved (sort (bySurname localeCompare) speakers) /\
      data st' ≫= Document.speakers = Some (sort (bySurname localeCompare) speakers)) /\
   (Consistent localeCompare ->
    forall cached, data st' ≫= Document.speakers = Some cached ->
      StronglySorted (fun a b => (localeCompare (lastName a) (lastName b) <= 0)%Z) cached)) /\
  (let st' := (getTracks httpGet st).2 in
   fetches st' = fetches st1 /\
   Document.schedule <$> data st' = Document.schedule <$> data st1 /\
   Document.speakers <$> data st' = Document.speakers <$> data st1 /\
   Document.map <$> data st' = Document.map <$> data st1 /\
   sameElements (data st1 ≫= Document.tracks) (data st' ≫= Document.tracks) /\
   (forall tracks, data st1 ≫= Document.tracks = Some tracks ->
      (getTracks httpGet st).1 = Resolved (sort defaultCompare tracks) /\
      data st' ≫= Document.tracks = Some (sort defaultCompare tracks)) /\
   (forall cached, data st' ≫= Document.tracks = Some cached ->
      StronglySorted (fun a b => (defaultCompare a b <= 0)%Z) cached)).
Proof.
  split; [intros; apply getTimeline_frame|].
  unfold getMap, getSpeakers, getTracks.
  destruct (load httpGet st) as [o st1] eqn:Hload. simpl.
  assert (Hsame : forall {A} (x : option (list A)), sameElements x x).
  { intros A [l|]; simpl; done. }
  destruct o as [d|e|e]; simpl.
  2,3: rewrite (load_unresolved _ _ _ Hload) by done; simpl; by repeat split.
  pose proof (load_cached _ _ _ _ Hload) as Hd.
  split; [done|]. split.
  - destruct (Document.speakers d) as [speakers|] eqn:Hsps; simpl.
    + rewrite Hd. simpl. rewrite Hsps. simpl.
      split; [done|]. split; [done|]. split; [done|]. split; [done|].
      split; [symmetry; apply sort_perm|]. split.
      * by intros ? [= <-].
      * intros Hc cached [= <-].
        apply (sort_sorted (bySurname localeCompare)).
        by apply (Consistent_on localeCompare lastName).
    + rewrite Hd. simpl. rewrite Hsps. by repeat split.
  - destruct (Document.tracks d) as [tracks|] eqn:Hts; simpl.
    + rewrite Hd. simpl. rewrite Hts. simpl.
      split; [done|]. split; [done|]. split; [done|]. split; [done|].
      split; [symmetry; apply sort_perm|]. split.
      * by intros ? [= <-].
      * intros cached [= <-]. apply (sort_sorted defaultCompare), defaultCompare_consistent.
    + rewrite Hd. simpl. rewrite Hts. by repeat split.
Qed.
End Accessors.

Lemma getSpeakers_sorted_witness :
  exists sorted st',
    getSpeakers (Example.serve Example.twoSpeakers) defaultCompare Example.fresh
      = (Resolved sorted, st') /\
    List.map Speaker.name sorted = ["Bob Abe"; "Alice Zed"] /\
    StronglySorted (fun a b => (defaultCompare (lastName a) (lastName b) <= 0)%Z) sorted.
Proof.
  edestruct (getSpeakers_sorted (Example.serve Example.twoSpeakers) defaultCompare Example.fresh)
    as (sorted & st' & Hget & _ & Hsorted & _).
  - exact defaultCompare_consistent.
  - vm_compute. reflexivity.
  - reflexivity.
  - exists sorted, st'. split; [exact Hget|]. split; [|exact Hsorted].
    vm_compute in Hget. by injection Hget as <- _.
Defined.

(** C9, on two speakers listed against the order of their last
    names: the cache holds them sorted after [getSpeakers]. *)
Lemma accessors_frame_witness :
  let st' := (getSpeakers (Example.serve Example.twoSpeakers) defaultCompare Example.fresh).2 in
  exists cached,
    data st' ≫= Document.speakers = Some cached /\
    List.map Speaker.name cached = ["Bob Abe"; "Alice Zed"] /\
    StronglySorted (fun a b => (defaultCompare (lastName a) (lastName b) <= 0)%Z) cached.
Proof.
  destruct (accessors_frame (Example.serve Example.twoSpeakers) Example.noFavorites
              defaultCompare Example.fresh) as (_ & _ & (_ & _ & _ & _ & _ & _ & H) & _).
  eexists. split; [vm_compute; reflexivity|]. split; [reflexivity|].
  apply (H defaultCompare_consistent). vm_compute. reflexivity.
Defined.

(** C8 as stated fails on a name with a TAB: its last white-space
    separated token is [Abe], but the code compares the whole name and
    puts it after [Bee]. *)
Lemma getSpeakers_tab_counterexample :
  exists a b st',
    getSpeakers (Example.serve Example.tabbed) defaultCompare Example.fresh
      = (Resolved [a; b], st') /\
    Speaker.name a = "Bob Bee" /\
    Speaker.name b = "Zoe" +:+ Example.tab +:+ "Abe" /\
    Spec.lastToken (Speaker.name a) = "Bee" /\
    Spec.lastToken (Speaker.name b) = "Abe" /\
    defaultCompare (Spec.lastToken (Speaker.name a)) (Spec.lastToken (Speaker.name b)) = 1%Z.
Proof. eexists _, _, _. split; [vm_compute; reflexivity|]. by repeat split. Qed.

(** C9 as stated fails: [getSpeakers] reorders the cached [speakers]
    array. *)
Lemma getSpeakers_reorders_counterexample :
  let st1 := (load (Example.serve Example.twoSpeakers) Example.fresh).2 in
  let st' := (getSpeakers (Example.serve Example.twoSpeakers) defaultCompare Example.fresh).2 in
  (List.map Speaker.name <$> (data st1 ≫= Document.speakers)) = Some ["Alice Zed"; "Bob Abe"] /\
  (List.map Speaker.name <$> (data st' ≫= Document.speakers)) = Some ["Bob Abe"; "Alice Zed"] /\
  data st' <> data st1.
Proof.
  split; [reflexivity|]. split; [reflexivity|]. vm_compute. discriminate.
Qed.


(** * Further properties *)

(** ** Queries do not depend on earlier queries *)

Section ForEachRel.
Context {X St : Type}.
Variable body : nat -> X -> St -> X * St * option JsError.
Variable R : X -> X -> Prop.

(** Two runs on arrays whose elements are related pairwise, when the
    callback treats related elements alike. *)
Lemma forEachFrom_rel (l1 l2 : list X) :
  (forall j x1 x2 τ, R x1 x2 ->
     (body j x1 τ).2 = (body j x2 τ).2 /\
     (body j x1 τ).1.2 = (body j x2 τ).1.2 /\
     ((body j x1 τ).2 = None -> (body j x1 τ).1.1 = (body j x2 τ).1.1)) ->
  Forall2 R l1 l2 ->
  forall i σ,
    (forEachFrom body i l1 σ).2 = (forEachFrom body i l2 σ).2 /\
    (forEachFrom body i l1 σ).1.2 = (forEachFrom body i l2 σ).1.2 /\
    ((forEachFrom body i l1 σ).2 = None ->
     (forEachFrom body i l1 σ).1.1 = (forEachFrom body i l2 σ).1.1).
Proof.
  intros Hbody. induction 1 as [|x1 x2 l1 l2 Hx _ IH]; intros i σ; simpl; [done|].
  destruct (Hbody i x1 x2 σ Hx) as (He & Hs & Hx').
  destruct (body i x1 σ) as [[y1 σ1] e1], (body i x2 σ) as [[y2 σ2] e2].
  simpl in *. subst e2 σ2. destruct e1 as [err|]; simpl; [done|].
  specialize (Hx' eq_refl). subst y2. specialize (IH (S i) σ1).
  destruct (forEachFrom body (S i) l1 σ1) as [[m1 τ1] f1],
           (forEachFrom body (S i) l2 σ1) as [[m2 τ2] f2].
  simpl in *. destruct IH as (-> & -> & IH). split; [done|]. split; [done|].
  intros Hf. by rewrite (IH Hf).
Qed.
End ForEachRel.

Section Independence.
Variable httpGet : nat -> option Json.Document.
Variable hasFavorite : string -> bool.

Lemma eraseSession_inv (s1 s2 : Session.t) :
  eraseSession s1 = eraseSession s2 ->
  Session.json s1 = Session.json s2 /\ Session.speakers s1 = Session.speakers s2.
Proof. unfold eraseSession. intros [= H1 H2]. done. Qed.

Lemma filterSession_erased (s1 s2 : Session.t) queryWords excludeTracks segment :
  eraseSession s1 = eraseSession s2 ->
  filterSession hasFavorite s1 queryWords excludeTracks segment
  = filterSession hasFavorite s2 queryWords excludeTracks segment.
Proof.
  intros H. apply eraseSession_inv in H as [Hj Hs].
  unfold filterSession, Session.tracks, Session.name, Session.set_hide.
  rewrite Hj, Hs. done.
Qed.

Lemma timelineSession_erased queryWords excludeTracks segment j (s1 s2 : Session.t) τ :
  eraseSession s1 = eraseSession s2 ->
  let r1 := timelineSession hasFavorite queryWords excludeTracks segment j s1 τ in
  let r2 := timelineSession hasFavorite queryWords excludeTracks segment j s2 τ in
  r1.2 = r2.2 /\ r1.1.2 = r2.1.2 /\ (r1.2 = None -> r1.1.1 = r2.1.1).
Proof.
  intros H. unfold timelineSession. rewrite (filterSession_erased s1 s2 _ _ _ H).
  destruct (filterSession hasFavorite s2 queryWords excludeTracks segment) as [s'|e]; simpl.
  - by destruct (negb _).
  - split; [done|]. split; [done|]. discriminate.
Qed.

Lemma eraseGroup_inv (g1 g2 : Group.t) :
  eraseGroup g1 = eraseGroup g2 ->
  Group.time g1 = Group.time g2 /\
  Forall2 (fun s1 s2 => eraseSession s1 = eraseSession s2) (Group.sessions g1) (Group.sessions g2).
Proof.
  unfold eraseGroup. intros [= H1 H2]. split; [done|].
  revert H2. generalize (Group.sessions g2). induction (Group.sessions g1) as [|s l IH];
    intros [|s' l'] H; simpl in H; try discriminate; [constructor|].
  constructor.
  - apply (f_equal head) in H. simpl in H. congruence.
  - apply IH. apply (f_equal tail) in H. exact H.
Qed.

Lemma timelineGroup_erased queryWords excludeTracks segment j (g1 g2 : Group.t) τ :
  eraseGroup g1 = eraseGroup g2 ->
  let r1 := timelineGroup hasFavorite queryWords excludeTracks segment j g1 τ in
  let r2 := timelineGroup hasFavorite queryWords excludeTracks segment j g2 τ in
  r1.2 = r2.2 /\ r1.1.2 = r2.1.2 /\ (r1.2 = None -> r1.1.1 = r2.1.1).
Proof.
  intros H. apply eraseGroup_inv in H as [Ht Hs]. unfold timelineGroup, forEach.
  pose proof (forEachFrom_rel (timelineSession hasFavorite queryWords excludeTracks segment)
                _ _ _ (fun j x1 x2 τ => timelineSession_erased _ _ _ j x1 x2 τ) Hs 0 (true, τ))
    as (He & Hst & Hl).
  destruct (forEachFrom _ 0 (Group.sessions g1) (true, τ)) as [[l1 [h1 n1]] e1],
           (forEachFrom _ 0 (Group.sessions g2) (true, τ)) as [[l2 [h2 n2]] e2].
  simpl in *. injection Hst as -> ->. subst e2. split; [done|]. split; [done|].
  intros ->. by rewrite Ht, (Hl eq_refl).
Qed.

Lemma eraseDay_inv (d1 d2 : Day.t) :
  eraseDay d1 = eraseDay d2 ->
  Day.date d1 = Day.date d2 /\
  Forall2 (fun g1 g2 => eraseGroup g1 = eraseGroup g2) (Day.groups d1) (Day.groups d2).
Proof.
  unfold eraseDay. intros [= H1 H2]. split; [done|].
  revert H2. generalize (Day.groups d2). induction (Day.groups d1) as [|g l IH];
    intros [|g' l'] H; simpl in H; try discriminate; [constructor|].
  constructor.
  - apply (f_equal head) in H. simpl in H. congruence.
  - apply IH. apply (f_equal tail) in H. exact H.
Qed.

Lemma lookup_erased (l1 l2 : list Day.t) (k : nat) :
  List.map eraseDay l1 = List.map eraseDay l2 ->
  eraseDay <$> l1 !! k = eraseDay <$> l2 !! k.
Proof.
  intros H. rewrite <- !list_lookup_fmap.
  change (eraseDay <$> l1) with (List.map eraseDay l1).
  change (eraseDay <$> l2) with (List.map eraseDay l2). by rewrite H.
Qed.

Lemma at_index_erased (l1 l2 : list Day.t) (i : Z) :
  List.map eraseDay l1 = List.map eraseDay l2 ->
  eraseDay <$> at_index l1 i = eraseDay <$> at_index l2 i.
Proof.
  intros H. unfold at_index. destruct (i <? 0)%Z; [done|]. by apply lookup_erased.
Qed.

(** The outcome of [getTimeline] is a function of the document without
    its annotations. *)
Lemma getTimeline_erased st st' d d' st1 st1' i queryText excludeTracks segment :
  load httpGet st = (Resolved d, st1) ->
  load httpGet st' = (Resolved d', st1') ->
  eraseDocument d = eraseDocument d' ->
  (getTimeline httpGet hasFavorite st i queryText excludeTracks segment).1
  = (getTimeline httpGet hasFavorite st' i queryText excludeTracks segment).1.
Proof.
  intros Hload Hload' He.
  assert (Hs : List.map eraseDay <$> Document.schedule d
               = List.map eraseDay <$> Document.schedule d').
  { apply (f_equal Document.schedule) in He. exact He. }
  destruct (Document.schedule d) as [sch|] eqn:Hsch,
           (Document.schedule d') as [sch'|] eqn:Hsch'; try discriminate.
  2: { unfold getTimeline. by rewrite Hload, Hload', Hsch, Hsch'. }
  simpl in Hs. injection Hs as Hs.
  pose proof (at_index_erased sch sch' i Hs) as Hi.
  destruct (at_index sch i) as [day|] eqn:Hd, (at_index sch' i) as [day'|] eqn:Hd';
    try discriminate.
  2: { rewrite (getTimeline_no_day httpGet hasFavorite _ _ _ _ i _ _ _ Hload Hsch Hd).
       by rewrite (getTimeline_no_day httpGet hasFavorite _ _ _ _ i _ _ _ Hload' Hsch' Hd'). }
  simpl in Hi. assert (Hi' : eraseDay day = eraseDay day') by congruence.
  apply eraseDay_inv in Hi' as [Hdate Hgroups].
  destruct (getTimeline_run httpGet hasFavorite _ _ _ _ i queryText excludeTracks segment
              Hload Hsch day Hd) as (gs & n & e & Hpass & ->).
  destruct (getTimeline_run httpGet hasFavorite _ _ _ _ i queryText excludeTracks segment
              Hload' Hsch' day' Hd') as (gs' & n' & e' & Hpass' & ->).
  pose proof (forEachFrom_rel (timelineGroup hasFavorite (queryWordsOf queryText)
                                             excludeTracks segment)
                _ _ _ (fun j x1 x2 τ => timelineGroup_erased _ _ _ j x1 x2 τ) Hgroups 0 0)
    as (H1 & H2 & H3).
  unfold forEach in Hpass, Hpass'. rewrite Hpass, Hpass' in H1, H2, H3. simpl in *.
  subst e' n'. destruct e as [err|]; [done|]. by rewrite Hdate, (H3 eq_refl).
Qed.

Lemma getTimeline_after st d st1 i1 q1 ex1 seg1 i2 q2 ex2 seg2 :
  load httpGet st = (Resolved d, st1) ->
  (getTimeline httpGet hasFavorite
     (getTimeline httpGet hasFavorite st i1 q1 ex1 seg1).2 i2 q2 ex2 seg2).1
  = (getTimeline httpGet hasFavorite st i2 q2 ex2 seg2).1.
Proof.
  intros Hload.
  destruct (getTimeline_frame httpGet hasFavorite st i1 q1 ex1 seg1) as (_ & He & _).
  rewrite Hload in He. simpl in He. rewrite (load_cached _ _ _ _ Hload) in He.
  destruct (data (getTimeline httpGet hasFavorite st i1 q1 ex1 seg1).2) as [d'|] eqn:Hd';
    [|discriminate].
  simpl in He. assert (He' : eraseDocument d = eraseDocument d') by congruence.
  symmetry. eapply getTimeline_erased; [exact Hload | by apply load_hit | done].
Qed.

(** X1: once the document is loaded, the outcome of a [getTimeline] call
    does not depend on the [getTimeline] call made before it: the
    annotations are computed afresh. *)
Theorem getTimeline_independent st d st1 i1 q1 ex1 seg1 i2 q2 ex2 seg2 :
  load httpGet st = (Resolved d, st1) ->
  (getTimeline httpGet hasFavorite
     (getTimeline httpGet hasFavorite st i1 q1 ex1 seg1).2 i2 q2 ex2 seg2).1
  = (getTimeline httpGet hasFavorite st i2 q2 ex2 seg2).1.
Proof. apply getTimeline_after. Qed.

(** X2: a resolved [getTimeline] call made a second time with the same
    arguments resolves with the same day and leaves the service as it
    is. *)
Theorem getTimeline_again st i queryText excludeTracks segment day' st' :
  getTimeline httpGet hasFavorite st i queryText excludeTracks segment = (Resolved day', st') ->
  getTimeline httpGet hasFavorite st' i queryText excludeTracks segment = (Resolved day', st').
Proof.
  intros H.
  destruct (getTimeline_resolved _ _ _ _ _ _ _ _ _ H)
    as (d & st1 & schedule & day & Hload & Hsch & Hi & Ht & Hday & Hst).
  pose proof (getTimeline_after st d st1 i queryText excludeTracks segment
                i queryText excludeTracks segment Hload) as Hfst.
  rewrite H in Hfst. simpl in Hfst.
  apply at_index_Some in Hi as [Hrange Hi].
  set (d' := Document.set_schedule (<[Z.to_nat i:=day']> schedule) d) in *.
  assert (Hload' : load httpGet st' = (Resolved d', st')) by (apply load_hit; by rewrite Hst).
  assert (Hi' : at_index (<[Z.to_nat i:=day']> schedule) i = Some day').
  { unfold at_index. destruct (Z.ltb_spec i 0) as [?|?]; [lia|].
    apply list_lookup_insert_eq. by eapply lookup_lt_Some. }
  destruct (getTimeline_run httpGet hasFavorite _ _ _ _ i queryText excludeTracks segment
              Hload' eq_refl day' Hi') as (gs & n & e & Hpass & Hget).
  rewrite Hget in Hfst |- *. simpl in Hfst. destruct e as [err|]; [discriminate|].
  injection Hfst as Hfst. rewrite Hfst. f_equal.
  rewrite Hst. unfold set_data, d', Document.set_schedule. simpl.
  by rewrite list_insert_insert_eq.
Qed.
End Independence.

Lemma getTimeline_independent_witness :
  (getTimeline (Example.serve Example.conference) Example.noFavorites
     (getTimeline (Example.serve Example.conference) Example.noFavorites Example.fresh
                  0 "intro" [] "all").2
     0 "" ["design"] "all").1
  = (getTimeline (Example.serve Example.conference) Example.noFavorites Example.fresh
                 0 "" ["design"] "all").1.
Proof.
  eapply (getTimeline_independent (Example.serve Example.conference) Example.noFavorites
            Example.fresh).
  vm_compute. reflexivity.
Defined.

Lemma getTimeline_again_witness :
  exists day' st',
    getTimeline (Example.serve Example.conference) Example.noFavorites Example.fresh
                0 "intro" [] "all" = (Resolved day', st') /\
    getTimeline (Example.serve Example.conference) Example.noFavorites st'
                0 "intro" [] "all" = (Resolved day', st').
Proof.
  eexists _, _. split; [vm_compute; reflexivity|].
  apply (getTimeline_again (Example.serve Example.conference) Example.noFavorites Example.fresh).
  vm_compute. reflexivity.
Defined.


(** ** Comparing two queries on the same document *)

Section Compare.
Variable httpGet : nat -> option Json.Document.
Variable hasFavorite : string -> bool.

Lemma shown_le (FA FB : Session.t -> Session.t) (l : list Session.t) :
  (forall s, s ∈ l -> visible (FB s) = true -> visible (FA s) = true) ->
  length (List.filter visible (List.map FB l)) <= length (List.filter visible (List.map FA l)).
Proof.
  induction l as [|s l IH]; intros H; simpl; [done|].
  assert (IH' := IH (fun x Hx => H x (list_elem_of_further _ _ _ Hx))).
  pose proof (H s (list_elem_of_here _ _)) as Hs.
  destruct (visible (FB s)); [rewrite (Hs eq_refl)|destruct (visible (FA s))]; simpl; lia.
Qed.

Lemma shown_groups_le (FA FB : Session.t -> Session.t) (gs : list Group.t) :
  (forall g s, g ∈ gs -> s ∈ Group.sessions g -> visible (FB s) = true -> visible (FA s) = true) ->
  length (List.filter visible (concat (List.map (fun g => List.map FB (Group.sessions g)) gs)))
  <= length (List.filter visible (concat (List.map (fun g => List.map FA (Group.sessions g)) gs))).
Proof.
  induction gs as [|g gs IH]; intros H; simpl; [done|].
  rewrite !List.filter_app, !length_app.
  pose proof (shown_le FA FB (Group.sessions g)
                (fun s Hs => H g s (list_elem_of_here _ _) Hs)).
  pose proof (IH (fun g' s Hg' => H g' s (list_elem_of_further _ _ _ Hg'))). lia.
Qed.

Lemma sessionsOf_filtered date qw ex seg (gs : list Group.t) n :
  sessionsOf (Day.mk date (List.map (filteredGroup hasFavorite qw ex seg) gs) n)
  = concat (List.map (fun g => List.map (filtered hasFavorite qw ex seg) (Group.sessions g)) gs).
Proof. unfold sessionsOf. simpl. by rewrite List.map_map. Qed.

Lemma shownAt_filtered date qw ex seg (gs : list Group.t) n g k :
  shownAt (Day.mk date (List.map (filteredGroup hasFavorite qw ex seg) gs) n) g k = true <->
  exists group s, gs !! g = Some group /\ Group.sessions group !! k = Some s /\
                  visible (filtered hasFavorite qw ex seg s) = true.
Proof.
  unfold shownAt. simpl.
  change (List.map (filteredGroup hasFavorite qw ex seg) gs)
    with (filteredGroup hasFavorite qw ex seg <$> gs).
  rewrite list_lookup_fmap. destruct (gs !! g) as [group|]; simpl.
  - change (List.map (filtered hasFavorite qw ex seg) (Group.sessions group))
      with (filtered hasFavorite qw ex seg <$> Group.sessions group).
    rewrite list_lookup_fmap. destruct (Group.sessions group !! k) as [s|] eqn:Hk; simpl.
    + split; [intros H; by exists group, s|].
      intros (? & ? & [= <-] & Hk' & ?). rewrite Hk in Hk'. by injection Hk' as <-.
    + split; [done|]. intros (? & ? & [= <-] & Hk' & _). by rewrite Hk in Hk'.
  - split; [done|]. by intros (? & ? & ? & _).
Qed.

(** Two resolved queries on the same day, the second of which shows a
    session only if the first does. *)
Lemma getTimeline_compare st i qA exA segA qB exB segB dayA stA dayB stB :
  getTimeline httpGet hasFavorite st i qA exA segA = (Resolved dayA, stA) ->
  getTimeline httpGet hasFavorite st i qB exB segB = (Resolved dayB, stB) ->
  (forall s, is_Some (Session.tracks s) ->
     Spec.queryPredicate (queryWordsOf qB) s /\ Spec.trackPredicate exB s /\
     Spec.segmentPredicate hasFavorite segB s ->
     Spec.queryPredicate (queryWordsOf qA) s /\ Spec.trackPredicate exA s /\
     Spec.segmentPredicate hasFavorite segA s) ->
  (forall g k, shownAt dayB g k = true -> shownAt dayA g k = true) /\
  exists nA nB, Day.shownSessions dayA = Some nA /\ Day.shownSessions dayB = Some nB /\
                nB <= nA.
Proof.
  intros HA HB Himp.
  destruct (getTimeline_resolved _ _ _ _ _ _ _ _ _ HA)
    as (d & st1 & schedule & day & Hload & Hsch & Hi & Ht & HdayA & _).
  destruct (getTimeline_resolved _ _ _ _ _ _ _ _ _ HB)
    as (d' & st1' & schedule' & day' & Hload' & Hsch' & Hi' & _ & HdayB & _).
  rewrite Hload in Hload'. injection Hload' as <- <-.
  rewrite Hsch in Hsch'. injection Hsch' as <-.
  rewrite Hi in Hi'. injection Hi' as <-.
  assert (Hvis : forall g s, g ∈ Day.groups day -> s ∈ Group.sessions g ->
            visible (filtered hasFavorite (queryWordsOf qB) exB segB s) = true ->
            visible (filtered hasFavorite (queryWordsOf qA) exA segA s) = true).
  { intros g s Hg Hs. unfold tracked in Ht. rewrite Forall_forall in Ht.
    specialize (Ht g Hg). rewrite Forall_forall in Ht. specialize (Ht s Hs).
    destruct (filtered_tracked hasFavorite (queryWordsOf qA) exA segA s Ht)
      as (_ & bA & -> & HbA).
    destruct (filtered_tracked hasFavorite (queryWordsOf qB) exB segB s Ht)
      as (_ & bB & -> & HbB).
    rewrite !visible_set_hide, !negb_true_iff. rewrite HbA, HbB. exact (Himp s Ht). }
  split.
  - intros g k. rewrite HdayA, HdayB, !shownAt_filtered.
    intros (group & s & Hg & Hs & Hv). exists group, s. split; [done|]. split; [done|].
    eapply Hvis; [by eapply list_elem_of_lookup_2 | by eapply list_elem_of_lookup_2 | done].
  - pose proof (f_equal Day.shownSessions HdayA) as HnA.
    pose proof (f_equal Day.shownSessions HdayB) as HnB. simpl in HnA, HnB.
    eexists _, _. split; [exact HnA|]. split; [exact HnB|].
    rewrite HdayA at 1. rewrite HdayB at 1. rewrite !sessionsOf_filtered.
    by apply shown_groups_le.
Qed.

(** X3: excluding more tracks never shows a session that was hidden, and
    never raises the number of shown sessions. *)
Theorem getTimeline_exclude_more st i queryText ex ex' segment day1 st1 day2 st2 :
  (forall t, t ∈ ex -> t ∈ ex') ->
  getTimeline httpGet hasFavorite st i queryText ex segment = (Resolved day1, st1) ->
  getTimeline httpGet hasFavorite st i queryText ex' segment = (Resolved day2, st2) ->
  (forall g k, shownAt day2 g k = true -> shownAt day1 g k = true) /\
  exists n1 n2, Day.shownSessions day1 = Some n1 /\ Day.shownSessions day2 = Some n2 /\
                n2 <= n1.
Proof.
  intros Hsub H1 H2. eapply getTimeline_compare; [exact H1 | exact H2 |].
  intros s _ (Hq & (t & Ht & Hn) & Hs). split; [done|]. split; [|done].
  exists t. split; [done|]. intros Hin. by apply Hn, Hsub.
Qed.

(** X4: the segment [favorites] shows no session that another segment
    hides, and no more sessions. *)
Theorem getTimeline_favorites_fewer st i queryText excludeTracks segment day1 st1 day2 st2 :
  segment <> "favorites" ->
  getTimeline httpGet hasFavorite st i queryText excludeTracks segment = (Resolved day1, st1) ->
  getTimeline httpGet hasFavorite st i queryText excludeTracks "favorites"
    = (Resolved day2, st2) ->
  (forall g k, shownAt day2 g k = true -> shownAt day1 g k = true) /\
  exists n1 n2, Day.shownSessions day1 = Some n1 /\ Day.shownSessions day2 = Some n2 /\
                n2 <= n1.
Proof.
  intros Hseg H1 H2. eapply getTimeline_compare; [exact H1 | exact H2 |].
  intros s _ (Hq & Ht & _). split; [done|]. split; [done|]. by left.
Qed.

Lemma queryWordsOf_empty : queryWordsOf "" = [].
Proof. reflexivity. Qed.

(** X5: called with the day index alone, [getTimeline] hides exactly the
    sessions whose [tracks] array is empty, and counts the others. *)
Theorem getTimeline_defaults st i day' st' :
  getTimelineWith httpGet hasFavorite st i None None None = (Resolved day', st') ->
  (forall s', s' ∈ sessionsOf day' ->
     exists b, Session.hide s' = Some b /\ (b = true <-> tracksOf s' = [])) /\
  Day.shownSessions day'
  = Some (length (List.filter (fun s => negb (bool_decide (tracksOf s = [])))
                              (sessionsOf day'))).
Proof.
  unfold getTimelineWith. simpl. intros H.
  destruct (getTimeline_resolved _ _ _ _ _ _ _ _ _ H)
    as (d & st1 & schedule & day & Hload & Hsch & Hi & Ht & Hday & _).
  assert (Hs : forall s', s' ∈ sessionsOf day' ->
            exists b, Session.hide s' = Some b /\ (b = true <-> tracksOf s' = [])).
  { intros s' Hs'. rewrite Hday, sessionsOf_filtered in Hs'.
    apply list_elem_of_In, in_concat in Hs' as (l & Hl & Hs').
    apply in_map_iff in Hl as (g & <- & Hg). apply in_map_iff in Hs' as (s & <- & Hs).
    unfold tracked in Ht. rewrite Forall_forall in Ht.
    specialize (Ht g ltac:(by apply list_elem_of_In)). rewrite Forall_forall in Ht.
    specialize (Ht s ltac:(by apply list_elem_of_In)).
    destruct (filtered_tracked hasFavorite (queryWordsOf "") [] "all" s Ht)
      as (_ & b & -> & Hb).
    exists b. split; [done|]. change (tracksOf (Session.set_hide b s)) with (tracksOf s).
    destruct b.
    - split; [intros _|done]. destruct (tracksOf s) as [|t ts] eqn:Hts; [done|].
      assert (true = false); [|done]. apply Hb. split; [by left|]. split; [|by left].
      exists t. unfold Spec.trackPredicate. rewrite Hts.
      split; [apply list_elem_of_here | apply not_elem_of_nil].
    - split; [done|]. intros Hnil. destruct Hb as [Hb _].
      destruct (Hb eq_refl) as (_ & (t & Hin & _) & _).
      rewrite Hnil in Hin. by apply elem_of_nil in Hin. }
  split; [exact Hs|].
  apply (f_equal Day.shownSessions) in Hday. rewrite Hday. simpl. do 2 f_equal.
  apply List.filter_ext_in. intros s' Hin.
  destruct (Hs s' ltac:(by apply list_elem_of_In)) as (b & Hb & Hiff).
  unfold visible. rewrite Hb. destruct b.
  - destruct Hiff as [Hiff _]. by rewrite bool_decide_eq_true_2 by (by apply Hiff).
  - rewrite bool_decide_eq_false_2; [done|]. intros Hn. by apply Hiff in Hn.
Qed.
End Compare.

Lemma getTimeline_exclude_more_witness :
  exists day1 st1 day2 st2,
    getTimeline (Example.serve Example.conference) Example.noFavorites Example.fresh
                0 "" [] "all" = (Resolved day1, st1) /\
    getTimeline (Example.serve Example.conference) Example.noFavorites Example.fresh
                0 "" ["design"] "all" = (Resolved day2, st2) /\
    Day.shownSessions day1 = Some 2 /\
    Day.shownSessions day2 = Some 1 /\
    forall g k, shownAt day2 g k = true -> shownAt day1 g k = true.
Proof.
  eexists _, _, _, _. split; [vm_compute; reflexivity|]. split; [vm_compute; reflexivity|].
  split; [reflexivity|]. split; [reflexivity|].
  eapply (getTimeline_exclude_more (Example.serve Example.conference) Example.noFavorites
            Example.fresh 0 "" [] ["design"] "all").
  - intros t Ht. by apply elem_of_nil in Ht.
  - vm_compute. reflexivity.
  - vm_compute. reflexivity.
Defined.

Lemma getTimeline_favorites_fewer_witness :
  exists day1 st1 day2 st2,
    getTimeline (Example.serve Example.conference) Example.noFavorites Example.fresh
                0 "" [] "all" = (Resolved day1, st1) /\
    getTimeline (Example.serve Example.conference) Example.noFavorites Example.fresh
                0 "" [] "favorites" = (Resolved day2, st2) /\
    Day.shownSessions day1 = Some 2 /\
    Day.shownSessions day2 = Some 0 /\
    forall g k, shownAt day2 g k = true -> shownAt day1 g k = true.
Proof.
  eexists _, _, _, _. split; [vm_compute; reflexivity|]. split; [vm_compute; reflexivity|].
  split; [reflexivity|]. split; [reflexivity|].
  eapply (getTimeline_favorites_fewer (Example.serve Example.conference) Example.noFavorites
            Example.fresh 0 "" [] "all").
  - discriminate.
  - vm_compute. reflexivity.
  - vm_compute. reflexivity.
Defined.

Lemma getTimeline_defaults_witness :
  exists day' st',
    getTimelineWith (Example.serve Example.conference) Example.noFavorites Example.fresh
                    0 None None None = (Resolved day', st') /\
    Day.shownSessions day' = Some 2 /\
    forall s', s' ∈ sessionsOf day' ->
      exists b, Session.hide s' = Some b /\ (b = true <-> tracksOf s' = []).
Proof.
  eexists _, _. split; [vm_compute; reflexivity|]. split; [reflexivity|].
  eapply (getTimeline_defaults (Example.serve Example.conference) Example.noFavorites
            Example.fresh 0).
  vm_compute. reflexivity.
Defined.


(** ** The words of a query *)

Section Words.

Lemma normalized_char (c : ascii) :
  let c' := if Str.isPunct (Str.lower c) then " "%char else Str.lower c in
  negb (Str.isPunct c') && negb (isUpper c') = true.
Proof. destruct c as [[] [] [] [] [] [] [] []]; reflexivity. Qed.

Lemma normalized_chars (s : string) :
  allChars (fun c => negb (Str.isPunct c) && negb (isUpper c))
           (Str.replacePunct (Str.toLowerCase s)) = true.
Proof.
  induction s as [|c s IH]; simpl; [done|].
  by rewrite (normalized_char c), IH.
Qed.

Lemma allWhite_nonempty (w : string) : negb (allWhite w) = true -> w <> "".
Proof. by intros H ->. Qed.

(** X6: a query word is never empty and holds no space, comma, period,
    hyphen or upper-case letter. *)
Theorem queryWordsOf_words (queryText w : string) :
  w ∈ queryWordsOf queryText -> w <> "" /\ allChars wordChar w = true.
Proof.
  rewrite queryWordsOf_pieces, list_elem_of_In, filter_In. intros [Hin Hw].
  split; [by apply allWhite_nonempty|].
  pose proof (splitBy_pieces _ Str.isSpace _ (normalized_chars queryText)) as Hp.
  rewrite Forall_forall in Hp. specialize (Hp w ltac:(by apply list_elem_of_In)).
  revert Hp. apply allChars_impl. intros c. unfold wordChar.
  destruct (Str.isSpace c), (Str.isPunct c), (isUpper c); by simpl.
Qed.

Lemma lower_lower (c : ascii) : Str.lower (Str.lower c) = Str.lower c.
Proof. destruct c as [[] [] [] [] [] [] [] []]; reflexivity. Qed.

Lemma toLowerCase_idem (s : string) :
  Str.toLowerCase (Str.toLowerCase s) = Str.toLowerCase s.
Proof. induction s as [|c s IH]; simpl; [done|]. by rewrite lower_lower, IH. Qed.

Lemma replacePunct_char (c : ascii) :
  let p := fun x => if Str.isPunct x then " "%char else x in
  p (Str.lower (p c)) = p (Str.lower c).
Proof. destruct c as [[] [] [] [] [] [] [] []]; reflexivity. Qed.

Lemma replacePunct_normal (s : string) :
  Str.replacePunct (Str.toLowerCase (Str.replacePunct s))
  = Str.replacePunct (Str.toLowerCase s).
Proof.
  induction s as [|c s IH]; simpl; [done|].
  rewrite IH. f_equal. apply (replacePunct_char c).
Qed.

Lemma getTimeline_words httpGet hasFavorite st i q1 q2 excludeTracks segment :
  queryWordsOf q1 = queryWordsOf q2 ->
  getTimeline httpGet hasFavorite st i q1 excludeTracks segment
  = getTimeline httpGet hasFavorite st i q2 excludeTracks segment.
Proof. intros H. unfold getTimeline. by rewrite H. Qed.

(** X7: the query is read without regard to case, and with commas,
    periods and hyphens for spaces: the text in lower case, and the
    text in lower case with these characters turned into spaces, are
    answered as the text itself; so is, for a text of ASCII
    characters, the text with these characters turned into spaces. *)
Theorem getTimeline_query_normalized httpGet hasFavorite st i queryText excludeTracks segment :
  getTimeline httpGet hasFavorite st i (Str.toLowerCase queryText) excludeTracks segment
  = getTimeline httpGet hasFavorite st i queryText excludeTracks segment /\
  getTimeline httpGet hasFavorite st i (Str.replacePunct (Str.toLowerCase queryText))
              excludeTracks segment
  = getTimeline httpGet hasFavorite st i queryText excludeTracks segment /\
  (allChars isAscii queryText = true ->
   getTimeline httpGet hasFavorite st i (Str.replacePunct queryText) excludeTracks segment
   = getTimeline httpGet hasFavorite st i queryText excludeTracks segment).
Proof.
  split; [|split; [|intros _]]; apply getTimeline_words; unfold queryWordsOf.
  - by rewrite toLowerCase_idem.
  - by rewrite replacePunct_normal, toLowerCase_idem.
  - by rewrite replacePunct_normal.
Qed.

Lemma separator_char (c : ascii) :
  separator c = true ->
  Str.isSpace (if Str.isPunct (Str.lower c) then " "%char else Str.lower c) = true.
Proof. destruct c as [[] [] [] [] [] [] [] []]; by vm_compute. Qed.

Lemma splitBy_all_separators (sep : ascii -> bool) (s : string) :
  allChars sep s = true -> Forall (fun w => w = "") (Str.splitBy sep s).
Proof.
  induction s as [|c s IH]; simpl; [by repeat constructor|]. intros H.
  apply andb_true_iff in H as [Hc H]. rewrite Hc. constructor; [done|]. by apply IH.
Qed.

Lemma queryWordsOf_separators (queryText : string) :
  allChars separator queryText = true -> queryWordsOf queryText = [].
Proof.
  intros H. rewrite queryWordsOf_pieces. unfold Str.split.
  assert (Hs : allChars Str.isSpace (Str.replacePunct (Str.toLowerCase queryText)) = true).
  { induction queryText as [|c s IH]; simpl in *; [done|].
    apply andb_true_iff in H as [Hc H]. by rewrite (separator_char c Hc), IH. }
  pose proof (splitBy_all_separators _ _ Hs) as Hall.
  induction Hall as [|w l -> _ IH]; simpl; [done|]. exact IH.
Qed.

(** X8: a query text of nothing but spaces, commas, periods and hyphens
    filters like the empty text. *)
Theorem getTimeline_blank_query httpGet hasFavorite st i queryText excludeTracks segment :
  allChars separator queryText = true ->
  getTimeline httpGet hasFavorite st i queryText excludeTracks segment
  = getTimeline httpGet hasFavorite st i "" excludeTracks segment.
Proof. intros H. apply getTimeline_words. by rewrite (queryWordsOf_separators _ H). Qed.
End Words.

Lemma queryWordsOf_words_witness :
  queryWordsOf " Intro, to-X.  " = ["intro"; "to"; "x"] /\
  ("intro" <> "" /\ allChars wordChar "intro" = true).
Proof.
  split; [reflexivity|].
  apply (queryWordsOf_words " Intro, to-X.  " "intro").
  apply elem_of_cons. by left.
Defined.

Lemma getTimeline_query_normalized_witness :
  getTimeline (Example.serve Example.conference) Example.noFavorites Example.fresh
              0 "Intro to X " [] "all"
  = getTimeline (Example.serve Example.conference) Example.noFavorites Example.fresh
                0 "Intro,to-X." [] "all".
Proof.
  by apply (getTimeline_query_normalized (Example.serve Example.conference)
              Example.noFavorites Example.fresh 0 "Intro,to-X." [] "all").
Defined.

Lemma getTimeline_blank_query_witness :
  getTimeline (Example.serve Example.conference) Example.noFavorites Example.fresh
              0 " , .-" [] "all"
  = getTimeline (Example.serve Example.conference) Example.noFavorites Example.fresh
                0 "" [] "all".
Proof. by apply getTimeline_blank_query. Defined.


(** ** What normalization needs *)

(** Normalization does not make up the [speakers] array. *)
Lemma processData_keeps_speakerless (data d : Document.t) :
  Document.speakers data = None -> processData data = Ok d -> Document.speakers d = None.
Proof.
  intros Hsps. unfold processData, forEach. rewrite Hsps.
  destruct (Document.schedule data) as [schedule|]; [|discriminate].
  pose proof (forEachFrom_inv processDay speakerless
                (fun j x τ Hτ => processDay_speakerless_inv j x τ Hτ)
                schedule 0 (mkShared None []) eq_refl) as H.
  destruct (forEachFrom processDay 0 schedule (mkShared None [])) as [[sch' σ] [e|]];
    [discriminate|].
  by intros [= <-].
Qed.

(** X9: normalization throws nothing but a [TypeError]; it throws on a
    document without [schedule], and on a document without [speakers]
    in which a session names a speaker; but [speakers] is not needed
    otherwise: when no session names a speaker, a document that is
    accepted is also accepted without its [speakers], with the same
    sessions, tracks and map, and still without [speakers]. *)
Theorem processData_outcome (raw : Json.Document) :
  (forall e, processData (json raw) = Throw e -> e = TypeError) /\
  (Json.schedule raw = None -> processData (json raw) = Throw TypeError) /\
  (forall schedule,
     Json.schedule raw = Some schedule -> Json.speakers raw = None ->
     namesSomeone schedule ->
     processData (json raw) = Throw TypeError) /\
  (forall schedule d,
     Json.schedule raw = Some schedule ->
     ~ namesSomeone schedule ->
     processData (json raw) = Ok d ->
     exists d',
       processData (json (Json.mkDocument (Json.schedule raw) None (Json.map raw))) = Ok d' /\
       List.map day_to_json <$> Document.schedule d'
       = List.map day_to_json <$> Document.schedule d /\
       Document.tracks d' = Document.tracks d /\
       Document.map d' = Document.map d /\
       Document.speakers d' = None).
Proof.
  split; [intros e; apply processData_error|].
  split; [intros Hsch; apply processData_no_schedule; simpl; by rewrite Hsch|].
  split.
  - intros schedule Hsch Hsps Hn. pose proof (processData_cases raw) as H.
    destruct (processData (json raw)) as [d|e]; [|by destruct H as [-> _]].
    destruct H as (schedule' & Hsch' & Hok).
    rewrite Hsch in Hsch'. injection Hsch' as <-.
    destruct Hok as [[? Hs]|Hno]; [by rewrite Hsps in Hs | by destruct Hno].
  - intros schedule d Hsch Hno Hrun.
    set (raw' := Json.mkDocument (Json.schedule raw) None (Json.map raw)).
    pose proof (processData_cases raw') as H.
    destruct (processData (json raw')) as [d'|e] eqn:Hrun'.
    + exists d'. split; [done|].
      destruct (processData_shape raw d Hrun) as (sch1 & sch1' & H1 & H1' & Hj1 & Hm1).
      destruct (processData_shape raw' d' Hrun') as (sch2 & sch2' & H2 & H2' & Hj2 & Hm2).
      destruct (processData_collects raw d Hrun) as (sch3 & H3 & Ht1).
      destruct (processData_collects raw' d' Hrun') as (sch4 & H4 & Ht2).
      simpl in H2, H4. rewrite Hsch in H1, H2, H3, H4.
      injection H1 as <-. injection H2 as <-. injection H3 as <-. injection H4 as <-.
      split; [by rewrite H1', H2'; simpl; rewrite Hj1, Hj2|].
      split; [by rewrite Ht1, Ht2|]. split; [by rewrite Hm1, Hm2|].
      by apply (processData_keeps_speakerless (json raw') d').
    + exfalso. destruct H as (_ & [Hnone|(schedule' & Hsch' & _ & Hn)]); simpl in *.
      * by rewrite Hsch in Hnone.
      * rewrite Hsch in Hsch'. injection Hsch' as <-. by destruct Hno.
Qed.

Lemma processData_outcome_witness :
  processData (json (Json.mkDocument None (Some []) (Some []))) = Throw TypeError /\
  processData (json (Json.mkDocument (Json.schedule Example.conference) None None))
  = Throw TypeError /\
  exists d,
    processData
      (json (Json.mkDocument
               (Some [Example.day [Json.mkGroup "12:00 pm" [Example.lunch; Example.deepDive]]])
               None (Some [])))
    = Ok d /\
    Document.tracks d = Some ["dev"] /\
    Document.speakers d = None.
Proof.
  split; [|split].
  - by apply processData_outcome.
  - eapply processData_outcome; [reflexivity | reflexivity |].
    exists (Example.day [Json.mkGroup "9:00 am" [Example.intro];
                         Json.mkGroup "10:00 am" [Example.deepDive]]),
           (Json.mkGroup "9:00 am" [Example.intro]), Example.intro.
    split; [apply elem_of_cons; by left|]. split; [apply elem_of_cons; by left|].
    split; [apply elem_of_cons; by left|]. done.
  - set (schedule := [Example.day [Json.mkGroup "12:00 pm" [Example.lunch; Example.deepDive]]]).
    destruct (processData_outcome
                (Json.mkDocument (Some schedule) (Some [Example.alice]) (Some [])))
      as (_ & _ & _ & H).
    edestruct (H schedule) as (d' & Hrun & _ & Ht & _ & Hs).
    + reflexivity.
    + intros (day & g & s & Hd & Hg & Hs & Hn).
      apply list_elem_of_singleton in Hd as ->. simpl in Hg.
      apply list_elem_of_singleton in Hg as ->. simpl in Hs.
      apply elem_of_cons in Hs as [->|Hs]; [done|].
      apply list_elem_of_singleton in Hs as ->. done.
    + vm_compute. reflexivity.
    + exists d'. split; [exact Hrun|]. split; [exact Ht | exact Hs].
Defined.
End Speakerless.


(** ** Normalizing a normalized document *)

Section Again.

Lemma flatFrom_map {X Y E F : Type} (ent : nat -> Y -> list F) (ent' : nat -> X -> list E)
    (f : X -> Y) (g : E -> F) (l : list X) :
  (forall i x, ent i (f x) = List.map g (ent' i x)) ->
  forall i, flatFrom ent i (List.map f l) = List.map g (flatFrom ent' i l).
Proof.
  intros H. induction l as [|x l IH]; intros i; simpl; [done|].
  by rewrite H, IH, List.map_app.
Qed.

Lemma entries_linked sps (schedule : list Day.t) :
  entries (List.map (linkedDay sps) schedule)
  = List.map (fun e => (e.1, linkedSession sps e.2)) (entries schedule).
Proof.
  unfold entries. apply flatFrom_map. intros d day.
  unfold entriesOfDay. simpl. apply flatFrom_map. intros g group.
  unfold entriesOfGroup. simpl. apply flatFrom_map. by intros i s.
Qed.

Lemma linkEntries_linked sps (a : list (SessionRef * Session.t)) speakers :
  linkEntries (List.map (fun e => (e.1, linkedSession sps e.2)) a) speakers
  = linkEntries a speakers.
Proof.
  unfold linkEntries. revert speakers. induction a as [|e a IH]; intros speakers; simpl; [done|].
  by rewrite IH.
Qed.

Lemma tracksOfEntries_linked sps (a : list (SessionRef * Session.t)) :
  tracksOfEntries (List.map (fun e => (e.1, linkedSession sps e.2)) a) = tracksOfEntries a.
Proof.
  unfold tracksOfEntries. induction a as [|e a IH]; simpl; [done|]. by rewrite IH.
Qed.

Lemma linkedDay_again sps sps' (day : Day.t) :
  List.map key sps' = List.map key sps ->
  linkedDay sps' (linkedDay sps day) = linkedDay sps day.
Proof.
  intros Hk. unfold linkedDay, Day.set_groups. simpl. f_equal.
  rewrite List.map_map. apply List.map_ext. intros g.
  unfold linkedGroup, Group.set_sessions. simpl. f_equal.
  rewrite List.map_map. apply List.map_ext. intros s.
  unfold linkedSession, Session.set_speakers. simpl. do 2 f_equal.
  by apply resolve_key.
Qed.

Lemma linksOf_linkedSpeaker_twice a (s : Speaker.t) :
  linksOf s = [] ->
  linksOf (linkedSpeaker a (linkedSpeaker a s))
  = linksOf (linkedSpeaker a s) ++ linksOf (linkedSpeaker a s).
Proof.
  intros Hs. rewrite (linksOf_linkedSpeaker a (linkedSpeaker a s)).
  rewrite (name_key _ _ (key_linkedSpeaker a s)).
  f_equal. by rewrite (linksOf_linkedSpeaker a s), Hs.
Qed.

(** X10: [processData] is not made to run twice.  On a normalized
    document it rebuilds the schedule, the tracks and every session's
    speakers as they are, but appends to every speaker's sessions the
    same links once more. *)
Theorem processData_again (raw : Json.Document) (d : Document.t) speakers :
  Json.speakers raw = Some speakers ->
  NoDup (List.map Json.p_name speakers) ->
  processData (json raw) = Ok d ->
  exists d2 speakers1 speakers2,
    processData d = Ok d2 /\
    Document.schedule d2 = Document.schedule d /\
    Document.tracks d2 = Document.tracks d /\
    Document.map d2 = Document.map d /\
    Document.speakers d = Some speakers1 /\
    Document.speakers d2 = Some speakers2 /\
    List.map key speakers2 = List.map key speakers1 /\
    List.map linksOf speakers2 = List.map (fun s => linksOf s ++ linksOf s) speakers1.
Proof.
  intros Hsps Hnd Hrun.
  destruct (processData_shape raw d Hrun) as (sch & sch' & Hsch & _ & _ & _).
  set (sch0 := List.map json_day sch).
  set (sps0 := json_speakers speakers).
  assert (Hrun0 := processData_run (json raw) sch0 sps0).
  simpl in Hrun0. rewrite Hsch, Hsps in Hrun0. specialize (Hrun0 eq_refl eq_refl).
  rewrite Hrun0 in Hrun. injection Hrun as <-.
  set (a := entries sch0) in *.
  assert (Hkey : List.map key (linkEntries a sps0) = List.map key sps0)
    by apply linkEntries_key.
  assert (Hnd0 : NoDup (List.map Speaker.name sps0)).
  { unfold Speaker.name. rewrite <- (List.map_map Speaker.json Json.p_name).
    unfold sps0. by rewrite json_speakers_json. }
  assert (Hnd1 : NoDup (List.map Speaker.name (linkEntries a sps0)))
    by (by rewrite (names_of_keys _ _ Hkey)).
  eexists _, (linkEntries a sps0), (linkEntries a (linkEntries a sps0)).
  split.
  { erewrite processData_run; [|reflexivity|reflexivity].
    rewrite entries_linked, linkEntries_linked, tracksOfEntries_linked. reflexivity. }
  simpl. split.
  { f_equal. rewrite List.map_map. apply List.map_ext. intros day.
    by apply linkedDay_again. }
  split; [done|]. split; [done|]. split; [done|]. split; [done|]. split.
  { apply linkEntries_key. }
  rewrite (linkEntries_map a (linkEntries a sps0) Hnd1), (linkEntries_map a sps0 Hnd0).
  rewrite !List.map_map. apply List.map_ext_in. intros s Hin.
  apply linksOf_linkedSpeaker_twice.
  by apply (json_speakers_links speakers), list_elem_of_In.
Qed.
End Again.

Lemma processData_again_witness :
  exists d d2,
    processData (json Example.conference) = Ok d /\
    processData d = Ok d2 /\
    (List.map linksOf <$> Document.speakers d) = Some [[(0, 0, 0)]] /\
    (List.map linksOf <$> Document.speakers d2) = Some [[(0, 0, 0); (0, 0, 0)]].
Proof.
  destruct (processData_again Example.conference
              (Document.mk
                 (Some (List.map (linkedDay (json_speakers [Example.speaker "Alice"]))
                                 (List.map json_day [Example.day
                                    [Json.mkGroup "9:00 am" [Example.intro];
                                     Json.mkGroup "10:00 am" [Example.deepDive]]])))
                 (Some [Speaker.mk 0 (Example.speaker "Alice") (Some [(0, 0, 0)])])
                 (Some ["design"; "dev"])
                 (Some [Json.mkMapPin "Venue" "43.07" "-89.38" true]))
              [Example.speaker "Alice"] eq_refl)
    as (d2 & sps1 & sps2 & Hrun2 & _).
  - simpl. apply NoDup_singleton.
  - vm_compute. reflexivity.
  - eexists _, d2. split; [vm_compute; reflexivity|].
    split; [exact Hrun2|]. split; [reflexivity|].
    vm_compute in Hrun2. by injection Hrun2 as <-.
Defined.


(** ** The accessors, called again *)

Lemma sort_sorted_id {A : Type} (cmp : A -> A -> Z) (l : list A) :
  StronglySorted (ascending cmp) l -> sort cmp l = l.
Proof.
  induction 1 as [|x l Hs IH Hx]; simpl; [done|]. rewrite IH.
  destruct Hx as [|y l' Hy _]; simpl; [done|].
  unfold ascending in Hy. apply Z.leb_le in Hy. by rewrite Hy.
Qed.

Section AccessorsAgain.
Variable httpGet : nat -> option Json.Document.
Variable localeCompare : string -> string -> Z.

Lemma getSpeakers_resolved st sorted st' :
  getSpeakers httpGet localeCompare st = (Resolved sorted, st') ->
  exists d st1 speakers,
    load httpGet st = (Resolved d, st1) /\
    Document.speakers d = Some speakers /\
    sorted = sort (bySurname localeCompare) speakers /\
    st' = set_data (Document.set_speakers sorted d) st1.
Proof.
  unfold getSpeakers. destruct (load httpGet st) as [[d|e|e] st1]; try discriminate.
  destruct (Document.speakers d) as [speakers|] eqn:Hs; [|discriminate].
  intros [= <- <-]. by exists d, st1, speakers.
Qed.

(** X11: [getSpeakers] called a second time resolves with the same list
    and leaves the service as it is. *)
Theorem getSpeakers_again st sorted st' :
  Consistent localeCompare ->
  getSpeakers httpGet localeCompare st = (Resolved sorted, st') ->
  getSpeakers httpGet localeCompare st' = (Resolved sorted, st').
Proof.
  intros Hc H. destruct (getSpeakers_resolved st sorted st' H)
    as (d & st1 & speakers & Hload & Hsps & Hsorted & Hst).
  assert (Hid : sort (bySurname localeCompare) sorted = sorted).
  { apply sort_sorted_id. rewrite Hsorted.
    apply sort_sorted, (Consistent_on localeCompare lastName Hc). }
  unfold getSpeakers. rewrite (load_hit httpGet st' (Document.set_speakers sorted d))
    by (by rewrite Hst).
  simpl. rewrite Hid. f_equal. by rewrite Hst.
Qed.

Lemma getTracks_resolved st sorted st' :
  getTracks httpGet st = (Resolved sorted, st') ->
  exists d st1 tracks,
    load httpGet st = (Resolved d, st1) /\
    Document.tracks d = Some tracks /\
    sorted = sort defaultCompare tracks /\
    st' = set_data (Document.set_tracks sorted d) st1.
Proof.
  unfold getTracks. destruct (load httpGet st) as [[d|e|e] st1]; try discriminate.
  destruct (Document.tracks d) as [tracks|] eqn:Hs; [|discriminate].
  intros [= <- <-]. by exists d, st1, tracks.
Qed.

Lemma strictly_sorted (l : list string) :
  NoDup l -> StronglySorted (ascending defaultCompare) l ->
  StronglySorted (fun a b => String.compare a b = Lt) l.
Proof.
  intros Hnd Hs. induction Hs as [|x l Hs IH Hx]; [constructor|].
  apply NoDup_cons in Hnd as [Hx' Hnd]. constructor; [by apply IH|].
  rewrite Forall_forall in Hx |- *. intros y Hy. specialize (Hx y Hy).
  unfold ascending, defaultCompare in Hx.
  destruct (String.compare x y) eqn:Hc; [|done|lia].
  apply String.compare_eq_iff in Hc. subst y. by destruct Hx'.
Qed.

(** X12: on a fresh service [getTracks] resolves with the track names of
    the fetched document, each once, in strictly ascending order of code
    units. *)
Theorem getTracks_sorted st raw sorted st' :
  data st = None ->
  httpGet (fetches st) = Some raw ->
  getTracks httpGet st = (Resolved sorted, st') ->
  exists schedule,
    Json.schedule raw = Some schedule /\
    (forall t, t ∈ sorted <-> t ∈ allTracks schedule) /\
    StronglySorted (fun a b => String.compare a b = Lt) sorted.
Proof.
  intros Hnone Hget H.
  destruct (getTracks_resolved st sorted st' H) as (d & st1 & tracks & Hload & Ht & -> & _).
  rewrite load_miss, Hget in Hload by done.
  destruct (processData (json raw)) as [d0|e] eqn:Hrun; [|discriminate].
  injection Hload as -> _.
  destruct (processData_collects raw d Hrun) as (schedule & Hsch & Ht').
  rewrite Ht, collect_nil_firstSeen in Ht'. injection Ht' as ->.
  exists schedule. split; [done|].
  pose proof (sort_perm defaultCompare (firstSeen (allTracks schedule))) as Hp.
  split.
  - intros t. rewrite Hp. apply elem_of_firstSeen.
  - apply strictly_sorted.
    + rewrite Hp. apply NoDup_firstSeen.
    + apply sort_sorted, defaultCompare_consistent.
Qed.

(** X13: on a fresh service [getMap] resolves with the [map] of the
    fetched document as it is, and with [undefined] when the document
    has none. *)
Theorem getMap_fetched st raw :
  data st = None ->
  httpGet (fetches st) = Some raw ->
  is_Some (Json.schedule raw) ->
  is_Some (Json.speakers raw) ->
  (getMap httpGet st).1 = Resolved (Json.map raw).
Proof.
  intros Hnone Hget Hsch Hsps. unfold getMap.
  rewrite load_miss, Hget by done.
  destruct (processData_total raw Hsch Hsps) as [d Hd]. rewrite Hd. simpl.
  by destruct (processData_shape raw d Hd) as (? & ? & _ & _ & _ & ->).
Qed.

(** X14: a failure of [load] is not remembered: the next call asks for
    the document again and resolves if it comes. *)
Theorem load_retry st thrown st1 :
  load httpGet st = (NotResolved thrown, st1) ->
  data st1 = None /\
  fetches st1 = S (fetches st) /\
  forall raw, httpGet (fetches st1) = Some raw ->
    is_Some (Json.schedule raw) -> is_Some (Json.speakers raw) ->
    exists d st2, load httpGet st1 = (Resolved d, st2) /\
                  data st2 = Some d /\ fetches st2 = S (S (fetches st)).
Proof.
  intros H. unfold load in H. destruct (data st) as [d|] eqn:Hd; [discriminate|].
  assert (Hst1 : st1 = mkService None (S (fetches st))).
  { destruct (httpGet (fetches st)) as [res|]; [|by injection H as _ <-].
    destruct (processData (json res)); [discriminate | by injection H as _ <-]. }
  subst st1. split; [done|]. split; [done|].
  intros raw Hget Hsch Hsps. rewrite load_miss by done. simpl in *. rewrite Hget.
  destruct (processData_total raw Hsch Hsps) as [d Hd']. rewrite Hd'. by eexists _, _.
Qed.
End AccessorsAgain.

Lemma getSpeakers_again_witness :
  exists sorted st',
    getSpeakers (Example.serve Example.twoSpeakers) defaultCompare Example.fresh
      = (Resolved sorted, st') /\
    getSpeakers (Example.serve Example.twoSpeakers) defaultCompare st'
      = (Resolved sorted, st').
Proof.
  eexists _, _. split; [vm_compute; reflexivity|].
  apply (getSpeakers_again (Example.serve Example.twoSpeakers) defaultCompare Example.fresh).
  - exact defaultCompare_consistent.
  - vm_compute. reflexivity.
Defined.

Lemma getTracks_sorted_witness :
  exists sorted st',
    getTracks (Example.serve Example.conference) Example.fresh = (Resolved sorted, st') /\
    sorted = ["design"; "dev"] /\
    StronglySorted (fun a b => String.compare a b = Lt) sorted.
Proof.
  eexists _, _. split; [vm_compute; reflexivity|]. split; [reflexivity|].
  edestruct (getTracks_sorted (Example.serve Example.conference) Example.fresh
               Example.conference) as (sch & _ & _ & H);
    [reflexivity | reflexivity | vm_compute; reflexivity | exact H].
Defined.

Lemma getMap_fetched_witness :
  (getMap (Example.serve Example.withoutMap) Example.fresh).1 = Resolved None /\
  (getMap (Example.serve Example.conference) Example.fresh).1
  = Resolved (Some [Json.mkMapPin "Venue" "43.07" "-89.38" true]).
Proof.
  split.
  - apply (getMap_fetched (Example.serve Example.withoutMap) Example.fresh Example.withoutMap);
      [reflexivity | reflexivity | by eexists | by eexists].
  - apply (getMap_fetched (Example.serve Example.conference) Example.fresh Example.conference);
      [reflexivity | reflexivity | by eexists | by eexists].
Defined.

(** The first request fails, the later ones are answered. *)
Lemma load_retry_witness :
  let http := fun n => match n with 0 => None | _ => Some Example.conference end in
  exists st1 d st2,
    load http Example.fresh = (NotResolved None, st1) /\
    load http st1 = (Resolved d, st2) /\
    fetches st2 = 2.
Proof.
  intros http.
  destruct (load_retry http Example.fresh None (mkService None 1) eq_refl) as (_ & _ & H).
  destruct (H Example.conference eq_refl) as (d & st2 & Hload & _ & Hf);
    [by eexists | by eexists |].
  exists (mkService None 1), d, st2. split; [reflexivity|]. split; [exact Hload | exact Hf].
Defined.


(** ** A pass that stops half way *)

Section ForEachApp.
Context {X St : Type}.
Variable body : nat -> X -> St -> X * St * option JsError.

Lemma forEachFrom_app (l1 l2 : list X) :
  forall i σ,
    forEachFrom body i (l1 ++ l2) σ
    = let '(l1', σ1, e1) := forEachFrom body i l1 σ in
      match e1 with
      | Some e => (l1' ++ l2, σ1, Some e)
      | None =>
          let '(l2', σ2, e2) := forEachFrom body (i + length l1) l2 σ1 in
          (l1' ++ l2', σ2, e2)
      end.
Proof.
  induction l1 as [|x l1 IH]; intros i σ; simpl.
  - rewrite Nat.add_0_r. by destruct (forEachFrom body i l2 σ) as [[l2' σ2] e2].
  - destruct (body i x σ) as [[x' σ'] [e|]]; [done|].
    rewrite IH. destruct (forEachFrom body (S i) l1 σ') as [[l1' σ1] [e1|]]; [done|].
    replace (i + S (length l1)) with (S i + length l1) by lia.
    by destruct (forEachFrom body (S i + length l1) l2 σ1) as [[l2' σ2] e2].
Qed.
End ForEachApp.

Section Midway.
Variable httpGet : nat -> option Json.Document.
Variable hasFavorite : string -> bool.

(** The pass over a group stops at its first session without tracks:
    the sessions before it are filtered, the others are as they were,
    and the flag and the counter are those reached at that point. *)
Lemma timelineGroup_stops (queryWords excludeTracks : list string) (segment : string)
    (j : nat) (g : Group.t) (ss1 ss2 : list Session.t) (s : Session.t) (shown : nat) :
  Group.sessions g = ss1 ++ s :: ss2 ->
  Forall (fun s => is_Some (Session.tracks s)) ss1 ->
  Session.tracks s = None ->
  timelineGroup hasFavorite queryWords excludeTracks segment j g shown
  = (Group.mk (Group.time g)
       (List.map (filtered hasFavorite queryWords excludeTracks segment) ss1 ++ s :: ss2)
       (Some (negb (existsb visible
                      (List.map (filtered hasFavorite queryWords excludeTracks segment) ss1)))),
     shown + length (List.filter visible
                       (List.map (filtered hasFavorite queryWords excludeTracks segment) ss1)),
     Some TypeError).
Proof.
  intros Hss Ht Hs. unfold timelineGroup, forEach. rewrite Hss, forEachFrom_app.
  rewrite (timelineSessions_run hasFavorite queryWords excludeTracks segment ss1 Ht).
  simpl. unfold timelineSession at 1.
  by rewrite (filterSession_throws hasFavorite s queryWords excludeTracks segment Hs).
Qed.

(** X15: when [getTimeline] is rejected because of a session without
    tracks, the annotations written before the exception stay.  With
    [s] the first such session of the day: the groups before its group
    are filtered as in a full pass; in its group the sessions before
    [s] are filtered, [s] and those after it are as they were, and
    [hide] tells whether none of the filtered ones is shown; the
    groups after it are untouched; and [shownSessions] is the number
    of sessions shown among the filtered ones. *)
Theorem getTimeline_rejected_midway
    st d st1 schedule i day gs1 g gs2 ss1 s ss2 queryText excludeTracks segment :
  load httpGet st = (Resolved d, st1) ->
  Document.schedule d = Some schedule ->
  at_index schedule i = Some day ->
  Day.groups day = gs1 ++ g :: gs2 ->
  Forall (fun g => Forall (fun s => is_Some (Session.tracks s)) (Group.sessions g)) gs1 ->
  Group.sessions g = ss1 ++ s :: ss2 ->
  Forall (fun s => is_Some (Session.tracks s)) ss1 ->
  Session.tracks s = None ->
  let F := filtered hasFavorite (queryWordsOf queryText) excludeTracks segment in
  let FG := filteredGroup hasFavorite (queryWordsOf queryText) excludeTracks segment in
  let day' :=
    Day.mk (Day.date day)
      (List.map FG gs1
       ++ Group.mk (Group.time g) (List.map F ss1 ++ s :: ss2)
                   (Some (negb (existsb visible (List.map F ss1))))
       :: gs2)
      (Some (length (List.filter visible
                       (concat (List.map Group.sessions (List.map FG gs1))))
             + length (List.filter visible (List.map F ss1)))) in
  getTimeline httpGet hasFavorite st i queryText excludeTracks segment
  = (Rejected TypeError,
     set_data (Document.set_schedule (<[Z.to_nat i := day']> schedule) d) st1) /\
  cachedDay (getTimeline httpGet hasFavorite st i queryText excludeTracks segment).2
            (Z.to_nat i)
  = Some day'.
Proof.
  intros Hload Hsch Hi Hgs Ht Hss Ht1 Hnone F FG day'.
  destruct (getTimeline_run httpGet hasFavorite _ _ _ _ i queryText excludeTracks segment
              Hload Hsch day Hi) as (gs & n & e & Hpass & Hget).
  unfold forEach in Hpass. rewrite Hgs, forEachFrom_app in Hpass.
  rewrite (timelineGroups_run _ _ _ _ _ Ht) in Hpass. simpl in Hpass.
  rewrite (timelineGroup_stops _ _ _ _ g ss1 ss2 s _ Hss Ht1 Hnone) in Hpass.
  injection Hpass as <- <- <-.
  assert (Hrun : getTimeline httpGet hasFavorite st i queryText excludeTracks segment
                 = (Rejected TypeError,
                    set_data (Document.set_schedule (<[Z.to_nat i := day']> schedule) d) st1))
    by exact Hget.
  split; [exact Hrun|]. rewrite Hrun.
  apply at_index_Some in Hi as [_ Hi].
  unfold cachedDay. simpl. apply list_lookup_insert_eq. by eapply lookup_lt_Some.
Qed.
End Midway.

Lemma getTimeline_rejected_midway_witness :
  exists st',
    getTimeline (Example.serve Example.mixed) Example.noFavorites Example.fresh
                0 "" [] "all" = (Rejected TypeError, st') /\
    cachedDay st' 0
    = Some (Day.mk "2047-05-17"
              [Group.mk "9:00 am"
                 [Session.mk Example.intro (Some [0]) (Some false)] (Some false);
               Group.mk "10:00 am"
                 [Session.mk Example.deepDive (Some []) (Some false);
                  Session.mk Example.lunch (Some []) None;
                  Session.mk Example.intro (Some [0]) None] (Some false)]
              (Some 2)).
Proof.
  set (g1 := Group.mk "9:00 am" [Session.mk Example.intro (Some [0]) None] None).
  set (s1 := Session.mk Example.deepDive (Some []) None).
  set (s2 := Session.mk Example.lunch (Some []) None).
  set (s3 := Session.mk Example.intro (Some [0]) None).
  set (g2 := Group.mk "10:00 am" [s1; s2; s3] None).
  set (day0 := Day.mk "2047-05-17" [g1; g2] None).
  assert (Hload : exists d st1,
            load (Example.serve Example.mixed) Example.fresh = (Resolved d, st1) /\
            Document.schedule d = Some [day0]).
  { eexists _, _. split; [vm_compute; reflexivity | reflexivity]. }
  destruct Hload as (d & st1 & Hload & Hsch).
  destruct (getTimeline_rejected_midway (Example.serve Example.mixed)
              Example.noFavorites Example.fresh d st1 [day0] 0 day0
              [g1] g2 [] [s1] s2 [s3] "" [] "all")
    as (Hget & Hday).
  - exact Hload.
  - exact Hsch.
  - reflexivity.
  - reflexivity.
  - by repeat constructor.
  - reflexivity.
  - by repeat constructor.
  - reflexivity.
  - eexists. split; [exact Hget|]. rewrite Hget in Hday. exact Hday.
Defined.


(** ** The cross-references stay in order *)

Section Linked.

Lemma sessionAt_erased (schedule : list Day.t) (p : SessionRef) :
  sessionAt (List.map eraseDay schedule) p = eraseSession <$> sessionAt schedule p.
Proof.
  unfold sessionAt. change (List.map eraseDay schedule) with (eraseDay <$> schedule).
  rewrite list_lookup_fmap. destruct (schedule !! p.1.1) as [day|]; [|done]. simpl.
  change (List.map eraseGroup (Day.groups day)) with (eraseGroup <$> Day.groups day).
  rewrite list_lookup_fmap. destruct (Day.groups day !! p.1.2) as [group|]; [|done]. simpl.
  change (List.map eraseSession (Group.sessions group))
    with (eraseSession <$> Group.sessions group).
  by rewrite list_lookup_fmap.
Qed.

Lemma sessionAt_same_erasure (sch sch' : list Day.t) (p : SessionRef) (s' : Session.t) :
  List.map eraseDay sch = List.map eraseDay sch' ->
  sessionAt sch' p = Some s' ->
  exists s, sessionAt sch p = Some s /\ speakersOf s = speakersOf s'.
Proof.
  intros He Hs'. pose proof (sessionAt_erased sch p) as H.
  rewrite He, sessionAt_erased, Hs' in H. simpl in H.
  destruct (sessionAt sch p) as [s|]; [|discriminate]. exists s. split; [done|].
  simpl in H. unfold speakersOf. unfold eraseSession in H. congruence.
Qed.

(** [linked] looks at the schedule without its annotations and at the
    speakers as a set. *)
Lemma linked_transfer (d d' : Document.t) sch sch' sps sps' :
  Document.schedule d = Some sch -> Document.schedule d' = Some sch' ->
  Document.speakers d = Some sps -> Document.speakers d' = Some sps' ->
  List.map eraseDay sch = List.map eraseDay sch' ->
  Permutation sps sps' ->
  linked d -> linked d'.
Proof.
  intros Hsch Hsch' Hsps Hsps' He Hp (sch0 & sps0 & H1 & H2 & Hnd & Hl & Hs & Hiff).
  rewrite Hsch in H1. injection H1 as <-. rewrite Hsps in H2. injection H2 as <-.
  exists sch', sps'. split; [done|]. split; [done|]. split; [by rewrite <- Hp|].
  split; [|split].
  - intros sp p Hsp Hin. rewrite <- Hp in Hsp. destruct (Hl sp p Hsp Hin) as [s Hat].
    pose proof (sessionAt_erased sch' p) as H. rewrite <- He, sessionAt_erased, Hat in H.
    destruct (sessionAt sch' p); [by eexists | discriminate].
  - intros p s' o Hat Ho.
    destruct (sessionAt_same_erasure sch sch' p s' He Hat) as (s & Hat0 & Heq).
    rewrite <- Heq in Ho. destruct (Hs p s o Hat0 Ho) as (sp & Hsp & Hoid).
    exists sp. by rewrite <- Hp.
  - intros p s' sp Hat Hsp. rewrite <- Hp in Hsp.
    destruct (sessionAt_same_erasure sch sch' p s' He Hat) as (s & Hat0 & Heq).
    rewrite <- Heq. by apply Hiff.
Qed.

(** Normalization links a well-formed document. *)
Lemma processData_linked (raw : Json.Document) (d : Document.t) :
  wellFormed raw -> processData (json raw) = Ok d -> linked d.
Proof.
  intros ([schedule Hsch] & speakers & Hsps & Hnd) Hd.
  set (sch0 := List.map json_day schedule).
  set (sps0 := json_speakers speakers).
  assert (Hrun := processData_run (json raw) sch0 sps0).
  simpl in Hrun. rewrite Hsch, Hsps in Hrun. specialize (Hrun eq_refl eq_refl).
  rewrite Hrun in Hd. injection Hd as <-.
  assert (Hnames0 : List.map Speaker.name sps0 = List.map Json.p_name speakers).
  { unfold Speaker.name. rewrite <- (List.map_map Speaker.json Json.p_name).
    unfold sps0. by rewrite json_speakers_json. }
  assert (Hnd0 : NoDup (List.map Speaker.name sps0)) by (by rewrite Hnames0).
  set (a := entries sch0) in *.
  assert (Hkey : List.map key (linkEntries a sps0) = List.map key sps0)
    by apply linkEntries_key.
  assert (Hoids : List.map Speaker.oid (linkEntries a sps0) = seq 0 (length speakers)).
  { rewrite <- json_speakers_oid. fold sps0.
    apply (f_equal (List.map fst)) in Hkey. by rewrite !List.map_map in Hkey. }
  assert (Hnd' : NoDup (List.map Speaker.name (linkEntries a sps0)))
    by (by rewrite (names_of_keys _ _ Hkey)).
  assert (Hod' : NoDup (List.map Speaker.oid (linkEntries a sps0)))
    by (rewrite Hoids; apply NoDup_ListNoDup, List.seq_NoDup).
  assert (Hlinks : forall sp p, sp ∈ linkEntries a sps0 ->
            (p ∈ linksOf sp <->
             exists s0, sessionAt sch0 p = Some s0 /\ Speaker.name sp ∈ namesOf s0)).
  { intros sp p Hsp. rewrite linkEntries_map in Hsp by done.
    apply list_elem_of_In, in_map_iff in Hsp as (sp0 & <- & Hsp0).
    apply list_elem_of_In in Hsp0.
    rewrite elem_of_links, (json_speakers_links _ _ Hsp0).
    rewrite (name_key _ _ (key_linkedSpeaker a sp0)). split.
    - intros [Hnil|(e & He & <- & Hn)]; [by apply elem_of_nil in Hnil|].
      apply elem_of_entries in He. eauto.
    - intros (s0 & Hat & Hn). right. exists (p, s0). split; [|done].
      by apply elem_of_entries. }
  exists (List.map (linkedDay sps0) sch0), (linkEntries a sps0).
  split; [done|]. split; [done|]. split; [exact Hod'|]. split; [|split].
  - intros sp p Hsp Hp. apply (Hlinks sp p Hsp) in Hp as (s0 & Hat & _).
    rewrite sessionAt_linked, Hat. by eexists.
  - intros p s o Hat Ho. rewrite sessionAt_linked in Hat.
    destruct (sessionAt sch0 p) as [s0|]; [|discriminate]. simpl in Hat.
    injection Hat as <-. unfold speakersOf, linkedSession in Ho. simpl in Ho.
    unfold resolve in Ho. apply list_elem_of_omap in Ho as (n & _ & Hf).
    destruct (speakerNamed sps0 n) as [[k sp0]|] eqn:Hk; [|discriminate].
    simpl in Hf. injection Hf as Hf. apply speakerNamed_Some in Hk as [Hk _].
    assert (Hk' : key <$> linkEntries a sps0 !! k = Some (key sp0)).
    { rewrite <- list_lookup_fmap.
      change (key <$> linkEntries a sps0) with (List.map key (linkEntries a sps0)).
      rewrite Hkey. change (List.map key sps0) with (key <$> sps0).
      by rewrite list_lookup_fmap, Hk. }
    destruct (linkEntries a sps0 !! k) as [sp|] eqn:Hsp; [|discriminate].
    exists sp. split; [by eapply list_elem_of_lookup_2|].
    simpl in Hk'. unfold key in Hk'. congruence.
  - intros p s sp Hat Hsp. rewrite sessionAt_linked in Hat.
    destruct (sessionAt sch0 p) as [s0|] eqn:Hat0; [|discriminate]. simpl in Hat.
    injection Hat as <-. unfold speakersOf, linkedSession. simpl.
    rewrite <- (resolve_key _ _ (namesOf s0) Hkey).
    rewrite (elem_of_resolve _ (namesOf s0) sp Hnd' Hod' Hsp).
    rewrite (Hlinks sp p Hsp). split; [by eauto|].
    intros (s1 & Hs1 & Hn). congruence.
Qed.

Variable httpGet : nat -> option Json.Document.
Variable hasFavorite : string -> bool.
Variable localeCompare : string -> string -> Z.
Hypothesis responses : forall n raw, httpGet n = Some raw -> wellFormed raw.

Lemma load_linked st :
  (forall d, data st = Some d -> linked d) ->
  forall d, data (load httpGet st).2 = Some d -> linked d.
Proof.
  intros Hst d. unfold load. destruct (data st) as [d0|] eqn:Hd0; simpl.
  - rewrite Hd0. intros [= <-]. by apply Hst.
  - destruct (httpGet (fetches st)) as [raw|] eqn:Hget; simpl; [|discriminate].
    destruct (processData (json raw)) as [d1|e] eqn:Hrun; simpl; [|discriminate].
    intros [= <-]. eapply processData_linked; [by eapply responses | done].
Qed.

Lemma load_resolved_cached st d st1 :
  load httpGet st = (Resolved d, st1) -> data (load httpGet st).2 = Some d.
Proof. intros H. rewrite H. simpl. by eapply load_cached. Qed.

Lemma getTimeline_linked st i queryText excludeTracks segment :
  (forall d, data st = Some d -> linked d) ->
  forall d, data (getTimeline httpGet hasFavorite st i queryText excludeTracks segment).2
            = Some d -> linked d.
Proof.
  intros Hst d' Hd'.
  destruct (getTimeline_frame httpGet hasFavorite st i queryText excludeTracks segment)
    as (_ & He & _).
  rewrite Hd' in He. simpl in He.
  destruct (data (load httpGet st).2) as [d|] eqn:Hd; [|discriminate].
  simpl in He. assert (He' : eraseDocument d' = eraseDocument d) by congruence.
  pose proof (load_linked st Hst d Hd) as Hl.
  destruct Hl as (sch & sps & Hsch & Hsps & Hrest).
  pose proof (f_equal Document.schedule He') as Hs. simpl in Hs. rewrite Hsch in Hs.
  pose proof (f_equal Document.speakers He') as Hp. simpl in Hp. rewrite Hsps in Hp.
  destruct (Document.schedule d') as [sch'|] eqn:Hsch'; [|discriminate].
  simpl in Hs. injection Hs as Hs.
  eapply (linked_transfer d d' sch sch' sps sps); eauto.
  by exists sch, sps.
Qed.

Lemma getSpeakers_linked st :
  (forall d, data st = Some d -> linked d) ->
  forall d, data (getSpeakers httpGet localeCompare st).2 = Some d -> linked d.
Proof.
  intros Hst d'. pose proof (load_linked st Hst) as Hl. unfold getSpeakers.
  destruct (load httpGet st) as [[d|e|e] st1] eqn:Hload; simpl in *; try apply Hl.
  destruct (Document.speakers d) as [sps|] eqn:Hsps; simpl; [|apply Hl].
  intros [= <-].
  pose proof (Hl d (load_cached _ _ _ _ Hload)) as (sch & sps0 & Hsch & Hsps0 & Hrest).
  rewrite Hsps in Hsps0. injection Hsps0 as <-.
  eapply (linked_transfer d _ sch sch sps (sort (bySurname localeCompare) sps)); eauto.
  - symmetry. apply sort_perm.
  - by exists sch, sps.
Qed.

Lemma getTracks_linked st :
  (forall d, data st = Some d -> linked d) ->
  forall d, data (getTracks httpGet st).2 = Some d -> linked d.
Proof.
  intros Hst d'. pose proof (load_linked st Hst) as Hl. unfold getTracks.
  destruct (load httpGet st) as [[d|e|e] st1] eqn:Hload; simpl in *; try apply Hl.
  destruct (Document.tracks d) as [ts|] eqn:Hts; simpl; [|apply Hl].
  intros [= <-].
  pose proof (Hl d (load_cached _ _ _ _ Hload)) as (sch & sps & Hsch & Hsps & Hrest).
  eapply (linked_transfer d _ sch sch sps sps); eauto. by exists sch, sps.
Qed.

Lemma getMap_linked st :
  (forall d, data st = Some d -> linked d) ->
  forall d, data (getMap httpGet st).2 = Some d -> linked d.
Proof.
  intros Hst d'. pose proof (load_linked st Hst) as Hl. unfold getMap.
  destruct (load httpGet st) as [[d|e|e] st1] eqn:Hload; simpl in *; apply Hl.
Qed.

(** X16: when every fetched document has a schedule and speakers of
    unique names, the cross-references of the cached document are in
    order after any sequence of calls on a fresh service. *)
Theorem calls_linked (st : Service) (cs : list Call) (d : Document.t) :
  data st = None ->
  data (calls httpGet hasFavorite localeCompare st cs) = Some d ->
  linked d.
Proof.
  intros Hnone.
  assert (Hinv : forall d0, data st = Some d0 -> linked d0) by (by rewrite Hnone).
  clear Hnone. revert st Hinv d. unfold calls.
  induction cs as [|c cs IH]; intros st Hinv d; simpl; [by apply Hinv|].
  apply IH. destruct c; simpl.
  - by apply load_linked.
  - by apply getTimeline_linked.
  - by apply getSpeakers_linked.
  - by apply getTracks_linked.
  - by apply getMap_linked.
Qed.
End Linked.

Lemma calls_linked_witness :
  exists d schedule speakers,
    data (calls (Example.serve Example.panel) Example.noFavorites defaultCompare
                Example.fresh
                [CallTimeline 0 "panel" [] "all"; CallSpeakers; CallTracks; CallMap])
    = Some d /\
    Document.schedule d = Some schedule /\
    Document.speakers d = Some speakers /\
    List.map (fun sp => (Speaker.oid sp, Speaker.name sp, linksOf sp)) speakers
    = [(1, "Bob Abe", [(0, 0, 0); (0, 1, 0)]); (0, "Alice Zed", [(0, 0, 0)])] /\
    List.map (fun p => speakersOf <$> sessionAt schedule p) [(0, 0, 0); (0, 1, 0)]
    = [Some [0; 1]; Some [1]] /\
    linked d.
Proof.
  assert (Hwf : forall n raw, Example.serve Example.panel n = Some raw -> wellFormed raw).
  { intros n raw [= <-]. split; [by eexists|].
    eexists. split; [reflexivity|]. simpl.
    apply NoDup_cons. split; [|apply NoDup_singleton].
    intros H. apply list_elem_of_singleton in H. discriminate. }
  eexists _, _, _. split; [vm_compute; reflexivity|].
  split; [reflexivity|]. split; [reflexivity|]. split; [reflexivity|]. split; [reflexivity|].
  eapply (calls_linked (Example.serve Example.panel) Example.noFavorites defaultCompare
            Hwf Example.fresh
            [CallTimeline 0 "panel" [] "all"; CallSpeakers; CallTracks; CallMap]).
  - reflexivity.
  - vm_compute. reflexivity.
Defined.


(** ** More words in the query *)

Section MoreWords.
Variable httpGet : nat -> option Json.Document.
Variable hasFavorite : string -> bool.

Lemma splitBy_cons (sep : ascii -> bool) (s : string) :
  exists w ws, Str.splitBy sep s = w :: ws.
Proof.
  induction s as [|c s (w & ws & IH)]; simpl; [by eauto|].
  destruct (sep c); [by eauto|]. rewrite IH. by eauto.
Qed.

Lemma splitBy_app (sep : ascii -> bool) (s1 s2 : string) (c : ascii) :
  sep c = true ->
  Str.splitBy sep (s1 +:+ String c s2) = Str.splitBy sep s1 ++ Str.splitBy sep s2.
Proof.
  intros Hc. induction s1 as [|a s1 IH]; simpl.
  - by rewrite Hc.
  - rewrite IH. destruct (sep a); [done|].
    by destruct (splitBy_cons sep s1) as (w & ws & ->).
Qed.

Lemma toLowerCase_app (s1 s2 : string) :
  Str.toLowerCase (s1 +:+ s2) = Str.toLowerCase s1 +:+ Str.toLowerCase s2.
Proof. induction s1 as [|a s1 IH]; simpl; [done|]. by rewrite IH. Qed.

Lemma replacePunct_app (s1 s2 : string) :
  Str.replacePunct (s1 +:+ s2) = Str.replacePunct s1 +:+ Str.replacePunct s2.
Proof. induction s1 as [|a s1 IH]; simpl; [done|]. by rewrite IH. Qed.

(** The words of two texts joined by a space. *)
Lemma queryWordsOf_app (q1 q2 : string) :
  queryWordsOf (q1 +:+ " " +:+ q2) = queryWordsOf q1 ++ queryWordsOf q2.
Proof.
  unfold queryWordsOf, Str.split.
  rewrite toLowerCase_app, replacePunct_app. simpl.
  rewrite (splitBy_app Str.isSpace _ _ " "%char eq_refl).
  apply List.filter_app.
Qed.

(** X17: the words of a query are alternatives.  Further words, added
    after a space to a text that already has a word, hide no session
    that was shown and never lower the number of shown sessions. *)
Theorem getTimeline_more_words st i q1 q2 excludeTracks segment day1 st1 day2 st2 :
  queryWordsOf q1 <> [] ->
  getTimeline httpGet hasFavorite st i q1 excludeTracks segment = (Resolved day1, st1) ->
  getTimeline httpGet hasFavorite st i (q1 +:+ " " +:+ q2) excludeTracks segment
    = (Resolved day2, st2) ->
  (forall g k, shownAt day1 g k = true -> shownAt day2 g k = true) /\
  exists n1 n2, Day.shownSessions day1 = Some n1 /\ Day.shownSessions day2 = Some n2 /\
                n1 <= n2.
Proof.
  intros Hne H1 H2.
  destruct (getTimeline_compare httpGet hasFavorite st i
              (q1 +:+ " " +:+ q2) excludeTracks segment q1 excludeTracks segment
              day2 st2 day1 st1 H2 H1) as (Hshown & n2 & n1 & Hn2 & Hn1 & Hle).
  - intros s _ (Hq & Ht & Hs). split; [|done].
    rewrite queryWordsOf_app. destruct Hq as [Hq|(w & Hw & Hsub)]; [done|].
    right. exists w. split; [|done]. apply elem_of_app. by left.
  - split; [exact Hshown|]. by exists n1, n2.
Qed.
End MoreWords.

Lemma getTimeline_more_words_witness :
  exists day1 st1 day2 st2,
    getTimeline (Example.serve Example.conference) Example.noFavorites Example.fresh
                0 "intro" [] "all" = (Resolved day1, st1) /\
    getTimeline (Example.serve Example.conference) Example.noFavorites Example.fresh
                0 "intro dive" [] "all" = (Resolved day2, st2) /\
    Day.shownSessions day1 = Some 1 /\
    Day.shownSessions day2 = Some 2 /\
    forall g k, shownAt day1 g k = true -> shownAt day2 g k = true.
Proof.
  eexists _, _, _, _. split; [vm_compute; reflexivity|]. split; [vm_compute; reflexivity|].
  split; [reflexivity|]. split; [reflexivity|].
  eapply (getTimeline_more_words (Example.serve Example.conference) Example.noFavorites
            Example.fresh 0 "intro" "dive" [] "all").
  - discriminate.
  - vm_compute. reflexivity.
  - vm_compute. reflexivity.
Defined.
